(** * Metadata Sniffer: crawl-and-extract pipeline, shallow embedding

    The development follows the Python sources:
    - [src/src/extractor.py]  (class [MetadataExtractor]),
    - [src/src/exporters.py]  ([create_forensic_hash_data] and the
      CSV and PDF exporters),
    - [src/src/helpers.py]    ([extract_folder_id_from_url]),
    - [src/web_app.py]        ([run_extraction] and the control routes),
    - [src/main.py]           ([main]).

    Python values are dynamically typed, so the embedding works over a
    JSON-like value type; exceptions are an explicit [result] type. *)

From Stdlib Require Import ZArith Lia Ascii String.
From stdpp Require Import base tactics option list strings gmap sorting pretty.

Local Open Scope Z_scope.
Set Warnings "-register-all".
Set Warnings "-clear-no-such-hyp".

(** ** Python values *)

Module Py.

(** JSON-shaped values as the Drive client library hands them over.
    Floats do not occur in Drive file resources and are not among the
    values. A [string] holds a Python [str] in UTF-8, one [ascii] per
    byte: iteration, indexing, [len] and [strip] go by character;
    [upper] and the escapes of [repr] are those of ASCII text. *)
Inductive value : Type :=
| VNone
| VBool (b : bool)
| VInt (z : Z)
| VStr (s : string)
| VList (l : list value)
| VDict (d : list (string * value)).

(** A Python [dict] with string keys, in insertion order. *)
Abbreviation dict := (list (string * value)).

Inductive exn : Type :=
| AttributeError
| TypeError
| KeyError
| IndexError
| HttpError (msg : string)
| Exception (msg : string).

Inductive result (A : Type) : Type :=
| Ok (a : A)
| Raise (e : exn).
Arguments Ok {A} a.
Arguments Raise {A} e.

Definition bind {A B} (r : result A) (k : A -> result B) : result B :=
  match r with
  | Ok a => k a
  | Raise e => Raise e
  end.

Notation "x <- r ;; k" := (bind r (fun x => k))
  (at level 100, r at next level, right associativity).

Fixpoint mapM {A B} (f : A -> result B) (l : list A) : result (list B) :=
  match l with
  | [] => Ok []
  | x :: l' => y <- f x;; ys <- mapM f l';; Ok (y :: ys)
  end.

(** [bool(v)] *)
Definition truthy (v : value) : bool :=
  match v with
  | VNone => false
  | VBool b => b
  | VInt z => negb (z =? 0)
  | VStr s => negb (String.eqb s "")
  | VList l => match l with [] => false | _ => true end
  | VDict d => match d with [] => false | _ => true end
  end.

(** [d.get(k)] as an option, first binding wins. *)
Fixpoint lookup (k : string) (d : dict) : option value :=
  match d with
  | [] => None
  | (k', v) :: d' => if String.eqb k k' then Some v else lookup k d'
  end.

(** [d.get(k, default)] *)
Definition get (d : dict) (k : string) (default : value) : value :=
  match lookup k d with
  | Some v => v
  | None => default
  end.

(** [d[k] = v] *)
Fixpoint set (k : string) (v : value) (d : dict) : dict :=
  match d with
  | [] => [(k, v)]
  | (k', v') :: d' =>
      if String.eqb k k' then (k, v) :: d' else (k', v') :: set k v d'
  end.

(** [v.get(k, default)] on an arbitrary object: only dicts have [get]. *)
Definition getattr_get (v : value) (k : string) (default : value)
  : result value :=
  match v with
  | VDict d => Ok (get d k default)
  | _ => Raise AttributeError
  end.

(** The bytes [0x80] to [0xBF], which continue a character in UTF-8. *)
Definition is_continuation (c : ascii) : bool :=
  let n := N_of_ascii c in
  ((128 <=? n) && (n <=? 191))%N.

(** The characters of [s], each with its continuation bytes. *)
Fixpoint chars (s : string) : list string :=
  match s with
  | EmptyString => []
  | String c s' =>
      match chars s' with
      | String d t :: rest =>
          if is_continuation d then String c (String d t) :: rest
          else String c "" :: String d t :: rest
      | rest => String c "" :: rest
      end
  end.

(** [v[0]] *)
Definition subscript0 (v : value) : result value :=
  match v with
  | VList (x :: _) => Ok x
  | VList [] => Raise IndexError
  | VStr s =>
      match chars s with
      | c :: _ => Ok (VStr c)
      | [] => Raise IndexError
      end
  | VDict _ => Raise KeyError
  | _ => Raise TypeError
  end.

(** [for x in v] *)
Definition iter (v : value) : result (list value) :=
  match v with
  | VList l => Ok l
  | VStr s => Ok (VStr <$> chars s)
  | VDict d => Ok ((fun kv => VStr (fst kv)) <$> d)
  | _ => Raise TypeError
  end.

(** [len(v)] *)
Definition len (v : value) : result Z :=
  match v with
  | VList l => Ok (Z.of_nat (length l))
  | VStr s => Ok (Z.of_nat (length (chars s)))
  | VDict d => Ok (Z.of_nat (length d))
  | _ => Raise TypeError
  end.

(** [sep.join(l)] for a list of strings *)
Fixpoint join (sep : string) (l : list string) : string :=
  match l with
  | [] => ""
  | [s] => s
  | s :: l' => s +:+ sep +:+ join sep l'
  end.

Definition as_str (v : value) : result string :=
  match v with
  | VStr s => Ok s
  | _ => Raise TypeError
  end.

(** [sep.join(v)] for an arbitrary object *)
Definition join_value (sep : string) (v : value) : result string :=
  l <- iter v;; ss <- mapM as_str l;; Ok (join sep ss).

(** *** [repr] and [str] *)

Definition hex_digit (n : N) : ascii :=
  match n with
  | 0 => "0" | 1 => "1" | 2 => "2" | 3 => "3" | 4 => "4" | 5 => "5"
  | 6 => "6" | 7 => "7" | 8 => "8" | 9 => "9" | 10 => "a" | 11 => "b"
  | 12 => "c" | 13 => "d" | 14 => "e" | _ => "f"
  end%N%char.

Fixpoint contains_char (c : ascii) (s : string) : bool :=
  match s with
  | EmptyString => false
  | String c' s' => Ascii.eqb c c' || contains_char c s'
  end.

Definition repr_char (quote c : ascii) : string :=
  let n := N_of_ascii c in
  if Ascii.eqb c quote || Ascii.eqb c "\"
  then String "\" (String c "")
  else if (n =? 9)%N then "\t"
  else if (n =? 10)%N then "\n"
  else if (n =? 13)%N then "\r"
  else if (n <? 32)%N || (n =? 127)%N
  then String "\" (String "x"
         (String (hex_digit (n / 16)) (String (hex_digit (n mod 16)) "")))
  else String c "".

Fixpoint repr_chars (quote : ascii) (s : string) : string :=
  match s with
  | EmptyString => ""
  | String c s' => repr_char quote c +:+ repr_chars quote s'
  end.

(** [repr(s)] for a [str]: single quotes unless the text has a single
    quote and no double quote. Beyond ASCII Python also escapes the
    characters its Unicode tables call unprintable; here the bytes of
    every character beyond ASCII are kept. *)
Definition repr_str (s : string) : string :=
  let double_quote : ascii := "034"%char in
  let quote : ascii :=
    if contains_char "'" s && negb (contains_char double_quote s)
    then double_quote else "'"%char in
  String quote (repr_chars quote s +:+ String quote "").

Fixpoint repr (v : value) : string :=
  match v with
  | VNone => "None"
  | VBool true => "True"
  | VBool false => "False"
  | VInt z => pretty z
  | VStr s => repr_str s
  | VList l => "[" +:+ join ", " (map repr l) +:+ "]"
  | VDict d =>
      "{" +:+ join ", "
        (map (fun kv => repr_str (fst kv) +:+ ": " +:+ repr (snd kv)) d)
      +:+ "}"
  end.

(** [str(v)], also what an f-string field [{v}] renders. *)
Definition str (v : value) : string :=
  match v with
  | VStr s => s
  | _ => repr v
  end.

(** *** String methods *)

(** The code point of a text that is one character of at most three
    bytes. A character of four bytes lies beyond [U+FFFF], where there
    is no whitespace. *)
Definition code_point (s : string) : option N :=
  match s with
  | String a EmptyString =>
      let a := N_of_ascii a in
      if (a <? 128)%N then Some a else None
  | String a (String b EmptyString) =>
      let a := N_of_ascii a in
      if ((194 <=? a) && (a <=? 223) && is_continuation b)%N
      then Some ((a - 192) * 64 + (N_of_ascii b - 128))%N
      else None
  | String a (String b (String c EmptyString)) =>
      let a := N_of_ascii a in
      let cp := ((a - 224) * 4096 + (N_of_ascii b - 128) * 64
                 + (N_of_ascii c - 128))%N in
      if ((224 <=? a) && (a <=? 239) && is_continuation b
          && is_continuation c && (2048 <=? cp))%N
      then Some cp
      else None
  | _ => None
  end.

(** [c.isspace()] by code point: the ASCII blanks [U+0009] to [U+000D]
    and [U+001C] to [U+0020], then [U+0085], [U+00A0], [U+1680],
    [U+2000] to [U+200A], [U+2028], [U+2029], [U+202F], [U+205F] and
    [U+3000]. *)
Definition isspace (cp : N) : bool :=
  ((9 <=? cp) && (cp <=? 13) || (28 <=? cp) && (cp <=? 32)
   || (cp =? 133) || (cp =? 160) || (cp =? 5760)
   || (8192 <=? cp) && (cp <=? 8202)
   || (cp =? 8232) || (cp =? 8233) || (cp =? 8239) || (cp =? 8287)
   || (cp =? 12288))%N.

(** The text is one whitespace character. *)
Definition is_space (s : string) : bool :=
  match code_point s with
  | Some cp => isspace cp
  | None => false
  end.

(** [s.lstrip()]: a whitespace character takes one, two or three
    bytes. *)
Fixpoint lstrip (s : string) : string :=
  match s with
  | EmptyString => ""
  | String a s1 =>
      if is_space (String a "") then lstrip s1
      else
        match s1 with
        | EmptyString => s
        | String b s2 =>
            if is_space (String a (String b "")) then lstrip s2
            else
              match s2 with
              | EmptyString => s
              | String c s3 =>
                  if is_space (String a (String b (String c "")))
                  then lstrip s3
                  else s
              end
        end
  end.

(** [s.rstrip()]: what is left of the tail, with [c] in front, is
    dropped when it is one whitespace character. *)
Fixpoint rstrip (s : string) : string :=
  match s with
  | EmptyString => ""
  | String c s' =>
      let t := String c (rstrip s') in
      if is_space t then "" else t
  end.

(** [s.strip()] *)
Definition strip (s : string) : string := rstrip (lstrip s).

(** The bytes a whitespace character can begin with. *)
Definition starts_space (c : ascii) : bool :=
  let n := N_of_ascii c in
  ((9 <=? n) && (n <=? 13) || (28 <=? n) && (n <=? 32)
   || (n =? 194) || (n =? 225) || (n =? 226) || (n =? 227))%N.

Definition upper_char (c : ascii) : ascii :=
  let n := N_of_ascii c in
  if ((97 <=? n) && (n <=? 122))%N then ascii_of_N (n - 32) else c.

(** [s.upper()] on ASCII text: the letters [a] to [z]. The letters
    beyond ASCII that Python also maps are left as they are. *)
Fixpoint upper (s : string) : string :=
  match s with
  | EmptyString => ""
  | String c s' => String (upper_char c) (upper s')
  end.

(** [s.isascii()] *)
Fixpoint isascii (s : string) : bool :=
  match s with
  | EmptyString => true
  | String c s' => (N_of_ascii c <? 128)%N && isascii s'
  end.

(** [s.split(sep)[-1]] for a one-character separator: the text after the
    last occurrence of [sep]. *)
Fixpoint last_segment (sep : ascii) (s : string) : string :=
  match s with
  | EmptyString => ""
  | String c s' =>
      if contains_char sep s' then last_segment sep s'
      else if Ascii.eqb c sep then s' else s
  end.

(** [s.replace(c, by)] for a one-character pattern. *)
Fixpoint replace_char (c : ascii) (by_ : string) (s : string) : string :=
  match s with
  | EmptyString => ""
  | String c' s' =>
      (if Ascii.eqb c c' then by_ else String c' "")
      +:+ replace_char c by_ s'
  end.

End Py.

Import Py.

(** ** The canonicalizer: [MetadataExtractor] in [extractor.py] *)

Module Extractor.

(** [MetadataExtractor.__init__]: the worker count kept in
    [self.max_workers]; [None] stands for an argument left out. *)
Definition init_max_workers (max_workers : option Z) : Z :=
  let max_workers :=
    match max_workers with
    | None => 1
    | Some w => w
    end in
  Z.max 1 (Z.min max_workers 4).

Definition type_mapping : list (string * string) :=
  [ ("application/vnd.google-apps.folder", "Folder");
    ("application/vnd.google-apps.document", "Google Docs");
    ("application/vnd.google-apps.spreadsheet", "Google Sheets");
    ("application/vnd.google-apps.presentation", "Google Slides");
    ("application/pdf", "PDF");
    ("image/jpeg", "JPEG Image");
    ("image/png", "PNG Image");
    ("application/vnd.openxmlformats-officedocument.wordprocessingml.document",
     "Word");
    ("application/vnd.openxmlformats-officedocument.spreadsheetml.sheet",
     "Excel");
    ("text/plain", "Text") ].

Fixpoint assoc (k : string) (l : list (string * string)) : option string :=
  match l with
  | [] => None
  | (k', v) :: l' => if String.eqb k k' then Some v else assoc k l'
  end.

(** [_get_file_type]: the fallback [mime_type.split('/')[-1].upper()] is
    an argument of [type_mapping.get], so it is evaluated for every
    input, and only a [str] has [split]. *)
Definition _get_file_type (mime_type : value) : result value :=
  match mime_type with
  | VStr s =>
      let fallback := upper (last_segment "/" s) in
      Ok (VStr (default fallback (assoc s type_mapping)))
  | _ => Raise AttributeError
  end.

(** [get_file_path]: the body returns [file_name] at once; the ancestor
    walk below it is a string literal and never runs. *)
Definition get_file_path (file_id file_name : value) : value := file_name.

Section Formatting.

(** Library calls whose results only feed display fields:
    [datetime.fromisoformat(s).strftime('%Y-%m-%d %H:%M:%S UTC')],
    [int(s)] on a [str], and the unit-scaling loop of [format_size]
    with its float formatting. Each gives [None] where Python raises. *)
Variable fromisoformat_strftime : string -> option string.
Variable int_of_str : string -> option Z.
Variable scale_size : Z -> option string.

(** [format_datetime]: falsy input gives [None]; the bare [except]
    returns the input unchanged. *)
Definition format_datetime (dt_string : value) : value :=
  if negb (truthy dt_string) then VNone
  else
    match dt_string with
    | VStr s =>
        match fromisoformat_strftime (replace_char "Z" "+00:00" s) with
        | Some d => VStr d
        | None => dt_string
        end
    | _ => dt_string
    end.

(** [int(v)] *)
Definition py_int (v : value) : option Z :=
  match v with
  | VInt z => Some z
  | VBool b => Some (if b then 1 else 0)
  | VStr s => int_of_str s
  | _ => None
  end.

(** [format_size]: falsy input gives ["N/A"]; the bare [except] returns
    the input unchanged. *)
Definition format_size (size_bytes : value) : value :=
  if negb (truthy size_bytes) then VStr "N/A"
  else
    match py_int size_bytes with
    | Some size =>
        match scale_size size with
        | Some s => VStr s
        | None => size_bytes
        end
    | None => size_bytes
    end.

(** One round of the loop over [permissions]. *)
Definition permission_type (perm : value) : result string :=
  perm_type <- getattr_get perm "type" (VStr "unknown");;
  role <- getattr_get perm "role" (VStr "unknown");;
  Ok (str perm_type +:+ ":" +:+ str role).

(** [extract_file_metadata] *)
Definition extract_file_metadata (file : dict) : result dict :=
  let owners := get file "owners" (VList []) in
  owner_email <-
    (if truthy owners
     then o <- subscript0 owners;; getattr_get o "emailAddress" (VStr "N/A")
     else Ok (VStr "N/A"));;
  owner_name <-
    (if truthy owners
     then o <- subscript0 owners;; getattr_get o "displayName" (VStr "N/A")
     else Ok (VStr "N/A"));;
  let last_modifying_user := get file "lastModifyingUser" (VDict []) in
  last_modifier_email <-
    getattr_get last_modifying_user "emailAddress" (VStr "N/A");;
  last_modifier_name <-
    getattr_get last_modifying_user "displayName" (VStr "N/A");;
  let sharing_user := get file "sharingUser" (VDict []) in
  sharing_user_email <- getattr_get sharing_user "emailAddress" (VStr "N/A");;
  let file_path :=
    get_file_path (get file "id" VNone) (get file "name" (VStr "Unknown")) in
  let permissions := get file "permissions" (VList []) in
  perms <- iter permissions;;
  permission_types <- mapM permission_type perms;;
  file_type <- _get_file_type (get file "mimeType" (VStr ""));;
  permission_count <- len permissions;;
  parents <- join_value "; " (get file "parents" (VList []));;
  Ok [ ("id", get file "id" (VStr "N/A"));
       ("name", get file "name" (VStr "N/A"));
       ("mime_type", get file "mimeType" (VStr "N/A"));
       ("file_type", file_type);
       ("creation_date", format_datetime (get file "createdTime" VNone));
       ("modification_date", format_datetime (get file "modifiedTime" VNone));
       ("last_viewed_date", format_datetime (get file "viewedByMeTime" VNone));
       ("creation_date_raw", get file "createdTime" (VStr "N/A"));
       ("modification_date_raw", get file "modifiedTime" (VStr "N/A"));
       ("size_bytes", get file "size" (VStr "0"));
       ("size_formatted", format_size (get file "size" VNone));
       ("owner_email", owner_email);
       ("owner_name", owner_name);
       ("last_modifier_email", last_modifier_email);
       ("last_modifier_name", last_modifier_name);
       ("sharing_user_email", sharing_user_email);
       ("full_path", file_path);
       ("share_link", get file "webViewLink" (VStr "N/A"));
       ("shared", get file "shared" (VBool false));
       ("trashed", get file "trashed" (VBool false));
       ("starred", get file "starred" (VBool false));
       ("description", get file "description" (VStr ""));
       ("md5_checksum", get file "md5Checksum" (VStr "N/A"));
       ("version", get file "version" (VStr "N/A"));
       ("permissions",
         match permission_types with
         | [] => VStr "N/A"
         | _ => VStr (join "; " permission_types)
         end);
       ("permission_count", VInt permission_count);
       ("parents", VStr parents) ].

(** [_process_file]: any exception of the extraction becomes [None]. *)
Definition _process_file (file : dict) : option dict :=
  match extract_file_metadata file with
  | Ok metadata => Some metadata
  | Raise _ => None
  end.


End Formatting.

(** *** The remote listing and the traverser *)

(** One response of [service.files().list(...).execute()]: either the
    call raises [HttpError], or it carries the files of the page. The
    pages of a query come in order; a page has a [nextPageToken] exactly
    when another page follows it. *)
Inductive page : Type :=
| PageError (msg : string)
| Page (files : list dict).

(** The authenticated Drive service, seen through the only call the
    extractor makes: the query string [q] (or [None]) to its pages. *)
Record service : Type := { files_list : option string -> list page }.

(** A call of [progress_callback(status, progress, total, message)]. *)
Record event : Type := {
  ev_status : string;
  ev_progress : Z;
  ev_total : Z;
  ev_message : string
}.

(** The result of a computation that may raise, or run out of fuel in
    the model. *)
Inductive outcome (A : Type) : Type :=
| Done (a : A)
| Fail (e : exn)
| OutOfFuel.
Arguments Done {A} a.
Arguments Fail {A} e.
Arguments OutOfFuel {A}.

(** Hash keys of the values a Python [set] accepts: [None], strings and
    numbers ([True] and [1] are one key); lists and dicts are unhashable. *)
Abbreviation hkey := (option (string + Z)).

Definition hash_key (v : value) : option hkey :=
  match v with
  | VNone => Some None
  | VStr s => Some (Some (inl s))
  | VInt z => Some (Some (inr z))
  | VBool b => Some (Some (inr (if b then 1 else 0)))
  | VList _ | VDict _ => None
  end.

(** The state the recursion shares: the [visited_folders] set, which
    every call mutates in place, and the callbacks made so far. *)
Record tstate : Type := {
  visited : gset hkey;
  events : list event
}.

Definition emit (e : event) (st : tstate) : tstate :=
  {| visited := visited st; events := events st ++ [e] |}.

Definition mark_visited (k : hkey) (st : tstate) : tstate :=
  {| visited := {[k]} ∪ visited st; events := events st |}.

Definition folder_mime : string := "application/vnd.google-apps.folder".

(** [file.get('mimeType') == 'application/vnd.google-apps.folder'] *)
Definition is_folder (file : dict) : bool :=
  match get file "mimeType" VNone with
  | VStr s => String.eqb s folder_mime
  | _ => false
  end.

Definition folder_query (folder_id : value) (include_trashed : bool)
  : string :=
  join " and "
    (("'" +:+ str folder_id +:+ "' in parents")
       :: (if include_trashed then [] else ["trashed = false"])).

Definition pretty_len {A} (l : list A) : string :=
  pretty (Z.of_nat (length l)).

Section Traverser.

Variable svc : service.
Variable include_trashed : bool.

(** The recursive call, as the loops below see it. *)
Variable recurse : value -> tstate -> tstate * outcome (list dict).

(** [for folder in folders_to_scan: ...] *)
Fixpoint scan_folders (folders : list dict) (all_files : list dict)
  (st : tstate) : tstate * outcome (list dict) :=
  match folders with
  | [] => (st, Done all_files)
  | folder :: rest =>
      let subfolder_id := get folder "id" VNone in
      if truthy subfolder_id then
        match hash_key subfolder_id with
        | None => (st, Fail TypeError)
        | Some k =>
            if decide (k ∈ visited st) then scan_folders rest all_files st
            else
              match recurse subfolder_id st with
              | (st', Done subfolder_files) =>
                  scan_folders rest (all_files ++ subfolder_files) st'
              | (st', Fail e) => (st', Fail e)
              | (st', OutOfFuel) => (st', OutOfFuel)
              end
        end
      else scan_folders rest all_files st
  end.

(** The [while True] loop over the pages of one folder. *)
Fixpoint scan_pages (pages : list page) (all_files : list dict)
  (st : tstate) : tstate * outcome (list dict) :=
  match pages with
  | [] => (st, Done all_files)
  | PageError msg :: _ => (st, Fail (HttpError msg))
  | Page files :: rest =>
      match files with
      | [] => (st, Done all_files)
      | _ =>
          let folders_to_scan := filter (fun f => is_folder f = true) files in
          let all_files :=
            all_files ++ filter (fun f => is_folder f = false) files in
          let st :=
            emit {| ev_status := "collecting";
                    ev_progress := Z.of_nat (length all_files);
                    ev_total := 0;
                    ev_message :=
                      "Found " +:+ pretty_len all_files
                      +:+ " files, scanning " +:+ pretty_len folders_to_scan
                      +:+ " subfolders..." |} st in
          match scan_folders folders_to_scan all_files st with
          | (st', Done all_files') => scan_pages rest all_files' st'
          | other => other
          end
      end
  end.

End Traverser.

(** [_collect_files_recursively]; [fuel] bounds the recursion depth. *)
Fixpoint _collect_files_recursively (fuel : nat) (svc : service)
  (include_trashed : bool) (folder_id : value) (st : tstate)
  : tstate * outcome (list dict) :=
  match fuel with
  | O => (st, OutOfFuel)
  | S fuel' =>
      match hash_key folder_id with
      | None => (st, Fail TypeError)
      | Some k =>
          if decide (k ∈ visited st) then (st, Done [])
          else
            let st := mark_visited k st in
            let query := folder_query folder_id include_trashed in
            match scan_pages
                    (_collect_files_recursively fuel' svc include_trashed)
                    (files_list svc (Some query)) [] st with
            | (st', Fail (HttpError msg)) =>
                (emit {| ev_status := "error"; ev_progress := 0;
                         ev_total := 0;
                         ev_message :=
                           "API error scanning folder " +:+ str folder_id
                           +:+ ": " +:+ msg |} st',
                 Fail (HttpError msg))
            | other => other
            end
      end
  end.

(** The flat listing of the whole Drive in [extract_folder]. *)
Fixpoint list_all (pages : list page) (all_files : list dict)
  (evs : list event) : list event * result (list dict) :=
  match pages with
  | [] => (evs, Ok all_files)
  | PageError msg :: _ =>
      (evs ++ [{| ev_status := "error"; ev_progress := 0; ev_total := 0;
                  ev_message := "API error: " +:+ msg |}],
       Raise (HttpError msg))
  | Page files :: rest =>
      match files with
      | [] => (evs, Ok all_files)
      | _ =>
          let all_files := all_files ++ files in
          list_all rest all_files
            (evs ++ [{| ev_status := "collecting";
                        ev_progress := Z.of_nat (length all_files);
                        ev_total := 0;
                        ev_message :=
                          "Found " +:+ pretty_len all_files
                          +:+ " files so far..." |}])
      end
  end.

(** *** The extraction scheduler *)

Section Scheduler.

(** The library calls behind [_process_file], as in the canonicalizer. *)
Variable fromisoformat_strftime : string -> option string.
Variable int_of_str : string -> option Z.
Variable scale_size : Z -> option string.

Local Abbreviation process_file :=
  (_process_file fromisoformat_strftime int_of_str scale_size).

(** What the loops of [extract_folder] accumulate. *)
Record processed : Type := {
  all_metadata : list dict;
  errors : list value;
  processed_count : Z;
  callbacks : list event
}.

Definition processing_event (count : Z) (total : nat) : event :=
  {| ev_status := "processing"; ev_progress := count;
     ev_total := Z.of_nat total;
     ev_message :=
       "Processed " +:+ pretty count +:+ "/" +:+ pretty (Z.of_nat total)
       +:+ " files..." |}.

(** The handling of one finished item: a truthy result is appended to
    [all_metadata], anything else records [file.get('id', 'unknown')]. *)
Definition record_result (total : nat) (acc : processed)
  (file : dict) (metadata : option dict) : processed :=
  let appended :=
    match metadata with
    | Some m => if truthy (VDict m) then Some m else None
    | None => None
    end in
  let count := processed_count acc + 1 in
  {| all_metadata :=
       match appended with
       | Some m => all_metadata acc ++ [m]
       | None => all_metadata acc
       end;
     errors :=
       match appended with
       | Some _ => errors acc
       | None => errors acc ++ [get file "id" (VStr "unknown")]
       end;
     processed_count := count;
     callbacks := callbacks acc ++ [processing_event count total] |}.

(** The sequential loop ([max_workers == 1]). *)
Definition process_sequential (all_files : list dict) (acc : processed)
  : processed :=
  foldl (fun acc file =>
           record_result (length all_files) acc file (process_file file))
    acc all_files.

(** [all_files[batch_start:batch_start + batch_size]] for each
    [batch_start in range(0, len(all_files), batch_size)]. *)
Fixpoint batches (fuel : nat) (batch_size : nat) (l : list dict)
  : list (list dict) :=
  match fuel with
  | O => []
  | S fuel' =>
      match l with
      | [] => []
      | _ => take batch_size l :: batches fuel' batch_size (drop batch_size l)
      end
  end.

(** The records of the items that extract, and the ids
    [file.get('id', 'unknown')] of those that do not, in input order. *)
Definition successes (all_files : list dict) : list dict :=
  omap process_file all_files.

Definition failures (all_files : list dict) : list value :=
  (fun file => get file "id" (VStr "unknown")) <$>
    filter (fun file => process_file file = None) all_files.

Section Parallel.

(** The order in which [as_completed] hands back the futures of a
    batch: a rearrangement of the submitted (file, result) pairs that
    may differ from batch to batch. *)
Variable as_completed :
  nat -> list (dict * option dict) -> list (dict * option dict).

(** One batch: submit every file, then consume the futures as they
    complete. *)
Definition process_batch (total : nat) (acc : processed)
  (numbered : nat * list dict) : processed :=
  let future_to_file :=
    (fun file => (file, process_file file)) <$> snd numbered in
  foldl (fun acc fr => record_result total acc (fst fr) (snd fr))
    acc (as_completed (fst numbered) future_to_file).

(** The thread-pool branch ([max_workers > 1]). *)
Definition process_parallel (all_files : list dict) (acc : processed)
  : processed :=
  let batch_size := Nat.min 10 (length all_files) in
  foldl (process_batch (length all_files)) acc
    (imap (fun i b => (i * batch_size, b)%nat)
       (batches (length all_files) batch_size all_files)).

(** The part of [extract_folder] after the file list is collected. *)
Definition process_files (max_workers : Z) (all_files : list dict)
  (evs : list event) : processed :=
  let start :=
    {| all_metadata := []; errors := []; processed_count := 0;
       callbacks :=
         evs ++ [{| ev_status := "processing"; ev_progress := 0;
                    ev_total := Z.of_nat (length all_files);
                    ev_message :=
                      "Processing " +:+ pretty_len all_files
                      +:+ " files with " +:+ pretty max_workers
                      +:+ " workers..." |}] |} in
  let p :=
    if max_workers =? 1 then process_sequential all_files start
    else process_parallel all_files start in
  {| all_metadata := all_metadata p; errors := errors p;
     processed_count := processed_count p;
     callbacks :=
       callbacks p
       ++ [{| ev_status := "completed";
              ev_progress := Z.of_nat (length (all_metadata p));
              ev_total := Z.of_nat (length all_files);
              ev_message :=
                "Successfully extracted " +:+ pretty_len (all_metadata p)
                +:+ " files!" |}] |}.

(** The text an exception was raised with: the errors of the Drive
    client and the [Exception]s of the program carry one. The wording
    of Python's built-in errors belongs to the interpreter. *)
Definition exn_text (e : exn) : option string :=
  match e with
  | HttpError msg | Exception msg => Some msg
  | _ => None
  end.

(** [str(e)] for an exception that carries its text; the empty text
    stands in for the interpreter's wording of a built-in error. *)
Definition exn_str (e : exn) : string := default "" (exn_text e).

(** The callback [extract_folder] opens with. *)
Definition first_event : event :=
  {| ev_status := "collecting"; ev_progress := 0; ev_total := 0;
     ev_message := "Collecting file list from Google Drive..." |}.

(** The callback it makes when the file list is empty. *)
Definition no_files_event : event :=
  {| ev_status := "error"; ev_progress := 0; ev_total := 0;
     ev_message := "No files found to extract" |}.

(** The file list of [extract_folder]: the recursive walk when a folder
    is given, the flat listing otherwise. *)
Definition collect_all (fuel : nat) (svc : service)
  (folder_id : option string) (include_trashed : bool) (evs : list event)
  : list event * outcome (list dict) :=
  if truthy (from_option VStr VNone folder_id) then
    let '(st, r) :=
      _collect_files_recursively fuel svc include_trashed
        (from_option VStr VNone folder_id)
        {| visited := ∅; events := evs |} in
    (events st, r)
  else
    let query :=
      match (if include_trashed then [] else ["trashed = false"]) with
      | [] => None
      | parts => Some (join " and " parts)
      end in
    match list_all (files_list svc query) [] evs with
    | (evs', Ok files) => (evs', Done files)
    | (evs', Raise e) => (evs', Fail e)
    end.

(** [extract_folder]: the callbacks it makes, and what it returns or
    raises. The list [errors] stays local to the call. *)
Definition extract_folder (fuel : nat) (svc : service) (max_workers : Z)
  (folder_id : option string) (include_trashed : bool)
  : list event * outcome (list dict) :=
  match collect_all fuel svc folder_id include_trashed [first_event] with
  | (evs, Done all_files) =>
      match all_files with
      | [] => (evs ++ [no_files_event], Done [])
      | _ =>
          let p := process_files max_workers all_files evs in
          (callbacks p, Done (all_metadata p))
      end
  | (evs, Fail e) =>
      (evs ++ [{| ev_status := "error"; ev_progress := 0; ev_total := 0;
                  ev_message := "Error: " +:+ exn_str e |}],
       Fail e)
  | (evs, OutOfFuel) => (evs, OutOfFuel)
  end.

End Parallel.

End Scheduler.

(** *** Vocabulary for the statements about the traverser *)

(** The files [scan_pages] sees in the pages of one listing: those of
    the pages in front of the first empty page (or of the first failing
    one, where the scan raises). *)
Fixpoint listed (pages : list page) : list dict :=
  match pages with
  | Page (f :: files) :: rest => (f :: files) ++ listed rest
  | _ => []
  end.

(** No page fails in front of the first empty page. *)
Fixpoint pages_ok (pages : list page) : Prop :=
  match pages with
  | PageError _ :: _ => False
  | Page (_ :: _) :: rest => pages_ok rest
  | _ => True
  end.

(** The ids [scan_folders] acts on: the truthy ids of folder items. *)
Definition truthy_ids (folders : list dict) : list value :=
  filter (fun v => truthy v = true)
    ((fun folder => get folder "id" VNone) <$> folders).

Definition subfolder_ids (files : list dict) : list value :=
  truthy_ids (filter (fun f => is_folder f = true) files).

Definition leaf_items (files : list dict) : list dict :=
  filter (fun f => is_folder f = false) files.

Section Graph.

Variable svc : service.
Variable include_trashed : bool.

(** The containment graph the remote store presents. *)
Definition folder_pages (folder_id : value) : list page :=
  files_list svc (Some (folder_query folder_id include_trashed)).

Definition subfolders (folder_id : value) : list value :=
  subfolder_ids (listed (folder_pages folder_id)).

Definition leaves (folder_id : value) : list dict :=
  leaf_items (listed (folder_pages folder_id)).

(** The containers one gets to from [root] by following subfolders. *)
Inductive reachable (root : value) : value -> Prop :=
| reachable_root : reachable root root
| reachable_child (v c : value) :
    reachable root v -> c ∈ subfolders v -> reachable root c.

(** All containers below [v] have their hash keys in the finite set
    [U]: the graph below [v] is finite. *)
Definition within (U : gset hkey) (v : value) : Prop :=
  forall u k, reachable v u -> hash_key u = Some k -> k ∈ U.

(** Different containers below [root] have different hash keys (as
    they do when ids are strings). *)
Definition distinct_keys (root : value) : Prop :=
  forall u v, reachable root u -> reachable root v ->
    hash_key u = hash_key v -> u = v.

(** Nothing makes the walk below [root] raise: every container has a
    hashable id and a listing without a failing page. *)
Definition no_fault (root : value) : Prop :=
  forall u, reachable root u ->
    is_Some (hash_key u) /\ pages_ok (folder_pages u).

(** What a walk that started with the visited set [V] and the files
    [acc] has done when it ends as [r]: it has not run out of fuel, and
    if it returns, it has listed a duplicate-free sequence [order] of
    new containers, each below one of [roots], added the leaves of
    each, and left every subfolder of a listed container and every one
    of [roots] in the visited set. *)
Definition explored (acc : list dict) (V : gset hkey) (roots : list value)
  (r : tstate * outcome (list dict)) : Prop :=
  match r.2 with
  | Done out =>
      exists order : list (value * hkey),
        Forall (fun p => hash_key p.1 = Some p.2) order /\
        NoDup order.*2 /\
        (forall k, k ∈ order.*2 -> k ∉ V) /\
        visited r.1 = V ∪ list_to_set order.*2 /\
        out ≡ₚ acc ++ concat (leaves <$> order.*1) /\
        (forall u, u ∈ order.*1 -> exists r0, r0 ∈ roots /\ reachable r0 u) /\
        (forall u c, u ∈ order.*1 -> c ∈ subfolders u ->
           exists k, hash_key c = Some k /\ k ∈ visited r.1) /\
        (forall c, c ∈ roots ->
           exists k, hash_key c = Some k /\ k ∈ visited r.1)
  | Fail _ => True
  | OutOfFuel => False
  end.

End Graph.

(** Two runs end the same way, and when they return, they return the
    same records up to order. *)
Definition same_outcome (o1 o2 : outcome (list dict)) : Prop :=
  match o1, o2 with
  | Done m1, Done m2 => m1 ≡ₚ m2
  | Fail e1, Fail e2 => e1 = e2
  | OutOfFuel, OutOfFuel => True
  | _, _ => False
  end.

(** *** Vocabulary for the statements about the canonicalizer *)

Definition is_str (v : value) : bool :=
  match v with
  | VStr _ => true
  | _ => false
  end.

Definition is_dict (v : value) : bool :=
  match v with
  | VDict _ => true
  | _ => false
  end.

Definition is_list_of (p : value -> bool) (v : value) : bool :=
  match v with
  | VList l => forallb p l
  | _ => false
  end.

(** A field that is absent, or present with a value [p] accepts. *)
Definition field_ok (file : dict) (k : string) (p : value -> bool) : bool :=
  match lookup k file with
  | None => true
  | Some v => p v
  end.

(** The shape the Drive API documents for the structured fields of a
    file resource; every other field may hold any value, and every
    field may be missing. *)
Definition schema_ok (file : dict) : bool :=
  field_ok file "owners" (is_list_of is_dict)
  && field_ok file "lastModifyingUser" is_dict
  && field_ok file "sharingUser" is_dict
  && field_ok file "permissions" (is_list_of is_dict)
  && field_ok file "mimeType" is_str
  && field_ok file "parents" (is_list_of is_str).

(** For each field of the record: the field of the raw item it comes
    from, and the value it takes when that one is missing. *)
Definition sentinels : list (string * string * value) :=
  [ ("id", "id", VStr "N/A");
    ("name", "name", VStr "N/A");
    ("mimeType", "mime_type", VStr "N/A");
    ("mimeType", "file_type", VStr "");
    ("createdTime", "creation_date", VNone);
    ("modifiedTime", "modification_date", VNone);
    ("viewedByMeTime", "last_viewed_date", VNone);
    ("createdTime", "creation_date_raw", VStr "N/A");
    ("modifiedTime", "modification_date_raw", VStr "N/A");
    ("size", "size_bytes", VStr "0");
    ("size", "size_formatted", VStr "N/A");
    ("owners", "owner_email", VStr "N/A");
    ("owners", "owner_name", VStr "N/A");
    ("lastModifyingUser", "last_modifier_email", VStr "N/A");
    ("lastModifyingUser", "last_modifier_name", VStr "N/A");
    ("sharingUser", "sharing_user_email", VStr "N/A");
    ("name", "full_path", VStr "Unknown");
    ("webViewLink", "share_link", VStr "N/A");
    ("shared", "shared", VBool false);
    ("trashed", "trashed", VBool false);
    ("starred", "starred", VBool false);
    ("description", "description", VStr "");
    ("md5Checksum", "md5_checksum", VStr "N/A");
    ("version", "version", VStr "N/A");
    ("permissions", "permissions", VStr "N/A");
    ("permissions", "permission_count", VInt 0);
    ("parents", "parents", VStr "") ].

End Extractor.

(** ** The forensic fingerprint: [create_forensic_hash_data] in
    [exporters.py] *)

Module Exporters.

Section Sorting.

Context {A : Type} (le : A -> A -> bool).

(** Insertion behind no element: [x] goes in front of the first element
    it does not exceed. *)
Fixpoint insert_sorted (x : A) (l : list A) : list A :=
  match l with
  | [] => [x]
  | y :: l' => if le x y then x :: l else y :: insert_sorted x l'
  end.

(** A stable sort; Python's [sorted] is stable, and a stable sort has
    only one possible result. *)
Definition stable_sort (l : list A) : list A := foldr insert_sorted [] l.

End Sorting.

(** The keys [sorted] can order among themselves: numbers with numbers,
    strings with strings. Python also orders lists element by element;
    Drive ids are never lists and the model leaves them unorderable. *)
Inductive sort_key : Type :=
| KNum (z : Z)
| KStr (s : string).

Definition sort_key_of (v : value) : option sort_key :=
  match v with
  | VInt z => Some (KNum z)
  | VBool b => Some (KNum (if b then 1 else 0))
  | VStr s => Some (KStr s)
  | _ => None
  end.

Definition is_num_key (v : value) : bool :=
  match v with
  | VInt _ | VBool _ => true
  | _ => false
  end.

Definition is_str_key (v : value) : bool :=
  match v with
  | VStr _ => true
  | _ => false
  end.

(** [a <= b] on keys. [sorted_by_id] only compares keys of one kind;
    across kinds the order below is a convention of the model (numbers
    first) that no caller observes. *)
Definition sort_key_leb (a b : option sort_key) : bool :=
  match a, b with
  | None, _ => true
  | Some _, None => false
  | Some (KNum x), Some (KNum y) => x <=? y
  | Some (KNum _), Some (KStr _) => true
  | Some (KStr _), Some (KNum _) => false
  | Some (KStr x), Some (KStr y) => String.leb x y
  end.

Definition key_leb (a b : value) : bool :=
  sort_key_leb (sort_key_of a) (sort_key_of b).

(** [x.get('id', '')], the sort key of a record. *)
Definition id_key (x : dict) : value := get x "id" (VStr "").

(** [sorted(metadata, key=lambda x: x.get('id', ''))]: with fewer than
    two records nothing is compared; otherwise comparing keys of
    different kinds raises [TypeError]. *)
Definition sorted_by_id (metadata : list dict) : result (list dict) :=
  match metadata with
  | [] | [_] => Ok metadata
  | _ =>
      if forallb (fun x => is_str_key (id_key x)) metadata
         || forallb (fun x => is_num_key (id_key x)) metadata
      then Ok (stable_sort (fun x y => key_leb (id_key x) (id_key y)) metadata)
      else Raise TypeError
  end.

Definition forensic_fields : list string :=
  [ "id"; "name"; "mime_type"; "file_type"; "creation_date_raw";
    "modification_date_raw"; "size_bytes"; "md5_checksum"; "description";
    "trashed" ].

(** The chain of [if]/[elif] that rewrites one field value. A dict
    matches no branch and is kept as it is. The branch for a [float]
    has no counterpart, the values holding no float. *)
Definition forensic_value (v : value) : value :=
  match v with
  | VNone => VStr ""
  | VBool b => VStr (if b then "true" else "false")
  | VInt z => VStr (str (VInt z))
  | VList l =>
      match l with
      | [] => VStr ""
      | _ =>
          VStr (join ";"
                  (stable_sort String.leb
                     ((fun x => strip (str x)) <$>
                        filter (fun x => truthy x = true) l)))
      end
  | VStr s => VStr (strip s)
  | VDict d => VDict d
  end.

(** The body of the loop over [sorted_metadata]: fill [forensic_file]
    field by field, then rebuild it with its keys sorted. *)
Definition forensic_file (file_data : dict) : dict :=
  let forensic_file :=
    foldl (fun acc field =>
             set field (forensic_value (get file_data field (VStr ""))) acc)
      [] (stable_sort String.leb forensic_fields) in
  (fun k => (k, get forensic_file k VNone)) <$>
    stable_sort String.leb (fst <$> forensic_file).

(** [create_forensic_hash_data]: the structure whose compact, key-sorted
    JSON text is hashed with SHA-256. *)
Definition create_forensic_hash_data (metadata : list dict) : result value :=
  sorted_metadata <- sorted_by_id metadata;;
  Ok (VDict [("files", VList (VDict <$> (forensic_file <$> sorted_metadata)))]).

(** *** Vocabulary for the statements about the fingerprint *)

(** The key under which [sorted] sees a record. *)
Definition record_key (r : dict) : option sort_key := sort_key_of (id_key r).



(** Whether [sorted] can order a list with these keys: fewer than two
    of them, or all strings, or all numbers. *)
Definition orderable_keys (ks : list (option sort_key)) : bool :=
  (length ks <=? 1)%nat
  || forallb (fun k => match k with Some (KStr _) => true | _ => false end) ks
  || forallb (fun k => match k with Some (KNum _) => true | _ => false end) ks.

End Exporters.

(** ** Sample data for the examples *)

Module Samples.

Import Extractor Exporters.

(** The canonicalizer with library calls that never parse anything:
    dates and sizes are then displayed as they came. The forensic
    fields do not depend on them. *)
Definition plain_extract (file : dict) : result dict :=
  extract_file_metadata (fun _ => None) (fun _ => None) (fun _ => None) file.

Definition record_of (file : dict) : dict :=
  match plain_extract file with
  | Ok m => m
  | Raise _ => []
  end.


(** The no-break space [U+00A0], in UTF-8. *)
Definition no_break_space : string := String "194" (String "160" "").

(** A file, and the same file after a space is appended to its name. *)
Definition report : dict :=
  record_of [ ("id", VStr "1AbC"); ("name", VStr "report");
              ("mimeType", VStr "application/pdf"); ("size", VStr "2048") ].

Definition notes : dict :=
  record_of [ ("id", VStr "2XyZ"); ("name", VStr "notes.txt");
              ("mimeType", VStr "text/plain") ].

Definition sample_item : dict :=
  [ ("id", VStr "1AbC"); ("name", VStr "report.pdf");
    ("mimeType", VStr "application/pdf");
    ("owners", VList [VDict [("emailAddress", VStr "o@example.org")]]);
    ("parents", VList [VStr "0Root"]) ].

(** An item the canonicalizer rejects: [lastModifyingUser] is [null],
    and [None] has no [get]. *)
Definition broken_item (id : string) : dict :=
  [ ("id", VStr id); ("name", VStr "broken");
    ("lastModifyingUser", VNone) ].

(** A Drive whose flat listing is one page with [sample_item] and one
    broken item. *)
Definition drive_with_broken (id : string) : service :=
  {| files_list := fun _ => [Page [sample_item; broken_item id]] |}.

(** An empty Drive. *)
Definition empty_drive : service := {| files_list := fun _ => [] |}.

(** Futures complete in the reverse of the submission order. *)
Definition reversed_completion (batch_start : nat)
  (futures : list (dict * option dict)) : list (dict * option dict) :=
  reverse futures.

Definition plain_extract_folder (svc : service) (max_workers : Z)
  (folder_id : option string) : list event * outcome (list dict) :=
  extract_folder (fun _ => None) (fun _ => None) (fun _ => None)
    reversed_completion 16 svc max_workers folder_id false.

Definition plain_process_files (max_workers : Z) (all_files : list dict)
  : processed :=
  process_files (fun _ => None) (fun _ => None) (fun _ => None)
    reversed_completion max_workers all_files [].

(** Two folders that list each other, with a leaf each and one leaf
    that both list; folder ["A"] has a second page. *)
Definition folder_item (id : string) : dict :=
  [("id", VStr id); ("mimeType", VStr folder_mime)].

Definition leaf_item (id : string) : dict :=
  [("id", VStr id); ("mimeType", VStr "text/plain")].

Definition cyclic_drive : service :=
  {| files_list := fun q =>
       match q with
       | Some "'A' in parents and trashed = false" =>
           [ Page [leaf_item "shared"; folder_item "B"];
             Page [leaf_item "in-A"] ]
       | Some "'B' in parents and trashed = false" =>
           [ Page [leaf_item "in-B"; folder_item "A"; leaf_item "shared"] ]
       | _ => []
       end |}.

(** The walk of [cyclic_drive] from folder ["A"]. *)
Definition cyclic_walk : tstate * outcome (list dict) :=
  _collect_files_recursively 3 cyclic_drive false (VStr "A")
    {| visited := ∅; events := [] |}.

End Samples.

(** ** The job controller: [run_extraction] and the routes of
    [web_app.py] *)

Module WebApp.

Import Extractor Exporters.

(** The values [extraction_state['status']] takes. *)
Inductive job_status : Type :=
| Idle | Running | Paused | Stopped | Completed | Error.

(** The global dict [extraction_state]. Times are ticks of a logical
    clock standing for [time.time()]. *)
Record extraction_state : Type := {
  status : job_status;
  progress : Z;
  total : Z;
  current_phase : string;
  message : string;
  metadata : option (list dict);
  output_path : option string;
  error : option string;
  start_time : option nat;
  elapsed_time : nat
}.

(** The literal both [start_extraction] and the module top level assign. *)
Definition fresh_state (msg : string) : extraction_state :=
  {| status := Idle; progress := 0; total := 0; current_phase := "";
     message := msg; metadata := None; output_path := None; error := None;
     start_time := None; elapsed_time := 0 |}.

Inductive export_format : Type := csv | json | pdf.

(** The arguments [start_extraction] hands to [run_extraction]. *)
Record job_args : Type := {
  folder_id : option string;
  output_name : string;
  workers : option Z;
  include_trashed : bool;
  export_formats : list export_format
}.

(** Where the progress callback stands: about to run, or inside its
    [while pause_event.is_set() and not stop_event.is_set()] loop. *)
Inductive callback_phase : Type := CbEnter | CbWait.

(** The control points of one activation of [run_extraction]; what lies
    between two of them runs without another thread in between (one
    critical section, one flag test, or one outside call). *)
Inductive pc : Type :=
| PcClearEvents
| PcInit
| PcCheck1
| PcProgressAuth
| PcCheck2
| PcAuthenticate
| PcProgressInit (svc : service)
| PcCheck3 (svc : service)
| PcExtract (svc : service)
| PcCallback (phase : callback_phase) (pending : list event)
    (res : outcome (list dict))
| PcCheck4 (md : list dict)
| PcEmpty (md : list dict)
| PcCheck5 (md : list dict)
| PcExporting (md : list dict)
| PcExportCheck (fmt : export_format) (md : list dict)
| PcExport (fmt : export_format) (md : list dict)
| PcFinalCheck (md : list dict)
| PcComplete (md : list dict)
| PcExcept (e : exn)
| PcNoFuel
| PcEnd.

Record thread : Type := { args : job_args; at_pc : pc }.

(** Everything the routes and the job threads share, plus the files
    written under [output/]. *)
Record world : Type := {
  state : extraction_state;
  stop_event : bool;
  pause_event : bool;
  threads : list thread;
  exports : list (string * export_format);
  clock : nat
}.

Definition initial_world : world :=
  {| state := fresh_state ""; stop_event := false; pause_event := false;
     threads := []; exports := []; clock := 0 |}.

(** What lies outside the program: the library calls of the
    canonicalizer, the completion order of the pool, authentication,
    the exception an exporter may meet while writing its file (none
    when it succeeds), the link parser of [helpers.py], and the
    recursion bound of the model. *)
Record environment : Type := {
  fromisoformat_strftime : string -> option string;
  int_of_str : string -> option Z;
  scale_size : Z -> option string;
  as_completed :
    nat -> list (dict * option dict) -> list (dict * option dict);
  authenticate : result service;
  test_connection : service -> bool;
  exporter_raises : export_format -> option exn;
  extract_folder_id_from_url : string -> option string;
  fuel : nat
}.

(** The body of [start_extraction]'s request. *)
Record start_request : Type := {
  req_folder_id : option string;
  req_output_name : string;
  req_workers : option Z;
  req_include_trashed : bool
}.

Inductive action : Type :=
| ReqStart (data : start_request)
| ReqProgress
| ReqPause
| ReqResume
| ReqStop
| Run (tid : nat).

Definition with_state (w : world) (s : extraction_state) : world :=
  {| state := s; stop_event := stop_event w; pause_event := pause_event w;
     threads := threads w; exports := exports w; clock := clock w |}.

Definition set_status (s : extraction_state) (st : job_status)
  (msg : string) : extraction_state :=
  {| status := st; progress := progress s; total := total s;
     current_phase := current_phase s; message := msg;
     metadata := metadata s; output_path := output_path s;
     error := error s; start_time := start_time s;
     elapsed_time := elapsed_time s |}.

Definition since (now : nat) (s : extraction_state) : nat :=
  match start_time s with
  | Some t => (now - t)%nat
  | None => elapsed_time s
  end.

(** [update_progress] *)
Definition update_progress (now : nat) (ev : event) (s : extraction_state)
  : extraction_state :=
  {| status := status s; progress := ev_progress ev; total := ev_total ev;
     current_phase := ev_status ev; message := ev_message ev;
     metadata := metadata s; output_path := output_path s;
     error := error s; start_time := start_time s;
     elapsed_time := since now s |}.

(** The first critical section of [run_extraction]. *)
Definition begin_state (now : nat) (s : extraction_state)
  : extraction_state :=
  {| status := Running; progress := 0; total := 0;
     current_phase := "authenticating";
     message := "Connecting to Google Drive..."; metadata := None;
     output_path := None; error := None; start_time := Some now;
     elapsed_time := elapsed_time s |}.

(** The critical section before the exports. *)
Definition exporting_state (md : list dict) (s : extraction_state)
  : extraction_state :=
  {| status := status s; progress := Z.of_nat (length md);
     total := Z.of_nat (length md);
     current_phase := "Exporting results...";
     message := "Exporting " +:+ pretty_len md +:+ " files...";
     metadata := metadata s; output_path := output_path s;
     error := error s; start_time := start_time s;
     elapsed_time := elapsed_time s |}.

(** [s.split(sep)] for a one-character separator. *)
Fixpoint split_char (sep : ascii) (s : string) : list string :=
  match s with
  | EmptyString => [""]
  | String c s' =>
      if Ascii.eqb c sep then "" :: split_char sep s'
      else
        match split_char sep s' with
        | p :: ps => String c p :: ps
        | [] => [String c ""]
        end
  end.

(** [Path(s).name] on a POSIX system: the last component of [s] that is
    neither empty nor [.], and the empty text when there is none. *)
Definition path_name (s : string) : string :=
  default "" (last (filter (fun p => p <> "" /\ p <> ".") (split_char "/" s))).

(** [output_path.name] for
    [output_path = Path('output') / Path(output_name).name]: joining an
    empty name leaves the directory, whose name is [output]. *)
Definition stored_name (output_name : string) : string :=
  match path_name output_name with
  | EmptyString => "output"
  | name => name
  end.

(** The last critical section. *)
Definition completed_state (now : nat) (output_name : string)
  (md : list dict) (s : extraction_state) : extraction_state :=
  {| status := Completed; progress := progress s; total := total s;
     current_phase := current_phase s;
     message := "Successfully extracted " +:+ pretty_len md +:+ " files!";
     metadata := Some md;
     output_path := Some ("output/" +:+ stored_name output_name);
     error := error s; start_time := start_time s;
     elapsed_time := since now s |}.

(** The critical section of the [except] handler. *)
Definition error_state (e : exn) (s : extraction_state) : extraction_state :=
  {| status := Error; progress := progress s; total := total s;
     current_phase := current_phase s;
     message := "Error: " +:+ exn_str e;
     metadata := metadata s; output_path := output_path s;
     error := Some (exn_str e); start_time := start_time s;
     elapsed_time := elapsed_time s |}.

Definition next_export (fmt : export_format) (md : list dict) : pc :=
  match fmt with
  | csv => PcExportCheck json md
  | json => PcExportCheck pdf md
  | pdf => PcFinalCheck md
  end.

Definition has_format (fmt : export_format) (l : list export_format) : bool :=
  existsb (fun f =>
             match f, fmt with
             | csv, csv | json, json | pdf, pdf => true
             | _, _ => false
             end) l.

Section Controller.

Variable env : environment.

(** What one step of a job thread leaves behind: the shared part of the
    world and the thread's next control point. *)
Definition stopped_here (w : world) : world * pc :=
  (with_state w (set_status (state w) Stopped "Extraction stopped by user"),
   PcEnd).

(** [if stop_event.is_set(): ...; return], else go on at [next]. *)
Definition check_stop (w : world) (next : pc) : world * pc :=
  if stop_event w then stopped_here w else (w, next).

Definition after_callbacks (res : outcome (list dict)) : pc :=
  match res with
  | Done md => PcCheck4 md
  | Fail e => PcExcept e
  | OutOfFuel => PcNoFuel
  end.

Definition next_callback (pending : list event) (res : outcome (list dict))
  : pc :=
  match pending with
  | [] => after_callbacks res
  | _ => PcCallback CbEnter pending res
  end.

(** One step of an activation of [run_extraction] standing at [p]. *)
Definition thread_step (a : job_args) (p : pc) (w : world) : world * pc :=
  match p with
  | PcClearEvents =>
      ({| state := state w; stop_event := false; pause_event := false;
          threads := threads w; exports := exports w; clock := clock w |},
       PcInit)
  | PcInit => (with_state w (begin_state (clock w) (state w)), PcCheck1)
  | PcCheck1 => check_stop w PcProgressAuth
  | PcProgressAuth =>
      (with_state w
         (update_progress (clock w)
            {| ev_status := "authenticating"; ev_progress := 0;
               ev_total := 0;
               ev_message := "Authenticating with Google Drive..." |}
            (state w)),
       PcCheck2)
  | PcCheck2 => check_stop w PcAuthenticate
  | PcAuthenticate =>
      match authenticate env with
      | Ok svc =>
          if test_connection env svc then (w, PcProgressInit svc)
          else
            (w, PcExcept
                  (Exception
                     "Could not establish connection with Google Drive"))
      | Raise e => (w, PcExcept e)
      end
  | PcProgressInit svc =>
      (with_state w
         (update_progress (clock w)
            {| ev_status := "initializing"; ev_progress := 0; ev_total := 0;
               ev_message := "Initializing extractor..." |}
            (state w)),
       PcCheck3 svc)
  | PcCheck3 svc => check_stop w (PcExtract svc)
  | PcExtract svc =>
      let '(evs, res) :=
        extract_folder (fromisoformat_strftime env) (int_of_str env)
          (scale_size env) (as_completed env) (fuel env) svc
          (init_max_workers (workers a)) (folder_id a) (include_trashed a) in
      (w, next_callback evs res)
  | PcCallback CbEnter pending res =>
      match pending with
      | [] => (w, after_callbacks res)
      | ev :: rest =>
          if stop_event w then (w, next_callback rest res)
          else if pause_event w then
            (with_state w
               (set_status (state w) Paused
                  "Extraction paused. Click Resume to continue."),
             PcCallback CbWait pending res)
          else
            (with_state w (update_progress (clock w) ev (state w)),
             next_callback rest res)
      end
  | PcCallback CbWait pending res =>
      match pending with
      | [] => (w, after_callbacks res)
      | ev :: rest =>
          if pause_event w && negb (stop_event w) then (w, p)
          else if stop_event w then (w, next_callback rest res)
          else
            let s :=
              match status (state w) with
              | Paused => set_status (state w) Running "Resuming extraction..."
              | _ => state w
              end in
            (with_state w (update_progress (clock w) ev s),
             next_callback rest res)
      end
  | PcCheck4 md => check_stop w (PcEmpty md)
  | PcEmpty md =>
      match md with
      | [] => (w, PcExcept (Exception "No files found to extract"))
      | _ => (w, PcCheck5 md)
      end
  | PcCheck5 md => check_stop w (PcExporting md)
  | PcExporting md =>
      (with_state w (exporting_state md (state w)), PcExportCheck csv md)
  | PcExportCheck fmt md => check_stop w (PcExport fmt md)
  | PcExport fmt md =>
      if has_format fmt (export_formats a) then
        match create_forensic_hash_data md with
        | Raise e => (w, PcExcept e)
        | Ok _ =>
            match exporter_raises env fmt with
            | Some e => (w, PcExcept e)
            | None =>
                ({| state := state w; stop_event := stop_event w;
                    pause_event := pause_event w; threads := threads w;
                    exports := exports w ++ [(output_name a, fmt)];
                    clock := clock w |},
                 next_export fmt md)
            end
        end
      else (w, next_export fmt md)
  | PcFinalCheck md => check_stop w (PcComplete md)
  | PcComplete md =>
      (with_state w (completed_state (clock w) (output_name a) md (state w)),
       PcEnd)
  | PcExcept e =>
      if stop_event w then (w, PcEnd)
      else (with_state w (error_state e (state w)), PcEnd)
  | PcNoFuel => (w, PcNoFuel)
  | PcEnd => (w, PcEnd)
  end.

(** [start_extraction] *)
Definition start_extraction (data : start_request) (w : world) : world :=
  match status (state w) with
  | Running => w
  | _ =>
      let resolved :=
        match req_folder_id data with
        | Some input =>
            if negb (String.eqb input "") && negb (String.eqb (strip input) "")
            then
              match extract_folder_id_from_url env (strip input) with
              | Some id =>
                  if String.eqb id "" then None else Some (Some id)
              | None => None
              end
            else Some None
        | None => Some None
        end in
      match resolved with
      | None => w
      | Some fid =>
          {| state := fresh_state "";
             stop_event := false; pause_event := false;
             threads :=
               threads w
               ++ [{| args :=
                        {| folder_id := fid;
                           output_name := req_output_name data;
                           workers := req_workers data;
                           include_trashed := req_include_trashed data;
                           export_formats := [csv; json; pdf] |};
                      at_pc := PcClearEvents |}];
             exports := exports w; clock := clock w |}
      end
  end.

(** [get_progress] *)
Definition get_progress (w : world) : world :=
  match start_time (state w) with
  | Some _ =>
      with_state w
        {| status := status (state w); progress := progress (state w);
           total := total (state w);
           current_phase := current_phase (state w);
           message := message (state w); metadata := metadata (state w);
           output_path := output_path (state w); error := error (state w);
           start_time := start_time (state w);
           elapsed_time := since (clock w) (state w) |}
  | None => w
  end.

(** [pause_extraction] *)
Definition pause_extraction (w : world) : world :=
  match status (state w) with
  | Running =>
      {| state :=
           set_status (state w) Paused
             "Extraction paused. Click Resume to continue.";
         stop_event := stop_event w; pause_event := true;
         threads := threads w; exports := exports w; clock := clock w |}
  | _ => w
  end.

(** [resume_extraction] *)
Definition resume_extraction (w : world) : world :=
  match status (state w) with
  | Paused =>
      {| state := set_status (state w) Running "Resuming extraction...";
         stop_event := stop_event w; pause_event := false;
         threads := threads w; exports := exports w; clock := clock w |}
  | _ => w
  end.

(** [stop_extraction] *)
Definition stop_extraction (w : world) : world :=
  match status (state w) with
  | Running | Paused =>
      {| state := fresh_state "Extraction stopped by user";
         stop_event := true; pause_event := false;
         threads := threads w; exports := exports w; clock := clock w |}
  | _ => w
  end.

(** Thread [tid] takes one step. *)
Definition run_thread (tid : nat) (w : world) : world :=
  match threads w !! tid with
  | Some t =>
      let '(w', p') := thread_step (args t) (at_pc t) w in
      {| state := state w'; stop_event := stop_event w';
         pause_event := pause_event w';
         threads := <[tid := {| args := args t; at_pc := p' |}]> (threads w');
         exports := exports w'; clock := clock w' |}
  | None => w
  end.

Definition tick (w : world) : world :=
  {| state := state w; stop_event := stop_event w;
     pause_event := pause_event w; threads := threads w;
     exports := exports w; clock := S (clock w) |}.

(** One transition of the system: a request is served, or a job thread
    advances. *)
Definition step (w : world) (a : action) : world :=
  tick
    match a with
    | ReqStart data => start_extraction data w
    | ReqProgress => get_progress w
    | ReqPause => pause_extraction w
    | ReqResume => resume_extraction w
    | ReqStop => stop_extraction w
    | Run tid => run_thread tid w
    end.

Definition run_trace (w : world) (tr : list action) : world :=
  foldl step w tr.

(** The states some interleaving of requests and thread steps reaches. *)
Definition reachable (w : world) : Prop :=
  exists tr, run_trace initial_world tr = w.

(** *** Vocabulary for the statements about the controller *)

(** The job thread takes one step while no request comes in. *)
Definition advance (a : job_args) (wp : world * pc) : world * pc :=
  let '(w', p') := thread_step a wp.2 wp.1 in (tick w', p').

(** [n] steps of the job thread on its own. *)
Definition run_alone (a : job_args) (n : nat) (wp : world * pc)
  : world * pc :=
  Nat.iter n (advance a) wp.

Definition with_threads (w : world) (ts : list thread) : world :=
  {| state := state w; stop_event := stop_event w;
     pause_event := pause_event w; threads := ts; exports := exports w;
     clock := clock w |}.

(** The control points from which a stop flag that is already set ends
    the activation before its final critical section: everything after
    the start-up, except a traversal the model has no fuel for. *)
Definition stoppable (a : job_args) (p : pc) : Prop :=
  match p with
  | PcClearEvents | PcInit | PcComplete _ | PcNoFuel => False
  | PcCallback _ _ OutOfFuel => False
  | PcExtract svc =>
      (extract_folder (fromisoformat_strftime env) (int_of_str env)
         (scale_size env) (as_completed env) (fuel env) svc
         (init_max_workers (workers a)) (folder_id a) (include_trashed a)).2
      <> OutOfFuel
  | _ => True
  end.

(** From [(w, p)] the job thread, left alone, ends after finitely many
    steps with the status [Stopped] or the one it started with, and
    with [metadata] and the exported files as they were. *)
Definition ends_quietly (a : job_args) (w : world) (p : pc) : Prop :=
  exists n w',
    run_alone a n (w, p) = (w', PcEnd) /\
    (status (state w') = Stopped \/ status (state w') = status (state w)) /\
    metadata (state w') = metadata (state w) /\
    exports w' = exports w.

(** An activation that has not come to its end. *)
Definition live (p : pc) : bool :=
  match p with
  | PcEnd => false
  | _ => true
  end.

Definition live_count (w : world) : nat :=
  length (filter (fun t => live (at_pc t) = true) (threads w)).

Definition is_start (a : action) : bool :=
  match a with
  | ReqStart _ => true
  | _ => false
  end.

(** A trace in which a job is only started when no job thread is
    alive. *)
Fixpoint no_overlap (w : world) (tr : list action) : Prop :=
  match tr with
  | [] => True
  | a :: tr' =>
      (is_start a = true -> live_count w = 0%nat)
      /\ no_overlap (step w a) tr'
  end.

(** At most one job thread is alive, and [metadata] is populated only
    when the status is [Completed] and no job thread is alive. *)
Definition job_invariant (w : world) : Prop :=
  (live_count w <= 1)%nat /\
  (metadata (state w) <> None ->
   status (state w) = Completed /\ live_count w = 0%nat).

End Controller.

End WebApp.

(** ** Scenarios for the examples about the controller *)

Module Scenarios.

Import Extractor Exporters WebApp Samples.

(** A Drive with one file at the top level and nothing in any folder. *)
Definition small_drive : service :=
  {| files_list := fun q =>
       match q with
       | Some "trashed = false" => [Page [sample_item]]
       | _ => []
       end |}.

(** Authentication succeeds, the exporters can write, links are taken
    as folder ids, and library calls parse nothing. *)
Definition sample_env (svc : service) : environment :=
  {| fromisoformat_strftime := fun _ => None;
     int_of_str := fun _ => None;
     scale_size := fun _ => None;
     as_completed := reversed_completion;
     authenticate := Ok svc;
     test_connection := fun _ => true;
     exporter_raises := fun _ => None;
     extract_folder_id_from_url := Some;
     fuel := 16 |}.

Definition whole_drive : start_request :=
  {| req_folder_id := None; req_output_name := "forensic_metadata";
     req_workers := None; req_include_trashed := false |}.

Definition one_folder (id : string) : start_request :=
  {| req_folder_id := Some id; req_output_name := "forensic_metadata";
     req_workers := None; req_include_trashed := false |}.

(** A job on an empty Drive, left alone until it ends. *)
Definition empty_run : world :=
  run_trace (sample_env empty_drive) initial_world
    (ReqStart whole_drive :: replicate 16 (Run 0%nat)).

(** A job that is stopped right after its CSV export. *)
Definition stop_after_csv : world :=
  run_trace (sample_env small_drive) initial_world
    (ReqStart whole_drive :: replicate 20 (Run 0%nat)
     ++ [ReqStop; Run 0%nat]).

(** A job that is stopped while the scheduler is reporting progress,
    seen after the next per-item callback. *)
Definition stop_during_processing : world :=
  run_trace (sample_env small_drive) initial_world
    (ReqStart whole_drive :: replicate 10 (Run 0%nat)
     ++ [ReqStop; Run 0%nat]).

(** A first job is paused, a second one is started while the first is
    paused; the first then completes and the second finds no files. *)
Definition start_while_paused : world :=
  run_trace (sample_env small_drive) initial_world
    ([ReqStart whole_drive; Run 0%nat; Run 0%nat; ReqPause;
      ReqStart (one_folder "0Missing"); Run 1%nat; Run 1%nat]
     ++ replicate 24 (Run 0%nat) ++ replicate 16 (Run 1%nat)).

(** The arguments [start_extraction] builds from [whole_drive]. *)
Definition sample_args : job_args :=
  {| folder_id := None; output_name := "forensic_metadata";
     workers := None; include_trashed := false;
     export_formats := [csv; json; pdf] |}.

(** The world right after the stop request of [stop_after_csv]. *)
Definition stop_requested : world :=
  run_trace (sample_env small_drive) initial_world
    (ReqStart whole_drive :: replicate 20 (Run 0%nat) ++ [ReqStop]).

(** The world right after [start_extraction] accepted [whole_drive]. *)
Definition job_started : world :=
  run_trace (sample_env empty_drive) initial_world [ReqStart whole_drive].

End Scenarios.

(** ** The link parser: [extract_folder_id_from_url] in [helpers.py] *)

Module Helpers.

(** The character class [[a-zA-Z0-9_-]]. *)
Definition id_char (c : ascii) : bool :=
  let n := N_of_ascii c in
  ((97 <=? n) && (n <=? 122) || (65 <=? n) && (n <=? 90)
   || (48 <=? n) && (n <=? 57) || (n =? 95) || (n =? 45))%N.

(** What the greedy group [([a-zA-Z0-9_-]+)] takes at the start of [s]:
    the longest run of id characters. *)
Fixpoint id_run (s : string) : string :=
  match s with
  | EmptyString => ""
  | String c s' => if id_char c then String c (id_run s') else ""
  end.

(** The three patterns have the same shape: one character class per
    position, then the group. [match_here classes s] is the group of
    the match that starts at the first character of [s]. *)
Fixpoint match_here (classes : list (ascii -> bool)) (s : string)
  : option string :=
  match classes with
  | [] =>
      match id_run s with
      | EmptyString => None
      | g => Some g
      end
  | p :: classes' =>
      match s with
      | EmptyString => None
      | String c s' => if p c then match_here classes' s' else None
      end
  end.

(** [re.search(pattern, s)] followed by [match.group(1)]: the match at
    the leftmost position that has one. *)
Fixpoint search (classes : list (ascii -> bool)) (s : string)
  : option string :=
  match match_here classes s with
  | Some g => Some g
  | None =>
      match s with
      | EmptyString => None
      | String _ s' => search classes s'
      end
  end.

Definition literal (s : string) : list (ascii -> bool) :=
  (fun c x => Ascii.eqb x c) <$> list_ascii_of_string s.

(** [r'/drive/folders/([a-zA-Z0-9_-]+)'] *)
Definition pattern1 : list (ascii -> bool) := literal "/drive/folders/".

(** [r'/open\?id=([a-zA-Z0-9_-]+)'] *)
Definition pattern2 : list (ascii -> bool) := literal "/open?id=".

(** [r'[?&]id=([a-zA-Z0-9_-]+)'] *)
Definition pattern3 : list (ascii -> bool) :=
  (fun x => Ascii.eqb x "?" || Ascii.eqb x "&") :: literal "id=".

(** [extract_folder_id_from_url] *)
Definition extract_folder_id_from_url (url_or_id : string) : option string :=
  if String.eqb url_or_id "" || String.eqb (strip url_or_id) "" then None
  else
    let url_or_id := strip url_or_id in
    if negb (String.prefix "http" url_or_id)
       && negb (contains_char "/" url_or_id)
       && negb (contains_char "?" url_or_id)
    then Some url_or_id
    else
      match search pattern1 url_or_id with
      | Some g => Some g
      | None =>
          match search pattern2 url_or_id with
          | Some g => Some g
          | None => search pattern3 url_or_id
          end
      end.

(** *** Vocabulary for the statements about the link parser *)

(** The text is made of id characters only. *)
Fixpoint all_id_chars (s : string) : bool :=
  match s with
  | EmptyString => true
  | String c s' => id_char c && all_id_chars s'
  end.

End Helpers.

(** ** Sizes for display: the loop of [format_size] in [extractor.py]
    and of [PDFExporter._format_size] in [exporters.py] *)

Module Sizes.

(** [float(z)] for an [int]: the value of the nearest double, ties to
    the even significand; an integer value again, since a double of
    magnitude [2^53] or more is one. [None] stands for the
    [OverflowError] of an [int] too large to convert. *)
Definition to_float (z : Z) : option Z :=
  let a := Z.abs z in
  let drop := Z.log2 a - 52 in
  if drop <=? 0 then Some z
  else
    let q := Z.shiftr a drop in
    let r := a - Z.shiftl q drop in
    let half := Z.shiftl 1 (drop - 1) in
    let q' :=
      if r <? half then q
      else if half <? r then q + 1
      else if Z.even q then q else q + 1 in
    let v := Z.shiftl q' drop in
    if 2 ^ 1024 <=? v then None else Some (Z.sgn z * v).

(** The quotient [num / den] rounded to the nearest integer, ties to
    the even one. *)
Definition round_half_even (num den : Z) : Z :=
  let q := num / den in
  let r := num mod den in
  if 2 * r <? den then q
  else if den <? 2 * r then q + 1
  else if Z.even q then q else q + 1.

Definition two_digits (n : Z) : string :=
  (if n <? 10 then "0" else "") +:+ pretty n.

(** [f"{x:.2f}"] for the double [x = num / den], [den] a power of two:
    the decimal expansion of [x], correctly rounded to two places. *)
Definition format_2f (num den : Z) : string :=
  let hundredths := round_half_even (100 * Z.abs num) den in
  (if num <? 0 then "-" else "")
  +:+ pretty (hundredths / 100) +:+ "." +:+ two_digits (hundredths mod 100).

(** The loop over the units from the second round on: [size] is the
    double [num / den], and dividing it by [1024.0] is exact. *)
Fixpoint scale_from (units : list string) (num den : Z) : string :=
  match units with
  | [] => format_2f num den +:+ " PB"
  | unit :: rest =>
      if num <? 1024 * den then format_2f num den +:+ " " +:+ unit
      else scale_from rest num (1024 * den)
  end.

(** The loop on an [int]: the first round compares the [int] itself
    with [1024.0]; formatting it, or dividing it, turns it into a
    double. *)
Definition scale (size : Z) : option string :=
  match to_float size with
  | None => None
  | Some x =>
      Some (if size <? 1024 then format_2f x 1 +:+ " B"
            else scale_from ["KB"; "MB"; "GB"; "TB"] x 1024)
  end.

(** *** Vocabulary for the statements about sizes *)

Definition unit_names : list string := ["B"; "KB"; "MB"; "GB"; "TB"; "PB"].

(** The hundredths [format_2f] prints. *)
Definition hundredths (num den : Z) : Z :=
  round_half_even (100 * Z.abs num) den.

End Sizes.

(** ** The CSV file: [CSVExporter.export] in [exporters.py] *)

Module Csv.

Import Exporters.

(** The literal list the exporter sorts into its [columns]. *)
Definition column_names : list string :=
  [ "name"; "id"; "file_type"; "full_path";
    "creation_date"; "modification_date"; "last_viewed_date";
    "creation_date_raw"; "modification_date_raw";
    "size_bytes"; "size_formatted";
    "owner_email"; "owner_name";
    "last_modifier_email"; "last_modifier_name";
    "shared"; "trashed"; "share_link";
    "md5_checksum"; "version"; "permissions"; "permission_count";
    "mime_type"; "description"; "parents" ].

Definition columns : list string := stable_sort String.leb column_names.

(** The text [csv.writer] puts in a cell, before quoting: nothing for
    [None], [str(v)] for anything else. *)
Definition cell (v : value) : string :=
  match v with
  | VNone => ""
  | _ => str v
  end.

(** [{k: item.get(k, '') for k in columns}], as [writerow] lays it
    out: one cell per column, in column order. *)
Definition row (item : dict) : list string :=
  (fun k => cell (get item k (VStr ""))) <$> columns.

(** [CSVExporter.export]: the lines of the file it writes, header
    first; [None] when it returns without writing. The list is sorted
    before the file is opened, so a [TypeError] of the sort leaves no
    file. *)
Definition export (metadata : list dict)
  : result (option (list (list string))) :=
  match metadata with
  | [] => Ok None
  | _ =>
      sorted_metadata <- sorted_by_id metadata;;
      Ok (Some (columns :: (row <$> sorted_metadata)))
  end.

End Csv.

(** ** The PDF report: [PDFExporter.export] and [_add_footer] in
    [exporters.py] *)

Module Pdf.

Import Extractor.

Section Statistics.

(** [int(s)] on a [str], as in the canonicalizer. *)
Variable int_of_str : string -> option Z.

(** [int(m.get('size_bytes', 0) or 0)]; [None] where [int] raises. *)
Definition size_of (m : dict) : option Z :=
  let v := get m "size_bytes" (VInt 0) in
  py_int int_of_str (if truthy v then v else VInt 0).

(** [total_size = sum(int(...) for m in metadata)] *)
Definition total_size (metadata : list dict) : option Z :=
  foldl (fun acc m =>
           match acc, size_of m with
           | Some a, Some s => Some (a + s)
           | _, _ => None
           end)
    (Some 0) metadata.

(** [shared_files = sum(1 for m in metadata if m.get('shared', False))] *)
Definition shared_files (metadata : list dict) : nat :=
  length (filter (fun m => truthy (get m "shared" (VBool false)) = true)
            metadata).

(** One round of the loop that fills the dict [file_types]; [None]
    where the file type is unhashable and the subscript raises. *)
Definition count_type (file_types : option (gmap hkey Z)) (m : dict)
  : option (gmap hkey Z) :=
  match file_types, hash_key (get m "file_type" (VStr "Unknown")) with
  | Some file_types, Some file_type =>
      Some (<[file_type := default 0 (file_types !! file_type) + 1]>
              file_types)
  | _, _ => None
  end.

Definition file_types (metadata : list dict) : option (gmap hkey Z) :=
  foldl count_type (Some ∅) metadata.

(** [_format_size]: the loop of [format_size], without its [try]. *)
Definition _format_size (size_bytes : Z) : option string :=
  Sizes.scale size_bytes.

(** The value column of [stats_data], below its header row: total
    files, shared files, total size, unique file types. *)
Definition stats_data (metadata : list dict) : option (list string) :=
  match total_size metadata, file_types metadata with
  | Some total, Some types =>
      match _format_size total with
      | Some formatted =>
          Some [ pretty (Z.of_nat (length metadata));
                 pretty (Z.of_nat (shared_files metadata));
                 formatted;
                 pretty (Z.of_nat (size types)) ]
      | None => None
      end
  | _, _ => None
  end.

End Statistics.

(** [self._max_page] and [self.total_pages]. *)
Record footer_state : Type := {
  _max_page : Z;
  total_pages : option Z
}.

(** [_add_footer] on the page [canvas.getPageNumber()]: the state it
    leaves and the two lines it draws, hash first. *)
Definition _add_footer (forensic_hash : string) (current_page : Z)
  (st : footer_state) : footer_state * (string * string) :=
  let max_page := Z.max (_max_page st) current_page in
  let total :=
    match total_pages st with
    | Some total => total
    | None => max_page
    end in
  ({| _max_page := max_page; total_pages := total_pages st |},
   ("SHA-256: " +:+ forensic_hash,
    if 0 <? total then pretty current_page +:+ "/" +:+ pretty total
    else pretty current_page)).

(** [doc.build(story, onFirstPage=self._add_footer,
    onLaterPages=self._add_footer)] for a story that fills [pages]
    pages: the footer is drawn once on each page, page 1 first. *)
Definition build (forensic_hash : string) (pages : nat) (st : footer_state)
  : footer_state * list (string * string) :=
  foldl (fun acc page =>
           let '(st', lines) :=
             _add_footer forensic_hash (Z.of_nat page) acc.1 in
           (st', acc.2 ++ [lines]))
    (st, []) (seq 1 pages).

(** The end of [PDFExporter.export]: the first build, the page count
    [len(pdf_reader.pages)] read back ([None] when PyPDF2 is missing or
    fails), and the second build when the count differs from the pages
    seen. What is left is the state and the footers of the file. *)
Definition export_footers (forensic_hash : string) (pages : nat)
  (reader : option Z) (rebuilt_pages : nat)
  : footer_state * list (string * string) :=
  let '(st, drawn) :=
    build forensic_hash pages {| _max_page := 0; total_pages := None |} in
  let kept :=
    ({| _max_page := _max_page st;
        total_pages :=
          Some (if 0 <? _max_page st then _max_page st else 1) |},
     drawn) in
  match reader with
  | Some total =>
      if negb (total =? _max_page st) && (0 <? total) then
        build forensic_hash rebuilt_pages
          {| _max_page := 0; total_pages := Some total |}
      else kept
  | None => kept
  end.

End Pdf.

(** ** The command line: [main] in [main.py] *)

Module Main.

Import Extractor Exporters WebApp.

(** [--format], with [choices=['all', 'csv', 'json', 'pdf']]. *)
Inductive format_choice : Type :=
| FormatAll | FormatCsv | FormatJson | FormatPdf.

(** The parsed command line. *)
Record arguments : Type := {
  arg_output : string;
  arg_folder_id : option string;
  arg_include_trashed : bool;
  arg_format : format_choice;
  arg_workers : option Z
}.

(** How a run of [main] ends: [sys.exit(code)] with the files written
    under [output/] so far, or the web viewer started on the records
    after the exports; [CliNoFuel] is the traversal the model has no
    fuel for. *)
Inductive cli_run : Type :=
| CliExit (code : Z) (files : list (string * export_format))
| CliViewer (metadata : list dict) (files : list (string * export_format))
| CliNoFuel.

Definition output_formats (f : format_choice) : list export_format :=
  match f with
  | FormatAll => [csv; json; pdf]
  | FormatCsv => [csv]
  | FormatJson => [json]
  | FormatPdf => [pdf]
  end.

(** The folder to scan: [None] for the whole Drive, and no answer at
    all for a [--folder-id] the link parser rejects. *)
Definition resolve_folder (folder_id : option string)
  : option (option string) :=
  match folder_id with
  | Some input =>
      if String.eqb input "" then Some None
      else
        match Helpers.extract_folder_id_from_url input with
        | Some id => if String.eqb id "" then None else Some (Some id)
        | None => None
        end
  | None => Some None
  end.

(** The three [if fmt in output_formats: ...export(metadata)] in a row:
    the files written, and the exception that ended the row, if any.
    Every exporter computes the forensic structure before it writes. *)
Fixpoint export_in_order (env : environment) (output : string)
  (requested : list export_format) (metadata : list dict)
  (fmts : list export_format) (files : list (string * export_format))
  : list (string * export_format) * option exn :=
  match fmts with
  | [] => (files, None)
  | fmt :: rest =>
      if has_format fmt requested then
        match create_forensic_hash_data metadata with
        | Raise e => (files, Some e)
        | Ok _ =>
            match exporter_raises env fmt with
            | Some e => (files, Some e)
            | None =>
                export_in_order env output requested metadata rest
                  (files ++ [(output, fmt)])
            end
        end
      else export_in_order env output requested metadata rest files
  end.

(** [main]: it calls [extract_folder] without a callback, and every
    exception ends in [sys.exit(1)]. *)
Definition main (env : environment) (args : arguments) : cli_run :=
  match authenticate env with
  | Raise _ => CliExit 1 []
  | Ok service =>
      if negb (test_connection env service) then CliExit 1 []
      else
        match resolve_folder (arg_folder_id args) with
        | None => CliExit 1 []
        | Some folder_id =>
            match
              (extract_folder (fromisoformat_strftime env) (int_of_str env)
                 (scale_size env) (as_completed env) (fuel env) service
                 (init_max_workers (arg_workers args)) folder_id
                 (arg_include_trashed args)).2
            with
            | Fail _ => CliExit 1 []
            | OutOfFuel => CliNoFuel
            | Done metadata =>
                match metadata with
                | [] => CliExit 0 []
                | _ =>
                    match
                      export_in_order env (arg_output args)
                        (output_formats (arg_format args)) metadata
                        [csv; json; pdf] []
                    with
                    | (files, Some _) => CliExit 1 files
                    | (files, None) => CliViewer metadata files
                    end
                end
            end
        end
  end.

(** *** Vocabulary for the statements about the command line *)


End Main.

(** ** Vocabulary and sample data for the statements about listings,
    jobs and entry points *)

Module Cases.

Import Extractor Exporters WebApp Samples Scenarios.

(** A callback of the collecting phase, or one that reports a failure. *)
Definition quiet (ev : event) : Prop :=
  ev_status ev = "collecting" \/ ev_status ev = "error".

(** What a walk leaves behind, whatever the remote store answers: it
    never forgets a visited folder, it only appends callbacks, each of
    them [quiet], and when the files it started with hold no folder,
    the files it returns hold none. *)
Definition walk_ok (acc_ok : Prop) (st : tstate)
  (r : tstate * outcome (list dict)) : Prop :=
  visited st ⊆ visited r.1 /\
  (exists new, events r.1 = events st ++ new /\ Forall quiet new) /\
  match r.2 with
  | Done files => acc_ok -> Forall (fun f => is_folder f = false) files
  | _ => True
  end.

(** The files a job writes when no exporter fails: one per requested
    format, in the order CSV, JSON, PDF. *)
Definition written (a : job_args) : list (string * export_format) :=
  (fun fmt => (output_name a, fmt)) <$>
    filter (fun fmt => has_format fmt (export_formats a) = true)
      [csv; json; pdf].

(** The world [start_extraction] leaves when it accepts a request for
    the folder [fid]. *)
Definition job_accepted (data : start_request) (fid : option string)
  (w : world) : world :=
  {| state := fresh_state ""; stop_event := false; pause_event := false;
     threads :=
       threads w
       ++ [{| args :=
                {| folder_id := fid; output_name := req_output_name data;
                   workers := req_workers data;
                   include_trashed := req_include_trashed data;
                   export_formats := [csv; json; pdf] |};
              at_pc := PcClearEvents |}];
     exports := exports w; clock := clock w |}.


(** What comes out of the part of [run_extraction] in front of the
    exports: the exception of [authenticate], the one raised when the
    connection test fails, or the outcome of [extract_folder] with its
    callbacks. *)
Definition job_extraction (env : environment) (a : job_args)
  : list event * outcome (list dict) :=
  match authenticate env with
  | Raise e => ([], Fail e)
  | Ok svc =>
      if test_connection env svc then
        extract_folder (fromisoformat_strftime env) (int_of_str env)
          (scale_size env) (as_completed env) (fuel env) svc
          (init_max_workers (workers a)) (folder_id a) (include_trashed a)
      else
        ([], Fail (Exception
                     "Could not establish connection with Google Drive"))
  end.

(** A Drive whose listing fails on its second page. *)
Definition failing_drive : service :=
  {| files_list := fun _ => [Page [sample_item]; PageError "quota exceeded"] |}.

(** [sample_env] with the link parser of [helpers.py]. *)
Definition linked_env (svc : service) : environment :=
  {| fromisoformat_strftime := fun _ => None;
     int_of_str := fun _ => None;
     scale_size := Sizes.scale;
     as_completed := reversed_completion;
     authenticate := Ok svc;
     test_connection := fun _ => true;
     exporter_raises := fun _ => None;
     extract_folder_id_from_url := Helpers.extract_folder_id_from_url;
     fuel := 16 |}.

Definition shared_link : string :=
  "https://drive.google.com/drive/folders/1AbC_d-9?usp=sharing".

(** The world right after [start_extraction] accepted [whole_drive] on
    [small_drive], and the same job after its start-up, and after its
    last callback. *)
Definition small_job_started : world :=
  run_trace (sample_env small_drive) initial_world [ReqStart whole_drive].

Definition callbacks_pending : world :=
  run_trace (sample_env small_drive) initial_world
    (ReqStart whole_drive :: replicate 9 (Run 0%nat)).

Definition exports_pending : world :=
  run_trace (sample_env small_drive) initial_world
    (ReqStart whole_drive :: replicate 14 (Run 0%nat)).

(** A job on [failing_drive], right after it was accepted. *)
Definition failing_job_started : world :=
  run_trace (sample_env failing_drive) initial_world [ReqStart whole_drive].



(** The command line [--output forensic_metadata] with its defaults. *)
Definition default_arguments : Main.arguments :=
  {| Main.arg_output := "forensic_metadata"; Main.arg_folder_id := None;
     Main.arg_include_trashed := false; Main.arg_format := Main.FormatAll;
     Main.arg_workers := None |}.

End Cases.

(** * Properties *)

Import Extractor Exporters.

(** ** The canonicalizer *)

Module ExtractorFacts.

(** C8. The worker count the extractor keeps is [1] when none is
    asked for, and otherwise the requested count clamped to the
    interval from [1] to [4]. *)
Theorem init_max_workers_clamped :
  init_max_workers None = 1 /\
  forall w : Z,
    1 <= init_max_workers (Some w) <= 4 /\
    init_max_workers (Some w) = (if w <? 1 then 1 else if 4 <? w then 4 else w).
Proof.
  split; [reflexivity|].
  intros w. unfold init_max_workers.
  destruct (Z.ltb_spec w 1), (Z.ltb_spec 4 w); lia.
Qed.

Lemma lookup_get (d : dict) k v dflt : lookup k d = Some v -> get d k dflt = v.
Proof. unfold get. by intros ->. Qed.

Lemma lookup_get_None (d : dict) k dflt : lookup k d = None -> get d k dflt = dflt.
Proof. unfold get. by intros ->. Qed.

Lemma mapM_permission_type_dicts l :
  forallb is_dict l = true -> exists ts, mapM permission_type l = Ok ts /\ length ts = length l.
Proof.
  induction l as [|p l IH]; simpl; [by exists []|].
  intros [Hp Hl]%andb_prop. destruct (IH Hl) as [ts [Hts Hlen]].
  destruct p; try discriminate. simpl. rewrite Hts. simpl. eexists; split; [done|]. simpl. congruence.
Qed.

Lemma mapM_as_str_strs l :
  forallb is_str l = true -> exists ss, mapM as_str l = Ok ss.
Proof.
  induction l as [|p l IH]; simpl; [by exists []|].
  intros [Hp Hl]%andb_prop. destruct (IH Hl) as [ts Hts].
  destruct p; try discriminate. simpl. rewrite Hts. simpl. by eexists.
Qed.

Lemma field_ok_get file k p dflt :
  field_ok file k p = true -> p dflt = true -> p (get file k dflt) = true.
Proof.
  unfold field_ok, get. by destruct (lookup k file).
Qed.

Lemma owners_ok file key dflt :
  field_ok file "owners" (is_list_of is_dict) = true ->
  exists v,
    (if truthy (get file "owners" (VList []))
     then o <- subscript0 (get file "owners" (VList []));; getattr_get o key dflt
     else Ok dflt) = Ok v.
Proof.
  intros H. apply (field_ok_get _ _ _ (VList [])) in H; [|done].
  destruct (get file "owners" (VList [])) as [| | | |l|]; try discriminate.
  destruct l as [|o l]; simpl; [by eexists|].
  simpl in H. destruct o; try discriminate. simpl. by eexists.
Qed.

Lemma user_ok file k key dflt :
  field_ok file k is_dict = true ->
  exists v, getattr_get (get file k (VDict [])) key dflt = Ok v.
Proof.
  intros H. apply (field_ok_get _ _ _ (VDict [])) in H; [|done].
  destruct (get file k (VDict [])); try discriminate. simpl. by eexists.
Qed.

Lemma permissions_ok file :
  field_ok file "permissions" (is_list_of is_dict) = true ->
  exists perms ts n,
    iter (get file "permissions" (VList [])) = Ok perms /\
    mapM permission_type perms = Ok ts /\
    len (get file "permissions" (VList [])) = Ok n.
Proof.
  intros H. apply (field_ok_get _ _ _ (VList [])) in H; [|done].
  destruct (get file "permissions" (VList [])) as [| | | |l|]; try discriminate.
  simpl in H. destruct (mapM_permission_type_dicts l H) as [ts [Hts _]].
  exists l, ts. eexists. by repeat split.
Qed.

Lemma mime_type_ok file :
  field_ok file "mimeType" is_str = true ->
  exists t, _get_file_type (get file "mimeType" (VStr "")) = Ok t.
Proof.
  intros H. apply (field_ok_get _ _ _ (VStr "")) in H; [|done].
  destruct (get file "mimeType" (VStr "")); try discriminate. simpl. by eexists.
Qed.

Lemma parents_ok file :
  field_ok file "parents" (is_list_of is_str) = true ->
  exists p, join_value "; " (get file "parents" (VList [])) = Ok p.
Proof.
  intros H. apply (field_ok_get _ _ _ (VList [])) in H; [|done].
  destruct (get file "parents" (VList [])) as [| | | |l|]; try discriminate.
  simpl in H. destruct (mapM_as_str_strs l H) as [ss Hss].
  unfold join_value. simpl. rewrite Hss. simpl. by eexists.
Qed.

(** Peel one [bind] off a hypothesis [... = Ok _]. *)
Ltac step_bind H :=
  match type of H with
  | context [bind ?r _] =>
      let E := fresh "E" in
      destruct r eqn:E; simpl bind in H; [|discriminate H]
  end.

Section Canonicalizer.
Variable fromisoformat_strftime : string -> option string.
Variable int_of_str : string -> option Z.
Variable scale_size : Z -> option string.

Local Abbreviation extract := (extract_file_metadata fromisoformat_strftime int_of_str scale_size).
Local Abbreviation process := (_process_file fromisoformat_strftime int_of_str scale_size).

Lemma extract_empty :
  extract [] = Ok ((fun e => (e.1.2, e.2)) <$> sentinels).
Proof. reflexivity. Qed.


Lemma extract_sentinel file m raw k s :
  extract file = Ok m -> (raw, k, s) ∈ sentinels -> lookup raw file = None ->
  lookup k m = Some s.
Proof.
  intros H Hin Hnone. unfold sentinels in Hin.
  unfold extract_file_metadata in H.
  repeat (apply elem_of_cons in Hin as [Hin|Hin];
    [injection Hin as -> -> ->;
     rewrite ?(lookup_get_None file _ _ Hnone) in H;
     cbn [truthy negb] in H;
     repeat step_bind H;
     injection H as <-;
     cbn [lookup String.eqb Ascii.eqb Bool.eqb];
     rewrite ?(lookup_get_None file _ _ Hnone); try reflexivity |]).
  all: try by inversion Hin.
  all: repeat match goal with E : _ = Ok _ |- _ => cbn in E; injection E as <- end; reflexivity.
Qed.


Lemma extract_schema_ok file :
  schema_ok file = true -> exists m, extract file = Ok m.
Proof.
  unfold schema_ok. intros H.
  repeat (apply andb_prop in H as [H ?]).
  unfold extract_file_metadata.
  destruct (owners_ok file "emailAddress" (VStr "N/A")) as [? ->]; [done|].
  destruct (owners_ok file "displayName" (VStr "N/A")) as [? ->]; [done|].
  destruct (user_ok file "lastModifyingUser" "emailAddress" (VStr "N/A")) as [? ->]; [done|].
  destruct (user_ok file "lastModifyingUser" "displayName" (VStr "N/A")) as [? ->]; [done|].
  destruct (user_ok file "sharingUser" "emailAddress" (VStr "N/A")) as [? ->]; [done|].
  cbn [bind].
  destruct (permissions_ok file) as (perms & ts & n & -> & Hts & Hn); [done|].
  cbn [bind]. rewrite Hts. cbn [bind].
  destruct (mime_type_ok file) as [? ->]; [done|].
  cbn [bind]. rewrite Hn. cbn [bind].
  destruct (parents_ok file) as [? ->]; [done|].
  cbn [bind]. by eexists.
Qed.

Lemma extract_keys file m :
  extract file = Ok m -> m.*1 = (fun e => e.1.2) <$> sentinels.
Proof.
  unfold extract_file_metadata. intros H.
  repeat step_bind H. by injection H as <-.
Qed.

(** C7. [extract_file_metadata] returns a record for every raw item
    whose structured fields, where present, have the shape the Drive
    API documents, whichever fields are missing; each missing field
    shows up as its sentinel; the item without any field yields the
    record of sentinels; and an exception of the extraction never
    leaves [_process_file], which answers [None]. *)
Theorem normalize_never_fails (file : dict) (Hschema : schema_ok file = true) :
  (exists m,
     extract file = Ok m /\ process file = Some m /\
     m.*1 = (fun e => e.1.2) <$> sentinels /\
     forall raw k s,
       (raw, k, s) ∈ sentinels -> lookup raw file = None ->
       lookup k m = Some s) /\
  extract [] = Ok ((fun e => (e.1.2, e.2)) <$> sentinels) /\
  (forall f e, extract f = Raise e -> process f = None).
Proof.
  split; [|split].
  - destruct (extract_schema_ok file Hschema) as [m Hm].
    exists m. repeat split; [done| |by eapply extract_keys|].
    + unfold _process_file. by rewrite Hm.
    + intros raw k s. by apply extract_sentinel.
  - reflexivity.
  - intros f e He. unfold _process_file. by rewrite He.
Qed.

End Canonicalizer.

Lemma normalize_never_fails_witness :
  schema_ok Samples.sample_item = true /\
  exists m,
    Samples.plain_extract Samples.sample_item = Ok m /\
    lookup "size_bytes" m = Some (VStr "0").
Proof.
  split; [reflexivity|].
  destruct (normalize_never_fails (fun _ => None) (fun _ => None)
              (fun _ => None) Samples.sample_item eq_refl)
    as [[m (Hm & _ & _ & Hs)] _].
  exists m. split; [exact Hm|].
  apply (Hs "size"); [|reflexivity].
  unfold sentinels. do 9 apply list_elem_of_further. apply list_elem_of_here.
Defined.

(** A raw item whose [lastModifyingUser] is [null] makes the
    extraction raise; [_process_file] answers [None] for it. *)
Lemma malformed_item_is_caught :
  Samples.plain_extract (Samples.broken_item "b1") = Raise AttributeError /\
  _process_file (fun _ => None) (fun _ => None) (fun _ => None)
    (Samples.broken_item "b1") = None.
Proof. split; reflexivity. Qed.

End ExtractorFacts.

(** ** Sorting and the fingerprint *)

Module SortingFacts.

Section Generic.
Context {A : Type} (le : A -> A -> bool).

Let R : relation A := fun a b => le a b = true.

Lemma insert_sorted_perm x l : insert_sorted le x l ≡ₚ x :: l.
Proof.
  induction l as [|y l IH]; simpl; [done|].
  destruct (le x y); [done|]. rewrite IH. apply Permutation_swap.
Qed.

Lemma stable_sort_perm l : stable_sort le l ≡ₚ l.
Proof.
  induction l as [|x l IH]; simpl; [done|].
  by rewrite insert_sorted_perm, IH.
Qed.

Lemma stable_sort_length l : length (stable_sort le l) = length l.
Proof. by rewrite stable_sort_perm. Qed.

Hypothesis le_total : forall a b, le a b = true \/ le b a = true.

Lemma insert_sorted_hd x y l :
  R y x -> HdRel R y l -> HdRel R y (insert_sorted le x l).
Proof.
  intros Hyx Hl. destruct l as [|z l]; simpl; [by constructor|].
  destruct (le x z); constructor; [done|]. by inversion Hl.
Qed.

Lemma insert_sorted_sorted x l :
  Sorted R l -> Sorted R (insert_sorted le x l).
Proof.
  induction 1 as [|y l Hl IH Hhd]; simpl; [by repeat constructor|].
  destruct (le x y) eqn:Hxy.
  - constructor; [by constructor|]. by constructor.
  - constructor; [done|]. apply insert_sorted_hd; [|done].
    destruct (le_total x y) as [H|H]; [congruence|done].
Qed.

Lemma stable_sort_sorted l : Sorted R (stable_sort le l).
Proof.
  induction l as [|x l IH]; simpl; [constructor|].
  by apply insert_sorted_sorted.
Qed.

End Generic.

(** Sorting commutes with any change of the elements that the
    comparison does not see. *)
Section Related.
Context {A B : Type} (leA : A -> A -> bool) (leB : B -> B -> bool).
Context (P : A -> B -> Prop).
Hypothesis le_compat :
  forall a a' b b', P a b -> P a' b' -> leA a a' = leB b b'.

Lemma insert_sorted_Forall2 a b l l' :
  P a b -> Forall2 P l l' ->
  Forall2 P (insert_sorted leA a l) (insert_sorted leB b l').
Proof.
  intros Hab. induction 1 as [|a' b' l l' Hab' Hl IH]; simpl.
  - by repeat constructor.
  - rewrite (le_compat a a' b b') by done.
    destruct (leB b b'); by repeat constructor.
Qed.

Lemma stable_sort_Forall2 l l' :
  Forall2 P l l' -> Forall2 P (stable_sort leA l) (stable_sort leB l').
Proof.
  induction 1; simpl; [constructor|]. by apply insert_sorted_Forall2.
Qed.

End Related.

(** *** The order on sort keys *)

Lemma string_leb_trans a b c :
  String.leb a b = true -> String.leb b c = true -> String.leb a c = true.
Proof.
  intros H1 H2. apply Is_true_true. apply Is_true_true in H1, H2.
  change (String.le a c). by transitivity b.
Qed.

Lemma sort_key_leb_total a b :
  sort_key_leb a b = true \/ sort_key_leb b a = true.
Proof.
  destruct a as [[x|x]|], b as [[y|y]|]; simpl; auto.
  - destruct (Z.leb_spec x y), (Z.leb_spec y x); auto; lia.
  - apply String.leb_total.
Qed.

Lemma sort_key_leb_trans a b c :
  sort_key_leb a b = true -> sort_key_leb b c = true ->
  sort_key_leb a c = true.
Proof.
  destruct a as [[x|x]|], b as [[y|y]|], c as [[z|z]|]; simpl; try done.
  - intros ?%Z.leb_le ?%Z.leb_le. apply Z.leb_le. lia.
  - apply string_leb_trans.
Qed.

Lemma sort_key_leb_antisym a b :
  sort_key_leb a b = true -> sort_key_leb b a = true -> a = b.
Proof.
  destruct a as [[x|x]|], b as [[y|y]|]; simpl; try done.
  - intros ?%Z.leb_le ?%Z.leb_le. do 2 f_equal. lia.
  - intros H1 H2. do 2 f_equal. by apply String.leb_antisym.
Qed.

End SortingFacts.

Module ExportersFacts.
Import SortingFacts.

Lemma lookup_set_eq k v d : lookup k (set k v d) = Some v.
Proof.
  induction d as [|[k' v'] d IH]; simpl.
  - by rewrite String.eqb_refl.
  - destruct (String.eqb k k') eqn:E; simpl; rewrite ?String.eqb_refl, ?E; done.
Qed.

Lemma lookup_set_ne k k' v d : k <> k' -> lookup k' (set k v d) = lookup k' d.
Proof.
  intros Hne. induction d as [|[k0 v0] d IH]; simpl.
  - destruct (String.eqb_spec k' k); congruence.
  - destruct (String.eqb_spec k k0) as [<-|]; simpl.
    + destruct (String.eqb_spec k' k); congruence.
    + by rewrite IH.
Qed.

Lemma get_set_ne k k' v d dflt : k <> k' -> get (set k v d) k' dflt = get d k' dflt.
Proof. intros. unfold get. by rewrite lookup_set_ne. Qed.

Lemma get_set_eq k v d dflt : get (set k v d) k dflt = v.
Proof. unfold get. by rewrite lookup_set_eq. Qed.

(** The loop of [create_forensic_hash_data] over the fields, unrolled. *)
Lemma forensic_file_unfold r :
  forensic_file r =
  (fun f => (f, forensic_value (get r f (VStr "")))) <$>
    [ "creation_date_raw"; "description"; "file_type"; "id"; "md5_checksum";
      "mime_type"; "modification_date_raw"; "name"; "size_bytes"; "trashed" ].
Proof. reflexivity. Qed.





Local Abbreviation cmp := (fun x y : dict => key_leb (id_key x) (id_key y)).
Local Abbreviation keyed := (fun r : dict => (record_key r, forensic_file r)).

Lemma forallb_perm {A} (f : A -> bool) l1 l2 :
  l1 ≡ₚ l2 -> forallb f l1 = forallb f l2.
Proof.
  induction 1 as [|x l l' _ IH|x y l|l l' l'' _ IH1 _ IH2]; simpl.
  - done.
  - by rewrite IH.
  - by destruct (f x), (f y).
  - congruence.
Qed.

Lemma orderable_keys_perm ks1 ks2 :
  ks1 ≡ₚ ks2 -> orderable_keys ks1 = orderable_keys ks2.
Proof.
  intros H. unfold orderable_keys.
  by rewrite (Permutation_length H), !(forallb_perm _ _ _ H).
Qed.

Lemma forallb_fmap {A B} (f : A -> B) (p : B -> bool) l :
  forallb p (f <$> l) = forallb (fun x => p (f x)) l.
Proof. induction l as [|x l IH]; csimpl; [done|]. by rewrite IH. Qed.

Lemma forallb_pointwise {A} (f g : A -> bool) l :
  (forall x, f x = g x) -> forallb f l = forallb g l.
Proof. intros H. induction l as [|x l IH]; simpl; [done|]. by rewrite H, IH. Qed.

Lemma sorted_by_id_spec l :
  sorted_by_id l =
  if orderable_keys (record_key <$> l) then Ok (stable_sort cmp l)
  else Raise TypeError.
Proof.
  unfold orderable_keys. rewrite !forallb_fmap, length_fmap.
  destruct l as [|a [|b l]]; [done..|].
  assert (forall v, is_str_key v =
            match sort_key_of v with Some (KStr _) => true | _ => false end)
    as Hs by (by intros [| | | | |]).
  assert (forall v, is_num_key v =
            match sort_key_of v with Some (KNum _) => true | _ => false end)
    as Hn by (by intros [| | | | |]).
  unfold sorted_by_id, record_key.
  rewrite (forallb_pointwise (fun x => is_str_key (id_key x)) _ _ (fun x => Hs _)).
  by rewrite (forallb_pointwise (fun x => is_num_key (id_key x)) _ _ (fun x => Hn _)).
Qed.

Lemma cmp_total (a b : dict) : cmp a b = true \/ cmp b a = true.
Proof. apply sort_key_leb_total. Qed.











Lemma NoDup_fmap_inj_on {A B} (f : A -> B) l x y :
  NoDup (f <$> l) -> x ∈ l -> y ∈ l -> f x = f y -> x = y.
Proof.
  induction l as [|a l IH]; csimpl; [by inversion 2|].
  intros [Ha Hl]%NoDup_cons [->|Hx]%elem_of_cons [->|Hy]%elem_of_cons E; auto.
  - destruct Ha. rewrite E. by apply list_elem_of_fmap_2.
  - destruct Ha. rewrite <-E. by apply list_elem_of_fmap_2.
Qed.




Import Samples.




(** The trimming of [forensic_value] is that of [str.strip]: a name that
    gains a no-break space keeps its fingerprint as well. *)
Lemma no_break_space_is_trimmed :
  create_forensic_hash_data
    [set "name" (VStr ("report" +:+ no_break_space)) report]
  = create_forensic_hash_data [report].
Proof. reflexivity. Qed.

End ExportersFacts.

Module SizeFacts.
Import ExportersFacts.

Section AbsentSize.
Variable fromisoformat_strftime : string -> option string.
Variable int_of_str : string -> option Z.
Variable scale_size : Z -> option string.

Local Abbreviation extract :=
  (extract_file_metadata fromisoformat_strftime int_of_str scale_size).

(** C10. A raw item without [size] gets [size_bytes = "0"] and
    [size_formatted = "N/A"], and its forensic projection is the one of
    the same item with the size given as zero (text or number). *)
Theorem absent_size_counts_as_zero (file m : dict)
  (Habsent : lookup "size" file = None) (Hm : extract file = Ok m) :
  lookup "size_bytes" m = Some (VStr "0") /\
  lookup "size_formatted" m = Some (VStr "N/A") /\
  forall zero, zero = VStr "0" \/ zero = VInt 0 ->
    exists m0,
      extract (set "size" zero file) = Ok m0 /\
      forensic_file m0 = forensic_file m.
Proof.
  split; [|split].
  - apply (ExtractorFacts.extract_sentinel fromisoformat_strftime int_of_str scale_size file m "size"); try done.
    unfold sentinels. set_solver.
  - apply (ExtractorFacts.extract_sentinel fromisoformat_strftime int_of_str scale_size file m "size"); try done.
    unfold sentinels. set_solver.
  - intros zero Hzero.
    unfold extract_file_metadata in Hm |- *.
    rewrite !(get_set_ne "size") by discriminate.
    rewrite !get_set_eq.
    repeat ExtractorFacts.step_bind Hm. injection Hm as <-.
    repeat (cbn [bind];
            match goal with E : ?r = Ok _ |- context [?r] => rewrite E end).
    cbn [bind]. rewrite ?(get_set_ne "size") by discriminate.
    eexists. split; [reflexivity|].
    rewrite !forensic_file_unfold. cbn [fmap list_fmap].
    unfold get. cbn [lookup String.eqb Ascii.eqb Bool.eqb].
    rewrite Habsent.
    destruct Hzero as [->| ->]; reflexivity.
Qed.

End AbsentSize.

Lemma absent_size_counts_as_zero_witness :
  lookup "size" Samples.sample_item = None /\
  lookup "size_bytes" (Samples.record_of Samples.sample_item)
  = Some (VStr "0").
Proof.
  split; [reflexivity|].
  apply (absent_size_counts_as_zero (fun _ => None) (fun _ => None)
           (fun _ => None) Samples.sample_item); reflexivity.
Defined.

End SizeFacts.

(** ** The extraction scheduler *)

Module SchedulerFacts.

Section Scheduler.
Variable fromisoformat_strftime : string -> option string.
Variable int_of_str : string -> option Z.
Variable scale_size : Z -> option string.

Local Abbreviation process :=
  (_process_file fromisoformat_strftime int_of_str scale_size).
Local Abbreviation future := (fun file : dict => (file, process file)).
Local Abbreviation failed_id :=
  (fun fr : dict * option dict => get fr.1 "id" (VStr "unknown")).

Lemma process_truthy file m : process file = Some m -> truthy (VDict m) = true.
Proof.
  unfold _process_file.
  destruct (extract_file_metadata _ _ _ file) as [m'|] eqn:E; [|done].
  intros [= ->]. apply ExtractorFacts.extract_keys in E.
  by destruct m.
Qed.

(** What the loop body does to the two lists, over any sequence of
    finished futures. *)
Lemma record_results total (rs : list (dict * option dict)) acc :
  Forall (fun fr => forall m, fr.2 = Some m -> truthy (VDict m) = true) rs ->
  let p := foldl (fun acc fr => record_result total acc fr.1 fr.2) acc rs in
  all_metadata p = all_metadata acc ++ omap snd rs /\
  errors p = errors acc ++ (failed_id <$> filter (fun fr => fr.2 = None) rs) /\
  processed_count p = processed_count acc + Z.of_nat (length rs).
Proof.
  intros H. revert acc. induction H as [|[f r] rs Hr _ IH]; intros acc; simpl.
  - rewrite !app_nil_r. repeat split; lia.
  - destruct (IH (record_result total acc f r)) as (-> & -> & ->).
    destruct r as [m|].
    + rewrite filter_cons_False by (simpl; congruence).
      unfold record_result; simpl.
      pose proof (Hr m eq_refl) as Hm. simpl in Hm. rewrite Hm.
      rewrite <-app_assoc. repeat split. lia.
    + rewrite filter_cons_True by done.
      unfold record_result; csimpl.
      rewrite <-app_assoc. repeat split. lia.
Qed.

Lemma futures_truthy l :
  Forall (fun fr : dict * option dict =>
            forall m, fr.2 = Some m -> truthy (VDict m) = true) (future <$> l).
Proof.
  apply Forall_fmap, Forall_forall. intros f _ m. apply process_truthy.
Qed.


Lemma omap_futures l : omap snd (future <$> l) = successes fromisoformat_strftime int_of_str scale_size l.
Proof.
  unfold successes. induction l as [|f l IH]; csimpl; [done|].
  rewrite IH. by destruct (process f).
Qed.

Lemma failed_futures l :
  failed_id <$> filter (fun fr : dict * option dict => fr.2 = None) (future <$> l)
  = failures fromisoformat_strftime int_of_str scale_size l.
Proof.
  unfold failures. induction l as [|f l IH]; csimpl; [done|].
  rewrite !filter_cons. simpl. destruct (decide (process f = None)); csimpl; by rewrite IH.
Qed.

Lemma successes_failures_length l :
  (length (successes fromisoformat_strftime int_of_str scale_size l)
   + length (failures fromisoformat_strftime int_of_str scale_size l)
   = length l)%nat.
Proof.
  unfold successes, failures. induction l as [|f l IH]; csimpl; [done|].
  rewrite filter_cons. destruct (decide (process f = None)) as [E|E].
  - rewrite E. csimpl. lia.
  - destruct (process f); [csimpl; lia|done].
Qed.

Lemma process_sequential_futures files total acc :
  foldl (fun acc file => record_result total acc file (process file)) acc files
  = foldl (fun acc fr => record_result total acc fr.1 fr.2) acc
      (future <$> files).
Proof. by rewrite foldl_fmap. Qed.

Lemma batches_concat fuel batch_size (l : list dict) :
  (0 < batch_size)%nat -> (length l <= fuel)%nat ->
  concat (batches fuel batch_size l) = l.
Proof.
  intros Hb. revert l. induction fuel as [|fuel IH]; intros l Hl.
  - destruct l; [done|simpl in Hl; lia].
  - destruct l as [|x l]; [done|]. cbn [batches concat].
    rewrite IH; [apply take_drop|].
    rewrite length_drop. simpl in *. lia.
Qed.

Lemma snd_imap {A} (g : nat -> nat) (l : list A) :
  snd <$> imap (fun i b => (g i, b)) l = l.
Proof.
  revert g. induction l as [|x l IH]; intros g; csimpl; [done|].
  f_equal. apply (IH (g ∘ S)).
Qed.

Section Parallel.
Variable as_completed :
  nat -> list (dict * option dict) -> list (dict * option dict).
Hypothesis as_completed_perm : forall i l, as_completed i l ≡ₚ l.

(** The futures of all batches in the order they are consumed. *)
Local Abbreviation consumed nb :=
  (concat ((fun b : nat * list dict => as_completed b.1 (future <$> b.2))
             <$> nb)).

Lemma process_batches total (nb : list (nat * list dict)) acc :
  foldl (process_batch fromisoformat_strftime int_of_str scale_size
           as_completed total) acc nb
  = foldl (fun acc fr => record_result total acc fr.1 fr.2) acc (consumed nb).
Proof.
  revert acc. induction nb as [|b nb IH]; intros acc; csimpl; [done|].
  by rewrite foldl_app, IH.
Qed.

Lemma consumed_perm (nb : list (nat * list dict)) :
  consumed nb ≡ₚ future <$> concat (snd <$> nb).
Proof.
  induction nb as [|b nb IH]; csimpl; [done|].
  by rewrite fmap_app, as_completed_perm, IH.
Qed.

Lemma consumed_truthy (nb : list (nat * list dict)) :
  Forall (fun fr : dict * option dict =>
            forall m, fr.2 = Some m -> truthy (VDict m) = true) (consumed nb).
Proof.
  rewrite consumed_perm. apply futures_truthy.
Qed.

Local Abbreviation numbered all_files :=
  (imap (fun i (b : list dict) => (Nat.mul i (Nat.min 10 (length all_files)), b))
     (batches (length all_files) (Nat.min 10 (length all_files)) all_files)).

Lemma numbered_concat (all_files : list dict) :
  concat (snd <$> numbered all_files) = all_files.
Proof.
  rewrite (snd_imap (fun i => (i * Nat.min 10 (length all_files))%nat)).
  destruct all_files as [|f l]; [done|].
  apply batches_concat; simpl; lia.
Qed.

(** Both branches of the scheduler, from any starting accumulator. *)
Lemma process_sequential_spec all_files acc :
  let p := process_sequential fromisoformat_strftime int_of_str scale_size
             all_files acc in
  all_metadata p
  = all_metadata acc
    ++ successes fromisoformat_strftime int_of_str scale_size all_files /\
  errors p
  = errors acc
    ++ failures fromisoformat_strftime int_of_str scale_size all_files /\
  processed_count p = processed_count acc + Z.of_nat (length all_files).
Proof.
  unfold process_sequential. rewrite process_sequential_futures.
  destruct (record_results (length all_files) (future <$> all_files) acc
              (futures_truthy all_files)) as (-> & -> & ->).
  by rewrite omap_futures, failed_futures, length_fmap.
Qed.

Lemma process_parallel_spec all_files acc :
  let p := process_parallel fromisoformat_strftime int_of_str scale_size
             as_completed all_files acc in
  all_metadata p
  ≡ₚ all_metadata acc
     ++ successes fromisoformat_strftime int_of_str scale_size all_files /\
  errors p
  ≡ₚ errors acc
     ++ failures fromisoformat_strftime int_of_str scale_size all_files /\
  processed_count p = processed_count acc + Z.of_nat (length all_files).
Proof.
  unfold process_parallel. rewrite process_batches.
  destruct (record_results (length all_files) (consumed (numbered all_files))
              acc (consumed_truthy _)) as (-> & -> & ->).
  pose proof (consumed_perm (numbered all_files)) as Hperm.
  rewrite numbered_concat in Hperm.
  rewrite Hperm at 1 2. rewrite (Permutation_length Hperm).
  by rewrite omap_futures, failed_futures, length_fmap.
Qed.


Local Abbreviation run_files :=
  (process_files fromisoformat_strftime int_of_str scale_size as_completed).
Local Abbreviation run_folder :=
  (extract_folder fromisoformat_strftime int_of_str scale_size as_completed).
Local Abbreviation extracted :=
  (successes fromisoformat_strftime int_of_str scale_size).
Local Abbreviation failed :=
  (failures fromisoformat_strftime int_of_str scale_size).

Lemma process_files_spec max_workers all_files evs :
  all_metadata (run_files max_workers all_files evs) ≡ₚ extracted all_files /\
  errors (run_files max_workers all_files evs) ≡ₚ failed all_files /\
  processed_count (run_files max_workers all_files evs)
  = Z.of_nat (length all_files).
Proof.
  unfold process_files. cbn [all_metadata errors processed_count].
  destruct (max_workers =? 1).
  - match goal with |- context [process_sequential _ _ _ _ ?a] =>
      destruct (process_sequential_spec all_files a) as (-> & -> & ->) end.
    done.
  - match goal with |- context [process_parallel _ _ _ _ _ ?a] =>
      destruct (process_parallel_spec all_files a) as (-> & -> & ->) end.
    done.
Qed.

Lemma process_files_sequential all_files evs :
  all_metadata (run_files 1 all_files evs) = extracted all_files /\
  errors (run_files 1 all_files evs) = failed all_files.
Proof.
  unfold process_files. cbn [all_metadata errors Z.eqb Pos.eqb].
  match goal with |- context [process_sequential _ _ _ _ ?a] =>
    destruct (process_sequential_spec all_files a) as (-> & -> & _) end.
  done.
Qed.

(** C3, as the code has it. Every item of the list is processed: the
    records of the items that extract are collected, the id of each
    item that does not is appended to the list [errors], in either
    branch and whatever the other items do. [extract_folder] returns
    the records only; [errors] is dropped when it returns. *)
Theorem per_item_failures_are_counted_not_returned
  (max_workers : Z) (all_files : list dict) (evs : list event) :
  let p := run_files max_workers all_files evs in
  all_metadata p ≡ₚ extracted all_files /\
  errors p ≡ₚ failed all_files /\
  processed_count p = Z.of_nat (length all_files) /\
  (length (all_metadata p) + length (errors p) = length all_files)%nat /\
  (max_workers = 1 ->
   all_metadata p = extracted all_files /\ errors p = failed all_files) /\
  forall fuel svc folder_id include_trashed,
    all_files <> [] ->
    collect_all fuel svc folder_id include_trashed [first_event]
    = (evs, Done all_files) ->
    run_folder fuel svc max_workers folder_id include_trashed
    = (callbacks p, Done (all_metadata p)).
Proof.
  intros p. destruct (process_files_spec max_workers all_files evs)
    as (Hm & He & Hc).
  split; [done|]. split; [done|]. split; [done|]. split; [|split].
  - subst p. rewrite Hm, He. apply successes_failures_length.
  - intros ->. apply process_files_sequential.
  - intros fuel svc folder_id include_trashed Hne Hcollect.
    unfold extract_folder. rewrite Hcollect. by destruct all_files.
Qed.

(** C6. The sequential branch and the thread-pool branch collect the
    same records and the same failed ids, up to order, for every item
    list and every completion order of the pool; so do whole runs of
    [extract_folder] with one and with four workers. *)
Theorem sequential_parallel_equivalence
  (all_files : list dict) (evs : list event) :
  all_metadata (run_files (init_max_workers (Some 4)) all_files evs)
  ≡ₚ all_metadata (run_files (init_max_workers (Some 1)) all_files evs) /\
  errors (run_files (init_max_workers (Some 4)) all_files evs)
  ≡ₚ errors (run_files (init_max_workers (Some 1)) all_files evs) /\
  forall fuel svc folder_id include_trashed,
    same_outcome
      (run_folder fuel svc (init_max_workers (Some 1)) folder_id
         include_trashed).2
      (run_folder fuel svc (init_max_workers (Some 4)) folder_id
         include_trashed).2.
Proof.
  assert (forall l e,
            all_metadata (run_files (init_max_workers (Some 4)) l e)
            ≡ₚ all_metadata (run_files (init_max_workers (Some 1)) l e))
    as Hmeta.
  { intros l e.
    destruct (process_files_spec (init_max_workers (Some 4)) l e) as (-> & _).
    by destruct (process_files_spec (init_max_workers (Some 1)) l e) as (-> & _). }
  split; [apply Hmeta|split].
  - destruct (process_files_spec (init_max_workers (Some 4)) all_files evs)
      as (_ & -> & _).
    by destruct (process_files_spec (init_max_workers (Some 1)) all_files evs)
      as (_ & -> & _).
  - intros fuel svc folder_id include_trashed. unfold extract_folder.
    destruct (collect_all fuel svc folder_id include_trashed [first_event])
      as [evs' [[|f l]| |]]; simpl; try done.
    symmetry. apply Hmeta.
Qed.

End Parallel.
End Scheduler.

Import Samples.

Lemma reversed_completion_perm i l : reversed_completion i l ≡ₚ l.
Proof. apply reverse_Permutation. Qed.

Lemma per_item_failures_are_counted_not_returned_witness :
  errors (plain_process_files 4 [sample_item; broken_item "b1"; sample_item])
  ≡ₚ [VStr "b1"] /\
  length (all_metadata
            (plain_process_files 4 [sample_item; broken_item "b1"; sample_item]))
  = 2%nat.
Proof.
  destruct (per_item_failures_are_counted_not_returned
              (fun _ => None) (fun _ => None) (fun _ => None)
              reversed_completion reversed_completion_perm
              4 [sample_item; broken_item "b1"; sample_item] [])
    as (Hm & He & _).
  split; [exact He|]. apply Permutation_length in Hm. exact Hm.
Defined.

(** C3 as stated fails: two item lists whose failed items have
    different ids give the same return value, so the failed ids are not
    part of what [extract_folder] returns. *)
Lemma failed_ids_are_not_returned :
  plain_extract_folder (drive_with_broken "b1") 1 None
  = plain_extract_folder (drive_with_broken "b2") 1 None /\
  errors (plain_process_files 1 [sample_item; broken_item "b1"])
  <> errors (plain_process_files 1 [sample_item; broken_item "b2"]).
Proof.
  split.
  - vm_compute. reflexivity.
  - vm_compute. discriminate.
Qed.

Lemma sequential_parallel_equivalence_witness :
  same_outcome
    (plain_extract_folder (drive_with_broken "b1") 1 None).2
    (plain_extract_folder (drive_with_broken "b1") 4 None).2.
Proof.
  destruct (sequential_parallel_equivalence
              (fun _ => None) (fun _ => None) (fun _ => None)
              reversed_completion reversed_completion_perm [] [])
    as (_ & _ & H).
  exact (H 16%nat (drive_with_broken "b1") None false).
Defined.

End SchedulerFacts.

(** ** The job controller *)

Module ControllerFacts.
Import WebApp.

Section Controller.
Variable env : environment.

Lemma run_alone_S a n wp :
  run_alone env a (S n) wp = run_alone env a n (advance env a wp).
Proof. unfold run_alone. apply Nat.iter_succ_r. Qed.

Lemma run_alone_add a n m wp :
  run_alone env a (n + m) wp = run_alone env a m (run_alone env a n wp).
Proof.
  unfold run_alone. rewrite Nat.add_comm. apply Nat.iter_add.
Qed.

Lemma ends_quietly_end a w : ends_quietly env a w PcEnd.
Proof. exists 0%nat, w. split; [done|]. split; [by right|done]. Qed.

Lemma ends_quietly_step a w p w1 p1 :
  advance env a (w, p) = (w1, p1) ->
  status (state w1) = status (state w) ->
  metadata (state w1) = metadata (state w) ->
  exports w1 = exports w ->
  ends_quietly env a w1 p1 -> ends_quietly env a w p.
Proof.
  intros Hstep Hs Hm He (n & w' & Hrun & Hs' & Hm' & He').
  exists (S n), w'. rewrite run_alone_S, Hstep.
  split; [done|]. rewrite <-Hs, <-Hm, <-He. done.
Qed.

(** A check that finds the flag set ends the activation. *)
Lemma ends_quietly_check (w : world) (next : pc) :
  stop_event w = true ->
  exists w',
    (let '(w1, p1) := check_stop w next in (tick w1, p1)) = (w', PcEnd) /\
    status (state w') = Stopped /\
    metadata (state w') = metadata (state w) /\
    exports w' = exports w.
Proof.
  intros H. unfold check_stop. rewrite H. simpl. eexists. by repeat split.
Qed.

Ltac at_check H :=
  let w' := fresh "w'" in
  let Hrun := fresh "Hrun" in
  let Hs := fresh "Hs" in
  let Hm := fresh "Hm" in
  let He := fresh "He" in
  match goal with
  | |- ends_quietly _ ?a ?w ?p =>
      match eval cbv beta iota delta [thread_step] in (thread_step env a p w) with
      | check_stop _ ?next =>
          destruct (ends_quietly_check w next H) as (w' & Hrun & Hs & Hm & He);
          exists 1%nat, w'; split; [exact Hrun|split; [by left|done]]
      end
  end.

Lemma ends_quietly_except a w e :
  stop_event w = true -> ends_quietly env a w (PcExcept e).
Proof.
  intros H. exists 1%nat, (tick w). split.
  - unfold run_alone, advance. simpl. by rewrite H.
  - split; [by right|done].
Qed.

Lemma ends_quietly_after a w res :
  stop_event w = true -> res <> OutOfFuel ->
  ends_quietly env a w (after_callbacks res).
Proof.
  intros H Hres. destruct res as [md|e|]; simpl; [|by apply ends_quietly_except|done].
  at_check H.
Qed.

Lemma ends_quietly_next a pending res w :
  stop_event w = true -> res <> OutOfFuel ->
  ends_quietly env a w (next_callback pending res).
Proof.
  intros H Hres. revert w H.
  induction pending as [|ev rest IH]; intros w H; simpl.
  - by apply ends_quietly_after.
  - eapply (ends_quietly_step _ _ _ (tick w)); [| | | |apply IH]; try done.
    unfold advance. simpl. by rewrite H.
Qed.

Lemma ends_quietly_callback a phase pending res w :
  stop_event w = true -> res <> OutOfFuel ->
  ends_quietly env a w (PcCallback phase pending res).
Proof.
  intros H Hres. destruct pending as [|ev rest].
  - eapply (ends_quietly_step _ _ _ (tick w) (after_callbacks res));
      [|done..|by apply ends_quietly_after].
    unfold advance. simpl. by destruct phase.
  - eapply (ends_quietly_step _ _ _ (tick w) (next_callback rest res));
      [|done..|by apply ends_quietly_next].
    unfold advance. simpl. destruct phase; rewrite H; simpl; [done|].
    by rewrite andb_false_r.
Qed.


Lemma classic_export p :
  (exists fmt md, p = PcExport fmt md) \/ (forall fmt md, p <> PcExport fmt md).
Proof. destruct p; eauto. Qed.

Ltac quiet_step :=
  eapply ends_quietly_step;
  [unfold advance; simpl; reflexivity|simpl; done..|].

Lemma ends_quietly_stoppable a w p :
  stop_event w = true -> stoppable env a p ->
  (forall fmt md, p <> PcExport fmt md) ->
  ends_quietly env a w p.
Proof.
  intros H Hp Hexp.
  destruct p; simpl in Hp; try done; try (by at_check H).
  - quiet_step. by at_check H.
  - eapply (ends_quietly_step _ _ _ (tick w)
              (match authenticate env with
               | Ok svc =>
                   if test_connection env svc then PcProgressInit svc
                   else PcExcept
                          (Exception
                             "Could not establish connection with Google Drive")
               | Raise e => PcExcept e
               end)); try done.
    { unfold advance. simpl. destruct (authenticate env) as [svc|e]; [|done].
      by destruct (test_connection env svc). }
    destruct (authenticate env) as [svc|e]; [|by apply ends_quietly_except].
    destruct (test_connection env svc); [|by apply ends_quietly_except].
    quiet_step. by at_check H.
  - quiet_step. by at_check H.
  - destruct (extract_folder _ _ _ _ _ _ _ _ _) as [evs res] eqn:E.
    eapply (ends_quietly_step _ _ _ (tick w) (next_callback evs res));
      try done.
    { unfold advance. simpl. by rewrite E. }
    by apply ends_quietly_next.
  - apply ends_quietly_callback; [done|]. by destruct res.
  - destruct md.
    + quiet_step. by apply ends_quietly_except.
    + quiet_step. by at_check H.
  - quiet_step. by at_check H.
  - by destruct (Hexp fmt md).
  - by apply ends_quietly_except.
  - apply ends_quietly_end.
Qed.

Lemma export_then_quiet a w fmt md :
  stop_event w = true ->
  exists w1 p1,
    advance env a (w, PcExport fmt md) = (w1, p1) /\
    stop_event w1 = true /\ state w1 = state w /\
    (exports w1 = exports w \/ exports w1 = exports w ++ [(output_name a, fmt)])
    /\ ends_quietly env a w1 p1.
Proof.
  intros H. unfold advance. simpl.
  destruct (has_format fmt (export_formats a)).
  - destruct (create_forensic_hash_data md) as [v|e].
    + destruct (exporter_raises env fmt).
      * eexists _, _. split; [done|]. simpl. repeat split; [done|by left|].
        by apply ends_quietly_except.
      * eexists _, _. split; [done|]. simpl. repeat split; [done|by right|].
        destruct fmt; simpl; by at_check H.
    + eexists _, _. split; [done|]. simpl. repeat split; [done|by left|].
      by apply ends_quietly_except.
  - eexists _, _. split; [done|]. simpl. repeat split; [done|by left|].
    destruct fmt; simpl; by at_check H.
Qed.

Lemma stop_is_honoured_alone
  (a : job_args) (w : world) (p : pc)
  (Hstop : stop_event w = true) (Hp : stoppable env a p) :
  (exists n w',
     run_alone env a n (w, p) = (w', PcEnd) /\
     (status (state w') = Stopped \/ status (state w') = status (state w)) /\
     metadata (state w') = metadata (state w) /\
     (exports w' = exports w \/
      exists fmt md,
        p = PcExport fmt md /\
        exports w' = exports w ++ [(output_name a, fmt)])) /\
  (forall w0,
     (status (state w0) = Running \/ status (state w0) = Paused ->
      stop_event (stop_extraction w0) = true /\
      state (stop_extraction w0) = fresh_state "Extraction stopped by user" /\
      exports (stop_extraction w0) = exports w0) /\
     (status (state w0) <> Running -> status (state w0) <> Paused ->
      stop_extraction w0 = w0)).
Proof.
  split.
  - destruct (classic_export p) as [(fmt & md & ->)|Hne].
    + destruct (export_then_quiet a w fmt md Hstop)
        as (w1 & p1 & Hstep & Hstop1 & Hst & Hexp & n & w' & Hrun & Hs & Hm & He).
      exists (S n), w'. rewrite run_alone_S, Hstep, Hst in *.
      split; [done|]. split; [done|]. split; [done|].
      rewrite He. destruct Hexp as [->| ->]; [by left|right; eauto].
    + destruct (ends_quietly_stoppable a w p Hstop Hp Hne)
        as (n & w' & Hrun & Hs & Hm & He).
      exists n, w'. split; [done|]. split; [done|]. split; [done|]. by left.
  - intros w0. unfold stop_extraction. split.
    + by intros [-> | ->].
    + by destruct (status (state w0)).
Qed.


(** The job thread neither reads nor writes the list of threads, so
    its steps on its own are the steps [Run 0] of the system when it is
    the only thread. *)
Lemma thread_step_with_threads a p w ts :
  thread_step env a p (with_threads w ts)
  = (with_threads (thread_step env a p w).1 ts, (thread_step env a p w).2).
Proof.
  destruct p; simpl; unfold check_stop, stopped_here; simpl;
    repeat case_match; reflexivity.
Qed.

Lemma thread_step_threads a p w :
  threads (thread_step env a p w).1 = threads w.
Proof.
  destruct p; simpl; unfold check_stop, stopped_here; simpl;
    repeat case_match; reflexivity.
Qed.

Lemma run_alone_with_threads n a w p ts ts' :
  with_threads (run_alone env a n (with_threads w ts, p)).1 ts'
  = with_threads (run_alone env a n (w, p)).1 ts' /\
  (run_alone env a n (with_threads w ts, p)).2 = (run_alone env a n (w, p)).2.
Proof.
  revert w p. induction n as [|n IH]; intros w p; [done|].
  rewrite !run_alone_S. unfold advance. cbn [fst snd].
  rewrite thread_step_with_threads.
  destruct (thread_step env a p w) as [w1 p1]. cbn [fst snd].
  apply (IH (tick w1)).
Qed.

Lemma run_trace_alone n a p w :
  threads w = [{| args := a; at_pc := p |}] ->
  run_trace env w (replicate n (Run 0%nat))
  = with_threads (run_alone env a n (w, p)).1
      [{| args := a; at_pc := (run_alone env a n (w, p)).2 |}].
Proof.
  revert p w. induction n as [|n IH]; intros p w Hw.
  - simpl. destruct w; simpl in *. by rewrite Hw.
  - rewrite run_alone_S. cbn [replicate run_trace foldl].
    change (foldl (step env) ?x ?l) with (run_trace env x l).
    unfold step, run_thread. rewrite Hw.
    change ([_] !! 0%nat) with (Some {| args := a; at_pc := p |}).
    cbn [args at_pc].
    pose proof (thread_step_threads a p w) as Ht.
    destruct (thread_step env a p w) as [w1 p1] eqn:E.
    simpl in Ht. rewrite Ht, Hw. cbn [insert list_insert].
    rewrite (IH p1); [|done]. unfold advance. simpl. rewrite E.
    destruct (run_alone_with_threads n a (tick w1) p1
                [{| args := a; at_pc := p1 |}]
                [{| args := a;
                    at_pc := (run_alone env a n (tick w1, p1)).2 |}])
      as [H1 H2].
    change (tick _) with (with_threads (tick w1) [{| args := a; at_pc := p1 |}])
      at 1 2.
    by rewrite H2, H1.
Qed.

(** With neither flag set, the callbacks of the extraction are consumed
    one per step and only touch the progress fields. *)
Lemma callbacks_run a pending res w :
  stop_event w = false -> pause_event w = false ->
  exists w',
    run_alone env a (length pending) (w, next_callback pending res)
    = (w', after_callbacks res) /\
    stop_event w' = false /\ pause_event w' = false /\
    status (state w') = status (state w) /\
    metadata (state w') = metadata (state w) /\
    error (state w') = error (state w) /\
    exports w' = exports w.
Proof.
  revert w. induction pending as [|ev rest IH]; intros w Hs Hp.
  - exists w. by repeat split.
  - cbn [length]. rewrite run_alone_S.
    unfold advance. cbn [next_callback thread_step fst snd]. rewrite Hs, Hp.
    destruct (IH (tick (with_state w (update_progress (clock w) ev (state w)))))
      as (w' & Hrun & ? & ? & ? & ? & ? & ?); [done..|].
    exists w'. by repeat split.
Qed.

Lemma start_up a w svc evs res :
  authenticate env = Ok svc -> test_connection env svc = true ->
  extract_folder (fromisoformat_strftime env) (int_of_str env)
    (scale_size env) (as_completed env) (fuel env) svc
    (init_max_workers (workers a)) (folder_id a) (include_trashed a)
  = (evs, res) ->
  exists w9,
    run_alone env a 9 (w, PcClearEvents) = (w9, next_callback evs res) /\
    stop_event w9 = false /\ pause_event w9 = false /\
    status (state w9) = Running /\ metadata (state w9) = None /\
    error (state w9) = None /\ exports w9 = exports w.
Proof.
  intros Hauth Htest Hextract.
  do 9 (rewrite run_alone_S; unfold advance at 1;
        cbn [thread_step check_stop fst snd stop_event with_state tick];
        rewrite ?Hauth, ?Htest, ?Hextract;
        cbn [thread_step check_stop fst snd stop_event with_state tick]).
  eexists. split; [reflexivity|]. by repeat split.
Qed.


Lemma empty_traversal_alone
  (a : job_args) (w : world) (svc : service) (evs : list event)
  (Hauth : authenticate env = Ok svc)
  (Htest : test_connection env svc = true)
  (Hempty :
     collect_all (fuel env) svc (folder_id a) (include_trashed a)
       [first_event] = (evs, Done [])) :
  extract_folder (fromisoformat_strftime env) (int_of_str env)
    (scale_size env) (as_completed env) (fuel env) svc
    (init_max_workers (workers a)) (folder_id a) (include_trashed a)
  = (evs ++ [no_files_event], Done []) /\
  exists n w',
    run_alone env a n (w, PcClearEvents) = (w', PcEnd) /\
    status (state w') = Error /\
    error (state w') = Some "No files found to extract" /\
    metadata (state w') = None /\
    exports w' = exports w.
Proof.
  assert (extract_folder (fromisoformat_strftime env) (int_of_str env)
            (scale_size env) (as_completed env) (fuel env) svc
            (init_max_workers (workers a)) (folder_id a) (include_trashed a)
          = (evs ++ [no_files_event], Done [])) as Hextract.
  { unfold extract_folder. by rewrite Hempty. }
  split; [done|].
  destruct (start_up a w svc _ _ Hauth Htest Hextract)
    as (w9 & H9 & Hs9 & Hp9 & Hst9 & Hm9 & He9 & Hx9).
  destruct (callbacks_run a (evs ++ [no_files_event]) (Done []) w9 Hs9 Hp9)
    as (wc & Hc & Hsc & Hpc & Hstc & Hmc & Hec & Hxc).
  exists (9 + (length (evs ++ [no_files_event]) + 3))%nat.
  rewrite !run_alone_add, H9, Hc.
  do 3 (rewrite run_alone_S; unfold advance at 1;
        cbn [after_callbacks thread_step check_stop fst snd stop_event
               with_state tick];
        unfold check_stop; rewrite ?Hsc;
        cbn [after_callbacks thread_step check_stop fst snd stop_event
               with_state tick]).
  eexists. split; [reflexivity|]. simpl. repeat split; congruence.
Qed.

(** C2, as the code has it. When the traversal finds no item,
    [extract_folder] reports the phase ["error"] and returns the empty
    list; [run_extraction] then raises ["No files found to extract"],
    and a job that is left alone ends in the [Error] state, with that
    text as its error, no metadata and no export written. *)
Theorem empty_traversal_ends_in_error
  (a : job_args) (w : world) (svc : service) (evs : list event)
  (Hjob : threads w = [{| args := a; at_pc := PcClearEvents |}])
  (Hauth : authenticate env = Ok svc)
  (Htest : test_connection env svc = true)
  (Hempty :
     collect_all (fuel env) svc (folder_id a) (include_trashed a)
       [first_event] = (evs, Done [])) :
  extract_folder (fromisoformat_strftime env) (int_of_str env)
    (scale_size env) (as_completed env) (fuel env) svc
    (init_max_workers (workers a)) (folder_id a) (include_trashed a)
  = (evs ++ [no_files_event], Done []) /\
  exists n,
    let w' := run_trace env w (replicate n (Run 0%nat)) in
    threads w' = [{| args := a; at_pc := PcEnd |}] /\
    status (state w') = Error /\
    error (state w') = Some "No files found to extract" /\
    metadata (state w') = None /\
    exports w' = exports w.
Proof.
  destruct (empty_traversal_alone a w svc evs Hauth Htest Hempty)
    as (Hextract & n & w' & Hrun & Hs & He & Hm & Hx).
  split; [done|]. exists n. cbn zeta.
  rewrite (run_trace_alone n a PcClearEvents w Hjob), Hrun. by simpl.
Qed.

(** C4, as the code has it. [stop_extraction] is accepted only while
    the status is running or paused; it sets the stop flag and puts the
    state back to its initial value (status idle). Once the flag is
    set, the job thread, from any point after its start-up and before
    its last critical section, comes to an end without populating
    [metadata], with status [Stopped] - or, when it ends in the
    exception handler, with the status it had - and without writing any
    export other than the one it may be in the middle of. The progress
    callback is among these points and does not end the extraction:
    the flag is acted on by the checks of [run_extraction] itself. *)
Theorem stop_is_honoured_at_controller_checks
  (a : job_args) (w : world) (p : pc)
  (Hjob : threads w = [{| args := a; at_pc := p |}])
  (Hstop : stop_event w = true) (Hp : stoppable env a p) :
  (exists n,
     let w' := run_trace env w (replicate n (Run 0%nat)) in
     threads w' = [{| args := a; at_pc := PcEnd |}] /\
     (status (state w') = Stopped \/ status (state w') = status (state w)) /\
     metadata (state w') = metadata (state w) /\
     (exports w' = exports w \/
      exists fmt md,
        p = PcExport fmt md /\
        exports w' = exports w ++ [(output_name a, fmt)])) /\
  (forall w0,
     (status (state w0) = Running \/ status (state w0) = Paused ->
      stop_event (stop_extraction w0) = true /\
      state (stop_extraction w0) = fresh_state "Extraction stopped by user" /\
      exports (stop_extraction w0) = exports w0) /\
     (status (state w0) <> Running -> status (state w0) <> Paused ->
      stop_extraction w0 = w0)).
Proof.
  destruct (stop_is_honoured_alone a w p Hstop Hp)
    as ((n & w' & Hrun & Hs & Hm & Hx) & Hreq).
  split; [|done]. exists n. cbn zeta.
  rewrite (run_trace_alone n a p w Hjob), Hrun. by simpl.
Qed.

End Controller.

Import Samples Scenarios.

Lemma empty_traversal_ends_in_error_witness :
  exists n,
    status (state (run_trace (sample_env empty_drive) job_started
                     (replicate n (Run 0%nat)))) = Error.
Proof.
  destruct (empty_traversal_ends_in_error (sample_env empty_drive)
              sample_args job_started empty_drive [first_event]
              eq_refl eq_refl eq_refl eq_refl) as (_ & n & _ & Hs & _).
  exists n. exact Hs.
Defined.

(** C2 as stated fails: a job on an empty Drive ends in the error
    state, not successfully, and writes no export, not an empty one. *)
Lemma empty_result_is_an_error :
  status (state empty_run) = Error /\
  error (state empty_run) = Some "No files found to extract" /\
  exports empty_run = [] /\
  (at_pc <$> threads empty_run) = [PcEnd].
Proof. vm_compute. by repeat split. Qed.

Lemma stop_is_honoured_at_controller_checks_witness :
  stop_event stop_requested = true /\
  exists n,
    metadata (state (run_trace (sample_env small_drive) stop_requested
                       (replicate n (Run 0%nat)))) = None.
Proof.
  split; [reflexivity|].
  destruct (stop_is_honoured_at_controller_checks (sample_env small_drive)
              sample_args stop_requested
              (PcExportCheck json [record_of sample_item])
              eq_refl eq_refl I)
    as ((n & _ & _ & Hm & _) & _).
  exists n. rewrite Hm. reflexivity.
Defined.

(** C4 as stated fails twice over: a job stopped after its CSV export
    ends as [Stopped] with that file written; and a stop issued while
    the scheduler reports progress is not acted on at the next
    per-item callback, where the job is still running its callbacks
    with the status left at [Idle]. *)
Lemma stopped_job_has_written_an_export :
  (status (state stop_after_csv) = Stopped /\
   exports stop_after_csv = [("forensic_metadata", csv)] /\
   (at_pc <$> threads stop_after_csv) = [PcEnd]) /\
  (status (state stop_during_processing) = Idle /\
   stop_event stop_during_processing = true /\
   exists pending res,
     (at_pc <$> threads stop_during_processing)
     = [PcCallback CbEnter pending res] /\ length pending = 3%nat).
Proof.
  split.
  - vm_compute. by repeat split.
  - split; [|split]; [vm_compute; reflexivity..|].
    eexists _, _. split; vm_compute; reflexivity.
Qed.

(** C9: the state the controller reaches when a second job is started
    while the first is paused: status [Error] with the first job's
    records in [metadata]. *)
Lemma metadata_populated_outside_completed :
  status (state start_while_paused) = Error /\
  metadata (state start_while_paused) = Some [record_of sample_item] /\
  (at_pc <$> threads start_while_paused) = [PcEnd; PcEnd].
Proof. vm_compute. by repeat split. Qed.

End ControllerFacts.

(** ** The traverser *)

Module TraverserFacts.

Section Graph.
Variable svc : service.
Variable include_trashed : bool.

Local Abbreviation reach := (reachable svc include_trashed).
Local Abbreviation subs := (subfolders svc include_trashed).
Local Abbreviation lvs := (leaves svc include_trashed).
Local Abbreviation expl := (explored svc include_trashed).

Lemma reachable_trans a b c : reach a b -> reach b c -> reach a c.
Proof.
  intros Hab Hbc. induction Hbc as [|v c' _ IH Hc]; [done|].
  by eapply reachable_child.
Qed.

Lemma reachable_sub v c : c ∈ subs v -> reach v c.
Proof. intros. eapply reachable_child; [apply reachable_root|done]. Qed.

Lemma truthy_ids_cons folder rest :
  truthy_ids (folder :: rest)
  = if truthy (get folder "id" VNone)
    then get folder "id" VNone :: truthy_ids rest
    else truthy_ids rest.
Proof.
  unfold truthy_ids. csimpl. rewrite filter_cons.
  destruct (truthy (get folder "id" VNone)); by case_decide.
Qed.

Lemma truthy_ids_app l1 l2 :
  truthy_ids (l1 ++ l2) = truthy_ids l1 ++ truthy_ids l2.
Proof. unfold truthy_ids. by rewrite fmap_app, filter_app. Qed.

Lemma subfolder_ids_app l1 l2 :
  subfolder_ids (l1 ++ l2) = subfolder_ids l1 ++ subfolder_ids l2.
Proof. unfold subfolder_ids. by rewrite filter_app, truthy_ids_app. Qed.

Lemma leaf_items_app l1 l2 :
  leaf_items (l1 ++ l2) = leaf_items l1 ++ leaf_items l2.
Proof. unfold leaf_items. by rewrite filter_app. Qed.

(** *** Bookkeeping for [explored] *)

Lemma explored_mono acc V roots st out :
  expl acc V roots (st, Done out) -> V ⊆ visited st.
Proof.
  intros (order & _ & _ & _ & HV & _). simpl in HV. rewrite HV.
  apply union_subseteq_l.
Qed.

Lemma explored_nothing acc st :
  expl acc (visited st) [] (st, Done acc).
Proof.
  exists []. simpl. split_and!.
  - constructor.
  - constructor.
  - intros k Hk. by apply not_elem_of_nil in Hk.
  - by rewrite (right_id_L ∅ (∪)).
  - by rewrite app_nil_r.
  - intros u Hu. by apply not_elem_of_nil in Hu.
  - intros u c Hu. by apply not_elem_of_nil in Hu.
  - intros c Hc. by apply not_elem_of_nil in Hc.
Qed.

Lemma explored_shift acc V roots st sub :
  expl [] V roots (st, Done sub) -> expl acc V roots (st, Done (acc ++ sub)).
Proof.
  intros (order & ? & ? & ? & ? & Hperm & ? & ? & ?). exists order.
  simpl in *. split_and!; try done. by rewrite Hperm.
Qed.

Lemma explored_root acc V roots r c k :
  expl acc V roots r -> hash_key c = Some k -> k ∈ V ->
  expl acc V (c :: roots) r.
Proof.
  unfold explored. destruct r as [st [out| |]]; simpl; [|done..].
  intros (order & H1 & H2 & H3 & H4 & H5 & H6 & H7 & H8) Hk HV.
  exists order. split_and!; try done.
  - intros u Hu. destruct (H6 u Hu) as (r0 & ? & ?). exists r0. set_solver.
  - intros c' [->|Hc]%elem_of_cons; [|by apply H8].
    exists k. split; [done|]. rewrite H4. set_solver.
Qed.

Lemma explored_seq acc X V roots1 roots2 st1 out1 r2 :
  expl acc V roots1 (st1, Done out1) ->
  expl (out1 ++ X) (visited st1) roots2 r2 ->
  expl (acc ++ X) V (roots1 ++ roots2) r2.
Proof.
  unfold explored. destruct r2 as [st2 [out2| |]]; simpl; [|done..].
  intros (o1 & F1 & N1 & D1 & V1 & P1 & R1 & C1 & T1)
         (o2 & F2 & N2 & D2 & V2 & P2 & R2 & C2 & T2).
  exists (o1 ++ o2). rewrite !fmap_app.
  assert (visited st1 ⊆ visited st2) as Hmono
    by (rewrite V2; apply union_subseteq_l).
  split_and!.
  - by apply Forall_app.
  - apply NoDup_app. repeat split; [done| |done].
    intros k Hk1 Hk2. apply (D2 k Hk2). rewrite V1. set_solver.
  - intros k [Hk|Hk]%elem_of_app; [by apply D1|].
    intros HkV. apply (D2 k Hk). rewrite V1. set_solver.
  - rewrite V2, V1, list_to_set_app_L. set_solver.
  - rewrite P2, P1, concat_app.
    rewrite <-!app_assoc. f_equiv. rewrite !app_assoc. f_equiv.
    apply Permutation_app_comm.
  - intros u [Hu|Hu]%elem_of_app.
    + destruct (R1 u Hu) as (r0 & ? & ?). exists r0. set_solver.
    + destruct (R2 u Hu) as (r0 & ? & ?). exists r0. set_solver.
  - intros u c [Hu|Hu]%elem_of_app Hc.
    + destruct (C1 u c Hu Hc) as (k & ? & ?). exists k. set_solver.
    + by apply (C2 u c).
  - intros c [Hc|Hc]%elem_of_app.
    + destruct (T1 c Hc) as (k & ? & ?). exists k. set_solver.
    + by apply T2.
Qed.


(** *** The walk *)

Variable U : gset hkey.

Local Abbreviation collect fuel :=
  (_collect_files_recursively fuel svc include_trashed).

Lemma within_sub v c : within svc include_trashed U v -> c ∈ subs v ->
  within svc include_trashed U c.
Proof.
  intros Hv Hc u k Hu Hk. apply (Hv u k); [|done].
  eapply reachable_trans; [|done]. by apply reachable_sub.
Qed.

Lemma size_unvisited_mono (V V' : gset hkey) :
  V ⊆ V' -> (size (U ∖ V') <= size (U ∖ V))%nat.
Proof. intros. apply subseteq_size. set_solver. Qed.

Lemma size_unvisited_mark (V : gset hkey) k :
  k ∈ U -> k ∉ V -> (size (U ∖ ({[k]} ∪ V)) < size (U ∖ V))%nat.
Proof.
  intros HU HV. apply subset_size. set_solver.
Qed.

Section Step.

(** The recursive call is assumed to behave; the loops inherit it. *)
Variable fuel' : nat.
Variable recurse : value -> tstate -> tstate * outcome (list dict).
Hypothesis recurse_explored :
  forall v st,
    within svc include_trashed U v ->
    (size (U ∖ visited st) < fuel')%nat ->
    expl [] (visited st) [v] (recurse v st).

Lemma scan_folders_explored folders acc st :
  (forall c, c ∈ truthy_ids folders -> within svc include_trashed U c) ->
  (size (U ∖ visited st) < fuel')%nat ->
  expl acc (visited st) (truthy_ids folders)
    (scan_folders recurse folders acc st).
Proof.
  revert acc st. induction folders as [|folder rest IH]; intros acc st HU Hsize.
  { apply explored_nothing. }
  rewrite truthy_ids_cons in HU |- *. cbn [scan_folders].
  destruct (truthy (get folder "id" VNone)) eqn:Htruthy; [|by apply IH].
  destruct (hash_key (get folder "id" VNone)) as [k|] eqn:Hk; [|done].
  assert (forall c, c ∈ truthy_ids rest -> within svc include_trashed U c)
    as HUrest by (intros; apply HU; set_solver).
  destruct (decide (k ∈ visited st)) as [Hin|Hnotin].
  { eapply explored_root; [by apply IH|done..]. }
  pose proof (recurse_explored (get folder "id" VNone) st) as Hrec.
  destruct (recurse (get folder "id" VNone) st) as [st' [sub| |]].
  - specialize (Hrec ltac:(apply HU; set_solver) Hsize).
    pose proof (explored_mono _ _ _ _ _ Hrec) as Hmono.
    apply (explored_shift acc) in Hrec.
    assert (expl ((acc ++ sub) ++ []) (visited st') (truthy_ids rest)
              (scan_folders recurse rest (acc ++ sub) st')) as Hrest.
    { rewrite app_nil_r. apply IH; [done|].
      pose proof (size_unvisited_mono _ _ Hmono). lia. }
    pose proof (explored_seq acc [] _ _ _ _ _ _ Hrec Hrest) as H.
    by rewrite app_nil_r in H.
  - done.
  - by apply Hrec; [apply HU; set_solver|].
Qed.

Lemma scan_pages_explored pages acc st :
  (forall c, c ∈ subfolder_ids (listed pages) ->
     within svc include_trashed U c) ->
  (size (U ∖ visited st) < fuel')%nat ->
  expl (acc ++ leaf_items (listed pages)) (visited st)
    (subfolder_ids (listed pages))
    (scan_pages recurse pages acc st).
Proof.
  revert acc st. induction pages as [|pg rest IH]; intros acc st HU Hsize.
  { simpl. rewrite app_nil_r. apply explored_nothing. }
  destruct pg as [msg|[|f files]].
  - done.
  - simpl. rewrite app_nil_r. apply explored_nothing.
  - cbn [scan_pages listed] in HU |- *.
    rewrite subfolder_ids_app in HU |- *. rewrite leaf_items_app.
    set (st_e := emit _ st).
    pose proof (scan_folders_explored
                  (filter (fun f => is_folder f = true) (f :: files))
                  (acc ++ filter (fun f => is_folder f = false) (f :: files))
                  st_e) as Hfolders.
    destruct (scan_folders recurse _ _ st_e) as [st1 [out1| |]] eqn:E.
    + specialize (Hfolders ltac:(intros; apply HU; set_solver) Hsize).
      pose proof (explored_mono _ _ _ _ _ Hfolders) as Hmono.
      rewrite app_assoc. eapply explored_seq; [exact Hfolders|].
      apply IH; [intros; apply HU; set_solver|].
      pose proof (size_unvisited_mono _ _ Hmono). simpl in *. lia.
    + done.
    + by apply Hfolders; [intros; apply HU; set_solver|].
Qed.


Hypothesis recurse_returns :
  forall v st,
    within svc include_trashed U v -> no_fault svc include_trashed v ->
    (size (U ∖ visited st) < fuel')%nat ->
    exists st' out, recurse v st = (st', Done out).

Lemma scan_folders_returns folders acc st :
  (forall c, c ∈ truthy_ids folders ->
     within svc include_trashed U c /\ no_fault svc include_trashed c) ->
  (size (U ∖ visited st) < fuel')%nat ->
  exists st' out, scan_folders recurse folders acc st = (st', Done out).
Proof.
  revert acc st. induction folders as [|folder rest IH]; intros acc st HU Hsize.
  { by eexists _, _. }
  rewrite truthy_ids_cons in HU. cbn [scan_folders].
  destruct (truthy (get folder "id" VNone)) eqn:Htruthy; [|by apply IH].
  assert (forall c, c ∈ truthy_ids rest ->
            within svc include_trashed U c /\ no_fault svc include_trashed c)
    as HUrest by (intros; apply HU; set_solver).
  destruct (HU (get folder "id" VNone)) as [Hwithin Hfault]; [set_solver|].
  destruct (Hfault _ (reachable_root _ _ _)) as [[k Hk] _]. rewrite Hk.
  destruct (decide (k ∈ visited st)); [by apply IH|].
  pose proof (recurse_explored _ st Hwithin Hsize) as Hexpl.
  destruct (recurse_returns _ st Hwithin Hfault Hsize) as (st' & sub & E).
  rewrite E in Hexpl |- *. apply IH; [done|].
  pose proof (size_unvisited_mono _ _ (explored_mono _ _ _ _ _ Hexpl)). lia.
Qed.

Lemma scan_pages_returns pages acc st :
  pages_ok pages ->
  (forall c, c ∈ subfolder_ids (listed pages) ->
     within svc include_trashed U c /\ no_fault svc include_trashed c) ->
  (size (U ∖ visited st) < fuel')%nat ->
  exists st' out, scan_pages recurse pages acc st = (st', Done out).
Proof.
  revert acc st. induction pages as [|pg rest IH]; intros acc st Hok HU Hsize.
  { by eexists _, _. }
  destruct pg as [msg|[|f files]]; [done|by eexists _, _|].
  cbn [scan_pages listed pages_ok] in Hok, HU |- *.
  rewrite subfolder_ids_app in HU.
  set (st_e := emit _ st).
  pose proof (scan_folders_explored
                (filter (fun f => is_folder f = true) (f :: files))
                (acc ++ filter (fun f => is_folder f = false) (f :: files))
                st_e) as Hexpl.
  destruct (scan_folders_returns
              (filter (fun f => is_folder f = true) (f :: files))
              (acc ++ filter (fun f => is_folder f = false) (f :: files))
              st_e) as (st1 & out1 & E);
    [intros; apply HU; set_solver|done|].
  rewrite E in Hexpl |- *. apply IH; [done|intros; apply HU; set_solver|].
  specialize (Hexpl ltac:(intros; apply HU; set_solver) Hsize).
  pose proof (size_unvisited_mono _ _ (explored_mono _ _ _ _ _ Hexpl)).
  simpl in *. lia.
Qed.

End Step.


Lemma explored_enter v k V st out :
  hash_key v = Some k -> k ∉ V ->
  expl (lvs v) ({[k]} ∪ V) (subs v) (st, Done out) ->
  expl [] V [v] (st, Done out).
Proof.
  intros Hk HV (order & F & N & D & HVis & P & R & C & T). simpl in *.
  exists ((v, k) :: order). csimpl. split_and!.
  - by constructor.
  - constructor; [|done]. intros Hin. apply (D k Hin). set_solver.
  - intros k' [->|Hk']%elem_of_cons; [done|].
    intros Hin. apply (D k' Hk'). set_solver.
  - rewrite HVis. set_solver.
  - by rewrite P.
  - intros u [->|Hu]%elem_of_cons.
    + exists v. split; [set_solver|apply reachable_root].
    + destruct (R u Hu) as (r0 & Hr0 & Hreach). exists v.
      split; [set_solver|].
      eapply reachable_trans; [|done]. by apply reachable_sub.
  - intros u c [->|Hu]%elem_of_cons Hc; [by apply T|by apply (C u c)].
  - intros c ->%list_elem_of_singleton. exists k. split; [done|].
    rewrite HVis. set_solver.
Qed.

(** The invariant of the walk: with more fuel than containers left to
    visit, a call never runs out of fuel, and a call that returns has
    explored what lies below its folder. *)
Lemma collect_explored fuel v st :
  within svc include_trashed U v ->
  (size (U ∖ visited st) < fuel)%nat ->
  expl [] (visited st) [v] (collect fuel v st).
Proof.
  revert v st. induction fuel as [|fuel' IH]; intros v st HU Hsize; [lia|].
  cbn [_collect_files_recursively].
  destruct (hash_key v) as [k|] eqn:Hk; [|done].
  destruct (decide (k ∈ visited st)) as [Hin|Hnotin].
  { eapply explored_root; [apply explored_nothing|done..]. }
  pose proof (scan_pages_explored fuel' (collect fuel') IH
                (folder_pages svc include_trashed v) []
                (mark_visited k st)) as Hscan.
  unfold folder_pages in Hscan at 4.
  destruct (scan_pages _ _ _ (mark_visited k st)) as [st' [out|e|]] eqn:E.
  - apply (explored_enter v k); [done..|]. apply Hscan.
    + intros c Hc. by apply (within_sub v).
    + simpl. assert (k ∈ U) as HkU
        by (apply (HU v k); [apply reachable_root|done]).
      pose proof (size_unvisited_mark (visited st) k HkU Hnotin). lia.
  - by destruct e.
  - apply Hscan.
    + intros c Hc. by apply (within_sub v).
    + simpl. assert (k ∈ U) as HkU
        by (apply (HU v k); [apply reachable_root|done]).
      pose proof (size_unvisited_mark (visited st) k HkU Hnotin). lia.
Qed.


Lemma no_fault_sub v c :
  no_fault svc include_trashed v -> c ∈ subs v ->
  no_fault svc include_trashed c.
Proof.
  intros Hv Hc u Hu. apply Hv. eapply reachable_trans; [|done].
  by apply reachable_sub.
Qed.

(** Without a fault below its folder, a call returns. *)
Lemma collect_returns fuel v st :
  within svc include_trashed U v -> no_fault svc include_trashed v ->
  (size (U ∖ visited st) < fuel)%nat ->
  exists st' out, collect fuel v st = (st', Done out).
Proof.
  revert v st. induction fuel as [|fuel' IH]; intros v st HU Hf Hsize; [lia|].
  cbn [_collect_files_recursively].
  destruct (Hf v (reachable_root _ _ _)) as [[k Hk] Hok]. rewrite Hk.
  destruct (decide (k ∈ visited st)) as [Hin|Hnotin]; [by eexists _, _|].
  destruct (scan_pages_returns fuel' (collect fuel')
              (collect_explored fuel') IH
              (folder_pages svc include_trashed v) [] (mark_visited k st))
    as (st' & out & E).
  - done.
  - intros c Hc. split; [by apply (within_sub v)|by apply (no_fault_sub v)].
  - simpl. assert (k ∈ U) as HkU
      by (apply (HU v k); [apply reachable_root|done]).
    pose proof (size_unvisited_mark (visited st) k HkU Hnotin). lia.
  - unfold folder_pages in E. rewrite E. by eexists _, _.
Qed.

(** What a returning walk from the empty visited set has yielded. *)
Lemma explored_from_scratch root st files :
  distinct_keys svc include_trashed root ->
  expl [] ∅ [root] (st, Done files) ->
  exists order : list value,
    NoDup order /\ (forall v, v ∈ order <-> reach root v) /\
    files ≡ₚ concat (lvs <$> order).
Proof.
  intros Hdist (order & F & N & D & HV & P & R & C & T). simpl in *.
  rewrite Forall_forall in F.
  assert (forall u, u ∈ order.*1 -> reach root u) as Hsound.
  { intros u Hu. destruct (R u Hu) as (r0 & ->%list_elem_of_singleton & ?).
    done. }
  assert (forall c k, reach root c -> hash_key c = Some k ->
            k ∈ visited st -> c ∈ order.*1) as Hfound.
  { intros c k Hc Hk Hin. rewrite HV in Hin.
    apply elem_of_union in Hin as [Hin|Hin]; [by apply not_elem_of_empty in Hin|].
    apply elem_of_list_to_set, list_elem_of_fmap in Hin as (p & -> & Hp).
    assert (p.1 ∈ order.*1) as Hp1 by (by apply list_elem_of_fmap_2).
    rewrite <-(Hdist p.1 c); [done|by apply Hsound|done|].
    by rewrite (F p Hp). }
  exists order.*1. split_and!; [|split; [apply Hsound|]|done].
  - apply NoDup_fmap_2_strong; [|by eapply NoDup_fmap_1].
    intros [u1 k1] [u2 k2] H1 H2 Heq. simpl in Heq. subst u2.
    pose proof (F _ H1) as E1. pose proof (F _ H2) as E2. simpl in *.
    congruence.
  - induction 1 as [|v c Hv IHv Hc].
    + destruct (T root) as (k & Hk & Hin); [by apply list_elem_of_singleton|].
      by apply (Hfound root k); [apply reachable_root|..].
    + destruct (C v c IHv Hc) as (k & Hk & Hin).
      apply (Hfound c k); [|done..]. by eapply reachable_child.
Qed.

(** C5, as the code has it. On a finite containment graph, cycles
    included, in which different containers have different hash keys,
    the recursive collection needs no more fuel than there are
    containers: it returns or raises. A folder that is already in the
    visited set yields nothing and leaves the set as it is. When the
    walk returns - and it does when no listing fails and every id is
    hashable - every container below the root has been listed exactly
    once, and the result is, up to order, the leaves of all those
    listings: a leaf appears once for every container that lists it. *)
Theorem traversal_terminates_and_lists_each_container_once
  (root : value) (fuel : nat) (evs : list event)
  (Hfinite : within svc include_trashed U root)
  (Hkeys : distinct_keys svc include_trashed root)
  (Hfuel : (size U < fuel)%nat) :
  let r := collect fuel root {| visited := ∅; events := evs |} in
  r.2 <> OutOfFuel /\
  (forall files, r.2 = Done files ->
     exists order : list value,
       NoDup order /\ (forall v, v ∈ order <-> reach root v) /\
       files ≡ₚ concat (lvs <$> order)) /\
  (no_fault svc include_trashed root -> exists files, r.2 = Done files) /\
  (forall n v k st,
     hash_key v = Some k -> k ∈ visited st ->
     collect (S n) v st = (st, Done [])).
Proof.
  intros r.
  assert ((size (U ∖ visited {| visited := ∅; events := evs |}) < fuel)%nat)
    as Hsize.
  { pose proof (size_unvisited_mono ∅ ∅ (reflexivity _)) as Hle. simpl.
    assert (size (U ∖ ∅) <= size U)%nat by (apply subseteq_size; set_solver).
    lia. }
  pose proof (collect_explored fuel root _ Hfinite Hsize) as Hexpl.
  fold r in Hexpl. split_and!.
  - intros E. unfold explored in Hexpl. by rewrite E in Hexpl.
  - intros files E. destruct r as [st o]. simpl in E. subst o.
    by apply (explored_from_scratch root st files).
  - intros Hf.
    destruct (collect_returns fuel root _ Hfinite Hf Hsize) as (st & out & E).
    exists out. subst r. by rewrite E.
  - intros n v k st Hk Hin. cbn [_collect_files_recursively].
    rewrite Hk. by rewrite decide_True.
Qed.

End Graph.

Import Samples.

Lemma cyclic_reachable v :
  reachable cyclic_drive false (VStr "A") v -> v = VStr "A" \/ v = VStr "B".
Proof.
  induction 1 as [|v c _ [-> | ->] Hc]; [by left|..].
  - right. vm_compute in Hc. by apply list_elem_of_singleton in Hc.
  - left. vm_compute in Hc. by apply list_elem_of_singleton in Hc.
Qed.

Lemma traversal_terminates_and_lists_each_container_once_witness :
  cyclic_walk.2 <> OutOfFuel /\
  exists files, cyclic_walk.2 = Done files.
Proof.
  destruct (traversal_terminates_and_lists_each_container_once
              cyclic_drive false {[Some (inl "A"); Some (inl "B")]}
              (VStr "A") 3 [])
    as (Hterm & _ & Hret & _).
  - intros u k [-> | ->]%cyclic_reachable [= <-]; set_solver.
  - intros u v [-> | ->]%cyclic_reachable [-> | ->]%cyclic_reachable;
      done.
  - vm_compute. lia.
  - split; [exact Hterm|]. apply Hret.
    intros u [-> | ->]%cyclic_reachable; (split; [by eexists|exact I]).
Defined.

(** C5 as stated fails: in [cyclic_drive] the leaf ["shared"] is listed
    by both folders, and the walk yields it twice. *)
Lemma leaf_with_two_parents_is_yielded_twice :
  cyclic_walk.2
  = Done [ leaf_item "shared"; leaf_item "in-B"; leaf_item "shared";
           leaf_item "in-A" ].
Proof. vm_compute. reflexivity. Qed.

End TraverserFacts.

(** ** The controller without overlapping jobs *)

Module InvariantFacts.
Import WebApp.

Lemma live_count_insert (l : list thread) i t t' :
  l !! i = Some t ->
  (length (filter (fun t => live (at_pc t) = true) (<[i := t']> l))
   + (if live (at_pc t) then 1 else 0)
   = length (filter (fun t => live (at_pc t) = true) l)
     + (if live (at_pc t') then 1 else 0))%nat.
Proof.
  revert i. induction l as [|x l IH]; intros [|i] Hi; try done.
  - simpl in Hi. injection Hi as ->.
    change (<[0%nat := t']> (t :: l)) with (t' :: l).
    rewrite !filter_cons.
    destruct (live (at_pc t)), (live (at_pc t')); repeat case_decide;
      simpl; try done; lia.
  - change (<[S i := t']> (x :: l)) with (x :: <[i := t']> l).
    rewrite !filter_cons.
    specialize (IH i Hi).
    destruct (decide (live (at_pc x) = true)); simpl; lia.
Qed.

Lemma live_count_member (l : list thread) i t :
  l !! i = Some t -> live (at_pc t) = true ->
  (1 <= length (filter (fun t => live (at_pc t) = true) l))%nat.
Proof.
  intros Hi Hl.
  assert (t ∈ filter (fun t => live (at_pc t) = true) l) as Hin.
  { apply list_elem_of_filter. split; [done|]. by eapply list_elem_of_lookup_2. }
  destruct (filter _ l); [by apply not_elem_of_nil in Hin|simpl; lia].
Qed.

Section Controller.
Variable env : environment.

(** What one step of a job thread can do to [metadata]. *)
Lemma thread_step_metadata a p w :
  threads (thread_step env a p w).1 = threads w /\
  (metadata (state w) = None ->
   metadata (state (thread_step env a p w).1) <> None ->
   status (state (thread_step env a p w).1) = Completed /\
   (thread_step env a p w).2 = PcEnd).
Proof.
  destruct p; simpl; unfold check_stop, stopped_here; simpl;
    repeat case_match; simpl; try done; by intros ->.
Qed.

Lemma step_invariant w a :
  job_invariant w -> (is_start a = true -> live_count w = 0%nat) ->
  job_invariant (step env w a).
Proof.
  intros [Hlive Hmeta] Hstart. unfold job_invariant, live_count, step in *.
  cbn [tick state threads].
  destruct a as [data| | | | |tid]; cbn [is_start] in Hstart.
  - specialize (Hstart eq_refl). unfold start_extraction.
    pose proof (conj Hlive Hmeta) as Hw.
    destruct (status (state w)) eqn:Hs; try exact Hw;
      repeat case_match; simpl; try (rewrite Hs; exact Hw);
      rewrite filter_app, length_app, Hstart; simpl; by split; [lia|].
  - pose proof (conj Hlive Hmeta) as Hw. unfold get_progress.
    by destruct (start_time (state w)).
  - pose proof (conj Hlive Hmeta) as Hw. unfold pause_extraction.
    destruct (status (state w)) eqn:Hs; try (rewrite ?Hs; exact Hw). simpl.
    split; [done|]. intros H. by destruct (Hmeta H).
  - pose proof (conj Hlive Hmeta) as Hw. unfold resume_extraction.
    destruct (status (state w)) eqn:Hs; try (rewrite ?Hs; exact Hw). simpl.
    split; [done|]. intros H. by destruct (Hmeta H).
  - pose proof (conj Hlive Hmeta) as Hw. unfold stop_extraction.
    destruct (status (state w)) eqn:Hs; try (rewrite ?Hs; exact Hw);
      simpl; by split.
  - unfold run_thread. destruct (threads w !! tid) as [t|] eqn:Ht; [|done].
    destruct (thread_step_metadata (args t) (at_pc t) w) as [Hth Hstep].
    destruct (thread_step env (args t) (at_pc t) w) as [w' p'] eqn:E.
    cbn [state threads fst snd] in *. rewrite Hth.
    pose proof (live_count_insert (threads w) tid t
                  {| args := args t; at_pc := p' |} Ht) as Hcount.
    cbn [at_pc] in Hcount.
    destruct (live (at_pc t)) eqn:Hlt.
    + pose proof (live_count_member _ _ _ Ht Hlt).
      assert (metadata (state w) = None) as Hnone.
      { destruct (metadata (state w)) eqn:Hm; [|done].
        destruct Hmeta as [_ ?]; [done|lia]. }
      split; [destruct (live p'); lia|].
      intros Hm. destruct (Hstep Hnone Hm) as [-> ->].
      split; [done|]. simpl in Hcount. lia.
    + destruct (at_pc t) eqn:Hp; try discriminate.
      simpl in E. injection E as <- <-.
      simpl in Hcount. split; [lia|].
      intros Hm. destruct (Hmeta Hm). split; [done|lia].
Qed.

(** As long as no job is started while another is alive, [metadata]
    is populated only in the [Completed] state. *)
Lemma invariant_without_overlap tr w :
  job_invariant w -> no_overlap env w tr ->
  job_invariant (run_trace env w tr).
Proof.
  revert w. induction tr as [|a tr IH]; intros w Hinv Hno; [done|].
  destruct Hno as [Hstart Hrest]. simpl. apply IH; [|done].
  by apply step_invariant.
Qed.

Lemma metadata_only_when_completed_without_overlap tr :
  no_overlap env initial_world tr ->
  metadata (state (run_trace env initial_world tr)) <> None ->
  status (state (run_trace env initial_world tr)) = Completed.
Proof.
  intros Hno Hm.
  destruct (invariant_without_overlap tr initial_world) as [_ H]; [|done|].
  - split; [unfold live_count; simpl; lia|done].
  - by destruct (H Hm).
Qed.

End Controller.
End InvariantFacts.

(** ** The link parser *)

Module HelpersFacts.
Import Helpers.

Lemma match_here_nonempty classes s g : match_here classes s = Some g -> g <> "".
Proof.
  revert s. induction classes as [|p classes IH]; intros s; simpl.
  - destruct (id_run s); [done|]. by intros [= <-].
  - destruct s as [|c s]; [done|]. destruct (p c); [apply IH|done].
Qed.

Lemma search_nonempty classes s g : search classes s = Some g -> g <> "".
Proof.
  induction s as [|c s IH]; simpl.
  - destruct (match_here classes "") eqn:E; [|done].
    intros [= <-]. by eapply match_here_nonempty.
  - destruct (match_here classes (String c s)) eqn:E; [|apply IH].
    intros [= <-]. by eapply match_here_nonempty.
Qed.

Lemma id_run_all_id_chars s : all_id_chars (id_run s) = true.
Proof.
  induction s as [|c s IH]; simpl; [done|].
  destruct (id_char c) eqn:E; simpl; [by rewrite E|done].
Qed.

Lemma match_here_all_id_chars classes s g :
  match_here classes s = Some g -> all_id_chars g = true.
Proof.
  revert s. induction classes as [|p classes IH]; intros s; simpl.
  - pose proof (id_run_all_id_chars s). destruct (id_run s); [done|]. by intros [= <-].
  - destruct s as [|c s]; [done|]. destruct (p c); [apply IH|done].
Qed.

Lemma search_all_id_chars classes s g :
  search classes s = Some g -> all_id_chars g = true.
Proof.
  induction s as [|c s IH]; simpl.
  - destruct (match_here classes "") eqn:E; [|done].
    intros [= <-]. by eapply match_here_all_id_chars.
  - destruct (match_here classes (String c s)) eqn:E; [|apply IH].
    intros [= <-]. by eapply match_here_all_id_chars.
Qed.


Ltac bool_prop :=
  repeat match goal with
  | H : _ = true |- _ =>
      progress rewrite ?orb_true_iff, ?andb_true_iff, ?N.leb_le, ?N.ltb_lt,
        ?N.eqb_eq in H
  end;
  rewrite ?orb_true_iff, ?andb_true_iff, ?N.leb_le, ?N.ltb_lt, ?N.eqb_eq.

(** A text that is one whitespace character begins with one of six
    kinds of byte. *)
Lemma is_space_head c t : is_space (String c t) = true -> starts_space c = true.
Proof.
  unfold is_space, code_point, starts_space, isspace, is_continuation.
  pose proof (N_ascii_bounded c) as Hc.
  destruct t as [|b [|d [|e t]]]; [| | |done].
  - destruct (_ <? _)%N eqn:E; [|done]. intros Hs. bool_prop. lia.
  - pose proof (N_ascii_bounded b) as Hb.
    destruct (_ && _ && _) eqn:E; [|done]. intros Hs. bool_prop. lia.
  - pose proof (N_ascii_bounded b) as Hb. pose proof (N_ascii_bounded d) as Hd.
    destruct (_ && _ && _) eqn:E; [|done]. intros Hs. bool_prop. lia.
Qed.

Lemma is_space_head_false c t :
  starts_space c = false -> is_space (String c t) = false.
Proof.
  intros H. destruct (is_space (String c t)) eqn:E; [|done].
  apply is_space_head in E. congruence.
Qed.

Lemma id_char_not_space c : id_char c = true -> starts_space c = false.
Proof. destruct c as [[] [] [] [] [] [] [] []]; vm_compute; congruence. Qed.

Lemma id_char_not_slash c : id_char c = true -> Ascii.eqb c "/" = false.
Proof. destruct c as [[] [] [] [] [] [] [] []]; vm_compute; congruence. Qed.

Lemma id_char_not_query c :
  id_char c = true -> Ascii.eqb c "?" || Ascii.eqb c "&" = false.
Proof. destruct c as [[] [] [] [] [] [] [] []]; vm_compute; congruence. Qed.

Lemma rstrip_cons c t :
  starts_space c = false -> rstrip (String c t) = String c (rstrip t).
Proof. intros H. simpl. by rewrite is_space_head_false. Qed.

Lemma lstrip_cons c t :
  starts_space c = false -> lstrip (String c t) = String c t.
Proof.
  intros H. destruct t as [|b [|d t]]; simpl; by rewrite !is_space_head_false.
Qed.

Lemma rstrip_head c s :
  rstrip (String c s) = "" \/ rstrip (String c s) = String c (rstrip s).
Proof. simpl. destruct (is_space _); auto. Qed.

Lemma rstrip_id_chars id t :
  all_id_chars id = true -> rstrip (id +:+ t) = id +:+ rstrip t.
Proof.
  induction id as [|c id IH]; [done|].
  intros [Hc Hid]%andb_true_iff.
  change (String c id +:+ t) with (String c (id +:+ t)).
  rewrite rstrip_cons by by apply id_char_not_space.
  by rewrite IH.
Qed.

Lemma strip_id_chars id : all_id_chars id = true -> strip id = id.
Proof.
  intros H. unfold strip.
  assert (lstrip id = id) as ->.
  { destruct id as [|c id]; [done|].
    apply andb_true_iff in H as [Hc _].
    by rewrite lstrip_cons by by apply id_char_not_space. }
  clear -H. induction id as [|c id IH]; [done|].
  apply andb_true_iff in H as [Hc Hid].
  rewrite rstrip_cons by by apply id_char_not_space. by rewrite IH.
Qed.

Lemma id_run_rstrip t : id_run t = "" -> id_run (rstrip t) = "".
Proof.
  destruct t as [|c t]; [done|]. cbn [id_run].
  destruct (id_char c) eqn:E; [done|]. intros _.
  destruct (rstrip_head c t) as [->| ->]; [done|]. cbn [id_run]. by rewrite E.
Qed.

Lemma id_run_app id t :
  all_id_chars id = true -> id_run t = "" -> id_run (id +:+ t) = id.
Proof.
  intros Hid Ht. induction id as [|c id IH]; [done|].
  apply andb_true_iff in Hid as [Hc Hid]. simpl. by rewrite Hc, IH.
Qed.

Lemma contains_char_rstrip c t :
  contains_char c t = false -> contains_char c (rstrip t) = false.
Proof.
  induction t as [|a t IH]; [done|]. cbn [contains_char].
  intros [Ha Ht]%orb_false_iff. specialize (IH Ht).
  destruct (rstrip_head a t) as [->| ->]; [done|].
  cbn [contains_char]. by rewrite Ha, IH.
Qed.

Lemma contains_char_app c s t :
  contains_char c (s +:+ t) = contains_char c s || contains_char c t.
Proof.
  induction s as [|a s IH]; [done|]. simpl. by rewrite IH, orb_assoc.
Qed.

Lemma contains_char_id_chars c id :
  (forall x, id_char x = true -> Ascii.eqb c x = false) ->
  all_id_chars id = true -> contains_char c id = false.
Proof.
  intros Hc. induction id as [|a id IH]; [done|]. simpl.
  intros [Ha Hid]%andb_true_iff. by rewrite (Hc a Ha), IH.
Qed.

(** A pattern whose first class rejects every character of the text
    matches nowhere in it. *)
Lemma search_rejected p classes s :
  (forall c, contains_char c s = true -> p c = false) ->
  search (p :: classes) s = None.
Proof.
  induction s as [|a s IH]; intros H; [done|].
  simpl. rewrite (H a) by (simpl; by rewrite Ascii.eqb_refl).
  apply IH. intros c Hc. apply H. simpl. by rewrite Hc, orb_true_r.
Qed.

Lemma search_no_slash classes s :
  contains_char "/" s = false ->
  search ((fun x => Ascii.eqb x "/") :: classes) s = None.
Proof.
  intros H. apply search_rejected. intros c Hc.
  destruct (Ascii.eqb_spec c "/") as [->|]; [|done]. congruence.
Qed.

Lemma search_id_chars p classes s :
  (forall c, id_char c = true -> p c = false) ->
  all_id_chars s = true -> search (p :: classes) s = None.
Proof.
  intros Hp. induction s as [|a s IH]; [done|].
  intros [Ha Hs]%andb_true_iff. simpl. by rewrite (Hp a Ha), IH.
Qed.

Ltac push_append :=
  repeat match goal with
         | |- context [String ?c ?s +:+ ?t] =>
             change (String c s +:+ t) with (String c (s +:+ t))
         | |- context [EmptyString +:+ ?t] => change (EmptyString +:+ t) with t
         end.

Lemma folders_link_search t g :
  id_run t = g -> g <> "" ->
  search pattern1 ("https://drive.google.com/drive/folders/" +:+ t) = Some g.
Proof.
  intros Hrun Hg. push_append. cbn. rewrite Hrun. by destruct g.
Qed.

Lemma open_link_search1 t :
  contains_char "/" t = false ->
  search pattern1 ("https://drive.google.com/open?id=" +:+ t) = None.
Proof.
  intros Ht. push_append. cbn. by apply search_no_slash.
Qed.

Lemma open_link_search2 t g :
  id_run t = g -> g <> "" ->
  search pattern2 ("https://drive.google.com/open?id=" +:+ t) = Some g.
Proof.
  intros Hrun Hg. push_append. cbn. rewrite Hrun. by destruct g.
Qed.



Lemma strip_folders_link t :
  strip ("https://drive.google.com/drive/folders/" +:+ t)
  = "https://drive.google.com/drive/folders/" +:+ rstrip t.
Proof.
  unfold strip. push_append.
  rewrite lstrip_cons by reflexivity.
  by rewrite !rstrip_cons by reflexivity.
Qed.

Lemma strip_open_link t :
  strip ("https://drive.google.com/open?id=" +:+ t)
  = "https://drive.google.com/open?id=" +:+ rstrip t.
Proof.
  unfold strip. push_append.
  rewrite lstrip_cons by reflexivity.
  by rewrite !rstrip_cons by reflexivity.
Qed.

Lemma parsed_id_nonempty url_or_id id :
  extract_folder_id_from_url url_or_id = Some id -> id <> "".
Proof.
  unfold extract_folder_id_from_url.
  destruct (String.eqb url_or_id "" || String.eqb (strip url_or_id) "")
    eqn:Hblank; [done|].
  apply orb_false_iff in Hblank as [_ Hstrip].
  case_match.
  - intros [= <-] E. by rewrite E in Hstrip.
  - destruct (search pattern1 _) eqn:E1;
      [intros [= ->]; by eapply search_nonempty|].
    destruct (search pattern2 _) eqn:E2;
      [intros [= ->]; by eapply search_nonempty|].
    apply search_nonempty.
Qed.

(** X1. An id the link parser returns is never empty; it is the
    trimmed input itself, or a run of the characters [[a-zA-Z0-9_-]]. *)
Theorem parsed_folder_id_shape (url_or_id id : string)
  (Hparsed : extract_folder_id_from_url url_or_id = Some id) :
  id <> "" /\ (id = strip url_or_id \/ all_id_chars id = true).
Proof.
  revert Hparsed. unfold extract_folder_id_from_url.
  destruct (String.eqb url_or_id "" || String.eqb (strip url_or_id) "")
    eqn:Hblank; [done|].
  apply orb_false_iff in Hblank as [_ Hstrip].
  case_match.
  - intros [= <-]. split; [|by left]. intros E. by rewrite E in Hstrip.
  - assert (forall p, search p (strip url_or_id) = Some id ->
              id <> "" /\ (id = strip url_or_id \/ all_id_chars id = true)) as Hs.
    { intros p Hp. split; [by eapply search_nonempty|right].
      by eapply search_all_id_chars. }
    destruct (search pattern1 _) eqn:E1; [intros [= ->]; by eapply Hs|].
    destruct (search pattern2 _) eqn:E2; [intros [= ->]; by eapply Hs|].
    apply Hs.
Qed.

(** X2. The documented link formats give back the id they carry: a
    [/drive/folders/ID] link with anything behind the id, and an
    [/open?id=ID] link with anything behind the id that has no slash. *)
Theorem documented_links_give_their_id (id rest : string)
  (Hid : id <> "") (Hchars : all_id_chars id = true)
  (Hrest : id_run rest = "") :
  extract_folder_id_from_url
    ("https://drive.google.com/drive/folders/" +:+ id +:+ rest) = Some id /\
  (contains_char "/" rest = false ->
   extract_folder_id_from_url
     ("https://drive.google.com/open?id=" +:+ id +:+ rest) = Some id).
Proof.
  pose proof (id_run_rstrip rest Hrest) as Hr.
  pose proof (id_run_app id (rstrip rest) Hchars Hr) as Hrun.
  split.
  - unfold extract_folder_id_from_url.
    rewrite strip_folders_link, rstrip_id_chars by done.
    rewrite (folders_link_search _ id) by done.
    push_append. by cbn.
  - intros Hslash. unfold extract_folder_id_from_url.
    rewrite strip_open_link, rstrip_id_chars by done.
    rewrite open_link_search1, (open_link_search2 _ id); [|done..|].
    + push_append. by cbn.
    + rewrite contains_char_app, (contains_char_rstrip _ _ Hslash).
      rewrite contains_char_id_chars; [done| |done].
      intros x Hx. rewrite Ascii.eqb_sym. by apply id_char_not_slash.
Qed.

(** X3. A plain id made of id characters is returned as it is, unless it
    starts with [http]: then it is taken for a link, no pattern
    matches, and the parser gives [None]. *)
Theorem plain_id_is_kept_unless_it_starts_with_http (id : string)
  (Hid : id <> "") (Hchars : all_id_chars id = true) :
  extract_folder_id_from_url id
  = if String.prefix "http" id then None else Some id.
Proof.
  unfold extract_folder_id_from_url. rewrite strip_id_chars by done.
  assert (String.eqb id "" = false) as -> by by apply String.eqb_neq.
  cbn [orb].
  assert (forall c, id_char c = false -> contains_char c id = false) as Hno.
  { intros c Hc. apply contains_char_id_chars; [|done].
    intros x Hx. destruct (Ascii.eqb_spec c x) as [->|]; congruence. }
  rewrite !Hno by reflexivity.
  destruct (String.prefix "http" id); cbn [negb andb]; [|done].
  unfold pattern1, pattern2, pattern3, literal. cbn.
  rewrite !search_id_chars; try done.
  - apply id_char_not_query.
  - apply id_char_not_slash.
  - apply id_char_not_slash.
Qed.

(** Trimming goes by character: a no-break space around an id is taken
    off like a blank. *)
Lemma padded_id_is_trimmed :
  extract_folder_id_from_url
    (Samples.no_break_space +:+ " 1AbC_d-9" +:+ Samples.no_break_space)
  = Some "1AbC_d-9".
Proof. reflexivity. Qed.

Lemma parsed_folder_id_shape_witness :
  "1AbC_d-9" <> "" /\
  ("1AbC_d-9" = strip Cases.shared_link \/ all_id_chars "1AbC_d-9" = true).
Proof.
  exact (parsed_folder_id_shape Cases.shared_link "1AbC_d-9" eq_refl).
Defined.

Lemma documented_links_give_their_id_witness :
  extract_folder_id_from_url
    ("https://drive.google.com/drive/folders/" +:+ "1AbC_d-9"
     +:+ "?usp=sharing") = Some "1AbC_d-9" /\
  extract_folder_id_from_url
    ("https://drive.google.com/open?id=" +:+ "1AbC_d-9" +:+ "&authuser=0")
  = Some "1AbC_d-9".
Proof.
  split.
  - apply (documented_links_give_their_id "1AbC_d-9" "?usp=sharing");
      [discriminate|reflexivity..].
  - apply (documented_links_give_their_id "1AbC_d-9" "&authuser=0");
      [discriminate|reflexivity..].
Defined.

Lemma plain_id_is_kept_unless_it_starts_with_http_witness :
  extract_folder_id_from_url "1AbC_d-9" = Some "1AbC_d-9" /\
  extract_folder_id_from_url "httpd-logs" = None.
Proof.
  split.
  - apply (plain_id_is_kept_unless_it_starts_with_http "1AbC_d-9");
      [discriminate|reflexivity].
  - apply (plain_id_is_kept_unless_it_starts_with_http "httpd-logs");
      [discriminate|reflexivity].
Defined.

End HelpersFacts.

(** ** Listings and the walk *)

Module ListingFacts.
Import Cases.

(** X5. An empty page ends a listing, whatever follows it: both loops test
    [if not files: break] before they read [nextPageToken]. *)
Theorem listing_stops_at_first_empty_page (pre post : list page) :
  (forall acc evs,
     list_all (pre ++ Page [] :: post) acc evs = list_all pre acc evs) /\
  (forall recurse acc st,
     scan_pages recurse (pre ++ Page [] :: post) acc st
     = scan_pages recurse pre acc st).
Proof.
  split.
  - induction pre as [|[msg|[|f files]] pre IH]; intros acc evs; try done.
    simpl. apply IH.
  - intros recurse. induction pre as [|[msg|[|f files]] pre IH];
      intros acc st; try done.
    cbn [app scan_pages].
    destruct (scan_folders _ _ _ _) as [st' [fs| |]]; [apply IH|done..].
Qed.

Ltac walk_nil :=
  split; [done|split; [exists []; by rewrite app_nil_r|simpl; auto]].

Section Walk.
Variable recurse : value -> tstate -> tstate * outcome (list dict).
Hypothesis recurse_ok : forall v st, walk_ok True st (recurse v st).

Lemma scan_folders_ok folders acc st :
  walk_ok (Forall (fun f => is_folder f = false) acc) st
    (scan_folders recurse folders acc st).
Proof.
  revert acc st. induction folders as [|folder rest IH]; intros acc st.
  - walk_nil.
  - cbn [scan_folders]. destruct (truthy _); [|apply IH].
    destruct (hash_key _) as [k|].
    2:{ walk_nil. }
    destruct (decide _); [apply IH|].
    pose proof (recurse_ok (get folder "id" VNone) st) as Hr.
    destruct (recurse _ st) as [st' [sub| |]] eqn:E.
    + specialize (IH (acc ++ sub) st').
      destruct Hr as (Hv & (n1 & He1 & Hq1) & Hf1). simpl in *.
      destruct IH as (Hv2 & (n2 & He2 & Hq2) & Hf2).
      split; [set_solver|split].
      * exists (n1 ++ n2). rewrite He2, He1, app_assoc. split; [done|].
        by apply Forall_app.
      * destruct (scan_folders _ _ _ _).2; [|done..]. intros Hacc.
        apply Hf2, Forall_app. split; [done|by apply Hf1].
    + destruct Hr as (Hv & Hev & _). by split.
    + destruct Hr as (Hv & Hev & _). by split.
Qed.

Lemma scan_pages_ok pages acc st :
  walk_ok (Forall (fun f => is_folder f = false) acc) st
    (scan_pages recurse pages acc st).
Proof.
  revert acc st. induction pages as [|[msg|[|f files]] pages IH]; intros acc st.
  - walk_nil.
  - walk_nil.
  - walk_nil.
  - cbn [scan_pages].
    set (all_files := acc ++ filter _ (f :: files)).
    set (folders := filter _ (f :: files)).
    set (ev := Build_event _ _ _ _).
    pose proof (scan_folders_ok folders all_files (emit ev st)) as Hs.
    destruct (scan_folders _ _ _ _) as [st' [fs| |]] eqn:E.
    + specialize (IH fs st').
      destruct Hs as (Hv & (n1 & He1 & Hq1) & Hf1). simpl in *.
      destruct IH as (Hv2 & (n2 & He2 & Hq2) & Hf2).
      split; [set_solver|split].
      * exists (ev :: n1 ++ n2). rewrite He2, He1.
        rewrite <- !app_assoc. split; [done|].
        apply Forall_cons. split; [by left|by apply Forall_app].
      * destruct (scan_pages _ _ _ _).2; [|done..]. intros Hacc.
        apply Hf2, Hf1. subst all_files. apply Forall_app. split; [done|].
        apply Forall_forall. intros x Hx.
        by apply list_elem_of_filter in Hx as [? _].
    + destruct Hs as (Hv & (n1 & He1 & Hq1) & _). simpl in *.
      split; [done|split; [|done]]. simpl.
      exists (ev :: n1). rewrite He1, <- app_assoc. split; [done|].
      apply Forall_cons. split; [by left|done].
    + destruct Hs as (Hv & (n1 & He1 & Hq1) & _). simpl in *.
      split; [done|split; [|done]]. simpl.
      exists (ev :: n1). rewrite He1, <- app_assoc. split; [done|].
      apply Forall_cons. split; [by left|done].
Qed.

End Walk.

Lemma collect_ok fuel svc include_trashed v st :
  walk_ok True st (_collect_files_recursively fuel svc include_trashed v st).
Proof.
  revert v st. induction fuel as [|fuel IH]; intros v st.
  - walk_nil.
  - cbn [_collect_files_recursively].
    destruct (hash_key v) as [k|].
    2:{ walk_nil. }
    destruct (decide _).
    { walk_nil. }
    pose proof (scan_pages_ok _ IH
                  (files_list svc (Some (folder_query v include_trashed)))
                  [] (mark_visited k st)) as Hs.
    destruct (scan_pages _ _ _ _) as [st' [fs|e|]] eqn:E.
    + destruct Hs as (Hv & Hev & Hf). simpl in *.
      split; [set_solver|split; [done|]]. intros _. by apply Hf.
    + destruct Hs as (Hv & (n1 & He1 & Hq1) & _). simpl in *.
      destruct e; (split; [simpl; set_solver|split; [|done]]);
        try (by exists n1).
      exists (n1 ++ [{| ev_status := "error"; ev_progress := 0; ev_total := 0;
                        ev_message := "API error scanning folder " +:+ str v
                                      +:+ ": " +:+ msg |}]).
      simpl. rewrite He1, app_assoc. split; [done|].
      apply Forall_app. split; [done|]. apply Forall_singleton. by right.
    + destruct Hs as (Hv & Hev & _). simpl in *. split; [set_solver|by split].
Qed.


(** X6. A walk that returns hands back no folder item: folders are
    descended into, never reported. *)
Theorem walk_returns_no_folder_item (fuel : nat) (svc : service)
  (include_trashed : bool) (folder_id : value) (st st' : tstate)
  (files : list dict)
  (Hwalk : _collect_files_recursively fuel svc include_trashed folder_id st
           = (st', Done files)) :
  Forall (fun f => is_folder f = false) files.
Proof.
  pose proof (collect_ok fuel svc include_trashed folder_id st) as (_ & _ & H).
  rewrite Hwalk in H. by apply H.
Qed.

Lemma walk_returns_no_folder_item_witness :
  Forall (fun f => is_folder f = false)
    [ Samples.leaf_item "shared"; Samples.leaf_item "in-B";
      Samples.leaf_item "shared"; Samples.leaf_item "in-A" ].
Proof.
  apply (walk_returns_no_folder_item 3 Samples.cyclic_drive false (VStr "A")
           {| visited := ∅; events := [] |}
           (Samples.cyclic_walk.1)).
  vm_compute. reflexivity.
Defined.

Lemma list_all_listed pages acc evs :
  pages_ok pages -> (list_all pages acc evs).2 = Ok (acc ++ listed pages).
Proof.
  revert acc evs.
  induction pages as [|[msg|[|f files]] pages IH]; intros acc evs Hok;
    try done; simpl; rewrite ?app_nil_r; try done.
  rewrite IH by done. by rewrite <- app_assoc.
Qed.

(** X7. Without a folder id, or with an empty one, the extractor lists the
    whole Drive with one query and keeps every item of every page up to
    the first empty page, folders included; no recursion is involved,
    so the result does not depend on the recursion bound. *)
Theorem whole_drive_listing_keeps_every_item (fuel : nat) (svc : service)
  (include_trashed : bool) (evs : list event) (folder_id : option string)
  (Hwhole : folder_id = None \/ folder_id = Some "")
  (Hok : pages_ok
           (files_list svc
              (if include_trashed then None else Some "trashed = false"))) :
  (collect_all fuel svc folder_id include_trashed evs).2
  = Done (listed
            (files_list svc
               (if include_trashed then None else Some "trashed = false"))).
Proof.
  unfold collect_all.
  assert (truthy (from_option VStr VNone folder_id) = false) as ->
    by by destruct Hwhole as [-> | ->].
  destruct include_trashed; simpl in *;
    match goal with |- context [list_all ?p ?a ?e] =>
      pose proof (list_all_listed p a e Hok) as H;
      destruct (list_all p a e) as [evs' [fs|err]]
    end; simpl in *; congruence.
Qed.


Lemma list_all_quiet pages acc evs :
  exists new, (list_all pages acc evs).1 = evs ++ new /\ Forall quiet new.
Proof.
  revert acc evs.
  induction pages as [|[msg|[|f files]] pages IH]; intros acc evs; simpl.
  - exists []. by rewrite app_nil_r.
  - eexists. split; [done|]. apply Forall_singleton. by right.
  - exists []. by rewrite app_nil_r.
  - match goal with |- context [list_all pages ?a (evs ++ [?ev])] =>
      destruct (IH a (evs ++ [ev])) as (new & -> & Hq); exists (ev :: new)
    end.
    rewrite <- app_assoc. split; [done|].
    apply Forall_cons. split; [by left|done].
Qed.

Lemma collect_all_quiet fuel svc folder_id include_trashed evs :
  exists new,
    (collect_all fuel svc folder_id include_trashed evs).1 = evs ++ new
    /\ Forall quiet new.
Proof.
  unfold collect_all. destruct (truthy _).
  - pose proof (collect_ok fuel svc include_trashed
                  (from_option VStr VNone folder_id)
                  {| visited := ∅; events := evs |}) as (_ & Hev & _).
    by destruct (_collect_files_recursively _ _ _ _ _).
  - match goal with |- context [list_all ?p ?a ?e] =>
      pose proof (list_all_quiet p a e) as H;
      destruct (list_all p a e) as [evs' [fs|err]]
    end; exact H.
Qed.

Section Extraction.
Variable fromisoformat_strftime : string -> option string.
Variable int_of_str : string -> option Z.
Variable scale_size : Z -> option string.
Variable as_completed :
  nat -> list (dict * option dict) -> list (dict * option dict).

Local Abbreviation run_folder :=
  (extract_folder fromisoformat_strftime int_of_str scale_size as_completed).

Lemma failed_listing_events (fuel : nat) (svc : service)
  (max_workers : Z) (folder_id : option string) (include_trashed : bool)
  (evs : list event) (e : exn) :
  run_folder fuel svc max_workers folder_id include_trashed = (evs, Fail e) ->
  Forall quiet evs /\
  last evs = Some {| ev_status := "error"; ev_progress := 0; ev_total := 0;
                     ev_message := "Error: " +:+ exn_str e |}.
Proof.
  intros Hfail. revert Hfail. unfold extract_folder.
  destruct (collect_all_quiet fuel svc folder_id include_trashed [first_event])
    as (new & Hev & Hq).
  destruct (collect_all _ _ _ _ _) as [evs0 [[|f fs]|e0|]]; simpl in Hev;
    try done.
  intros [= <- <-]. rewrite last_snoc. split; [|done].
  rewrite Hev. apply Forall_app. split; [|apply Forall_singleton; by right].
  apply Forall_cons. split; [by left|done].
Qed.

(** X8. When [extract_folder] raises, no item has been processed: every
    callback it made has the status [collecting] or [error], and the
    last one has the status [error]. When the exception carries a text,
    as the errors of the Drive client do, the last callback shows that
    text behind [Error: ]. What the pages read before the failure
    listed is dropped with the exception. *)
Theorem failed_listing_processes_nothing (fuel : nat) (svc : service)
  (max_workers : Z) (folder_id : option string) (include_trashed : bool)
  (evs : list event) (e : exn)
  (Hfail : run_folder fuel svc max_workers folder_id include_trashed
           = (evs, Fail e)) :
  Forall quiet evs /\
  (exists ev, last evs = Some ev /\ ev_status ev = "error") /\
  (forall msg,
     exn_text e = Some msg ->
     last evs = Some {| ev_status := "error"; ev_progress := 0;
                        ev_total := 0;
                        ev_message := "Error: " +:+ msg |}).
Proof.
  destruct (failed_listing_events fuel svc max_workers folder_id
              include_trashed evs e Hfail) as [Hquiet Hlast].
  split; [done|]. split; [by eexists|].
  intros msg Hmsg. rewrite Hlast. unfold exn_str. by rewrite Hmsg.
Qed.

End Extraction.

Lemma whole_drive_listing_keeps_every_item_witness :
  (collect_all 0 Scenarios.small_drive (Some "") false []).2
  = Done [Samples.sample_item].
Proof.
  apply (whole_drive_listing_keeps_every_item 0 Scenarios.small_drive false []
           (Some "")); [by right|exact I].
Defined.

Lemma failed_listing_processes_nothing_witness :
  exists evs,
    Samples.plain_extract_folder failing_drive 1 None
    = (evs, Fail (HttpError "quota exceeded")) /\
    Forall quiet evs /\
    last evs
    = Some {| ev_status := "error"; ev_progress := 0; ev_total := 0;
              ev_message := "Error: quota exceeded" |}.
Proof.
  eexists. split; [vm_compute; reflexivity|].
  match goal with |- Forall quiet ?evs /\ _ =>
    destruct (failed_listing_processes_nothing (fun _ => None)
                (fun _ => None) (fun _ => None) Samples.reversed_completion
                16 failing_drive 1 None false evs
                (HttpError "quota exceeded"))
      as (Hquiet & _ & Hlast); [vm_compute; reflexivity|]
  end.
  split; [exact Hquiet|]. by apply Hlast.
Defined.

End ListingFacts.

(** ** Progress reports of the scheduler *)

Module ProgressFacts.

Section Scheduler.
Variable fromisoformat_strftime : string -> option string.
Variable int_of_str : string -> option Z.
Variable scale_size : Z -> option string.
Variable as_completed :
  nat -> list (dict * option dict) -> list (dict * option dict).
Hypothesis as_completed_perm : forall i l, as_completed i l ≡ₚ l.

Local Abbreviation process :=
  (_process_file fromisoformat_strftime int_of_str scale_size).
Local Abbreviation run_files :=
  (process_files fromisoformat_strftime int_of_str scale_size as_completed).
Local Abbreviation extracted :=
  (successes fromisoformat_strftime int_of_str scale_size).

(** The callbacks of the loop body over any sequence of finished
    futures: one per future, counting on from where the loop started. *)
Lemma record_results_callbacks total (rs : list (dict * option dict)) acc :
  callbacks (foldl (fun acc fr => record_result total acc fr.1 fr.2) acc rs)
  = callbacks acc
    ++ ((fun i => processing_event (processed_count acc + Z.of_nat i) total)
          <$> seq 1 (length rs)).
Proof.
  revert acc. induction rs as [|[f r] rs IH]; intros acc.
  - simpl. by rewrite app_nil_r.
  - cbn [foldl length seq]. rewrite IH. cbn [record_result callbacks processed_count fst snd].
    rewrite <- app_assoc. f_equal. csimpl. f_equal.
    rewrite <- (fmap_S_seq 1), <- list_fmap_compose.
    apply list_fmap_ext. intros i x _. simpl. f_equal. lia.
Qed.

(** X9. Progress is reported once per item, counting [1], [2], ... up to
    the number of items, in both branches and whatever the items give;
    the count behind [completed] is the number of records extracted. *)
Theorem progress_counts_every_item_once (max_workers : Z)
  (all_files : list dict) (evs : list event) :
  callbacks (run_files max_workers all_files evs)
  = evs
    ++ [{| ev_status := "processing"; ev_progress := 0;
           ev_total := Z.of_nat (length all_files);
           ev_message :=
             "Processing " +:+ pretty_len all_files +:+ " files with "
             +:+ pretty max_workers +:+ " workers..." |}]
    ++ ((fun i => processing_event (Z.of_nat i) (length all_files))
          <$> seq 1 (length all_files))
    ++ [{| ev_status := "completed";
           ev_progress := Z.of_nat (length (extracted all_files));
           ev_total := Z.of_nat (length all_files);
           ev_message :=
             "Successfully extracted " +:+ pretty_len (extracted all_files)
             +:+ " files!" |}].
Proof.
  destruct (SchedulerFacts.process_files_spec fromisoformat_strftime
              int_of_str scale_size as_completed as_completed_perm
              max_workers all_files evs) as (Hm & _ & _).
  apply Permutation_length in Hm.
  unfold process_files in *. cbn [callbacks all_metadata] in *.
  set (start := Build_processed _ _ _ _) in *.
  set (p := if max_workers =? 1 then _ else _) in *.
  unfold pretty_len. rewrite Hm.
  assert (callbacks p
          = callbacks start
            ++ ((fun i => processing_event (Z.of_nat i) (length all_files))
                  <$> seq 1 (length all_files))) as ->.
  { subst p. destruct (max_workers =? 1).
    - unfold process_sequential.
      rewrite SchedulerFacts.process_sequential_futures,
        record_results_callbacks, length_fmap.
      done.
    - unfold process_parallel.
      rewrite SchedulerFacts.process_batches, record_results_callbacks.
      cbn [callbacks processed_count]. do 3 f_equal.
      pose proof (SchedulerFacts.consumed_perm fromisoformat_strftime
                    int_of_str scale_size as_completed as_completed_perm) as Hp.
      rewrite (Permutation_length (Hp _)).
      by rewrite SchedulerFacts.numbered_concat, length_fmap. }
  subst start. cbn [callbacks]. by rewrite <- !app_assoc.
Qed.

End Scheduler.

Lemma progress_counts_every_item_once_witness :
  ev_progress <$>
    callbacks (Samples.plain_process_files 4
                 [Samples.sample_item; Samples.broken_item "b1";
                  Samples.sample_item])
  = [0; 1; 2; 3; 2].
Proof.
  unfold Samples.plain_process_files.
  rewrite (progress_counts_every_item_once (fun _ => None) (fun _ => None)
             (fun _ => None) Samples.reversed_completion
             SchedulerFacts.reversed_completion_perm).
  reflexivity.
Defined.

End ProgressFacts.

(** ** The batches of the thread pool *)

Module BatchFacts.

Lemma batches_bounds fuel batch_size (l : list dict) :
  (0 < batch_size)%nat -> (length l <= fuel)%nat ->
  Forall (fun b => (1 <= length b <= batch_size)%nat)
    (batches fuel batch_size l) /\
  (length (batches fuel batch_size l) * batch_size
   < length l + batch_size)%nat /\
  (length l <= length (batches fuel batch_size l) * batch_size)%nat.
Proof.
  intros Hb. revert l. induction fuel as [|fuel IH]; intros l Hl.
  - destruct l; [simpl; split; [done|lia]|simpl in Hl; lia].
  - destruct l as [|x l]; [simpl; split; [done|lia]|].
    cbn [batches].
    destruct (IH (drop batch_size (x :: l))) as (H1 & H2 & H3).
    { rewrite length_drop. simpl in *. lia. }
    rewrite length_drop in H2, H3.
    split; [constructor; [|done]; rewrite length_take; simpl; lia|].
    cbn [length] in *.
    set (k := length (batches _ _ _)) in *. clearbody k.
    destruct (Nat.le_gt_cases batch_size (S (length l))) as [Hle|Hgt].
    + assert (S (length l) - batch_size + batch_size = S (length l))%nat
        as E by lia.
      rewrite E in H2. simpl. lia.
    + assert (S (length l) - batch_size = 0)%nat as E by lia.
      rewrite E in H2, H3. assert (k = 0%nat) as -> by nia. simpl. lia.
Qed.

(** X10. The thread pool works through the list in batches that follow one
    another without gap or overlap; each holds at least one and at most
    ten items, and there are as few of them as that allows. *)
Theorem pool_batches_hold_at_most_ten_items (all_files : list dict) :
  let batch_size := Nat.min 10 (length all_files) in
  let bs := batches (length all_files) batch_size all_files in
  concat bs = all_files /\
  Forall (fun b => (1 <= length b <= 10)%nat) bs /\
  length bs = ((length all_files + 9) / 10)%nat.
Proof.
  cbn zeta. destruct all_files as [|f l]; [done|].
  set (all_files := f :: l).
  assert (0 < Nat.min 10 (length all_files))%nat as Hb by (simpl; lia).
  split; [by apply SchedulerFacts.batches_concat|].
  destruct (batches_bounds (length all_files) _ all_files Hb ltac:(done))
    as (H1 & H2 & H3).
  split.
  - eapply Forall_impl; [done|]. intros b [? ?]. split; [done|].
    etransitivity; [done|]. apply Nat.le_min_l.
  - set (n := length all_files) in *.
    set (k := length (batches _ _ _)) in *.
    destruct (Nat.le_gt_cases 10 n) as [Hn|Hn].
    + rewrite Nat.min_l in H2, H3 by done.
      apply Nat.div_unique with (r := (n + 9 - k * 10)%nat); lia.
    + rewrite Nat.min_r in H2, H3 by lia.
      assert (k = 1%nat) as -> by (subst n; simpl in *; nia).
      apply Nat.div_unique with (r := (n + 9 - 10)%nat);
        subst n; simpl in *; lia.
Qed.

End BatchFacts.

(** ** More on the canonicalizer *)

Module RecordFacts.
Import ExportersFacts.

Section Canonicalizer.
Variable fromisoformat_strftime : string -> option string.
Variable int_of_str : string -> option Z.
Variable scale_size : Z -> option string.

Local Abbreviation extract :=
  (extract_file_metadata fromisoformat_strftime int_of_str scale_size).

(** X11. Only the first owner of an item is recorded: whatever follows it
    in [owners] changes neither the record nor whether the extraction
    raises. *)
Theorem only_the_first_owner_is_recorded
  (file : dict) (owner : value) (others others' : list value) :
  extract (set "owners" (VList (owner :: others)) file)
  = extract (set "owners" (VList (owner :: others')) file).
Proof.
  unfold extract_file_metadata.
  rewrite !get_set_eq.
  rewrite !(get_set_ne "owners") by discriminate.
  reflexivity.
Qed.

End Canonicalizer.

Lemma upper_char_idem c : upper_char (upper_char c) = upper_char c.
Proof. destruct c as [[] [] [] [] [] [] [] []]; reflexivity. Qed.

Lemma upper_char_slash c : Ascii.eqb "/" (upper_char c) = Ascii.eqb "/" c.
Proof. destruct c as [[] [] [] [] [] [] [] []]; reflexivity. Qed.

Lemma upper_idem s : upper (upper s) = upper s.
Proof.
  induction s as [|c s IH]; [done|]. simpl. by rewrite upper_char_idem, IH.
Qed.

Lemma contains_slash_upper s :
  contains_char "/" (upper s) = contains_char "/" s.
Proof.
  induction s as [|c s IH]; [done|]. cbn [upper contains_char].
  by rewrite upper_char_slash, IH.
Qed.

Lemma last_segment_no_sep sep s :
  contains_char sep (last_segment sep s) = false.
Proof.
  induction s as [|c s IH]; [done|]. cbn [last_segment].
  destruct (contains_char sep s) eqn:E; [done|].
  destruct (Ascii.eqb_spec c sep) as [->|Hne]; [done|].
  cbn [contains_char]. rewrite E.
  destruct (Ascii.eqb_spec sep c); [congruence|done].
Qed.

Lemma isascii_upper s : isascii (upper s) = isascii s.
Proof.
  induction s as [|c s IH]; [done|]. cbn [upper isascii]. rewrite IH.
  f_equal. destruct c as [[] [] [] [] [] [] [] []]; reflexivity.
Qed.

Lemma isascii_last_segment sep s :
  isascii s = true -> isascii (last_segment sep s) = true.
Proof.
  induction s as [|c s IH]; [done|]. cbn [last_segment isascii].
  intros [Hc Hs]%andb_true_iff.
  destruct (contains_char sep s); [by apply IH|].
  destruct (Ascii.eqb c sep); [done|]. cbn [isascii]. by rewrite Hc, Hs.
Qed.

(** X12. For a MIME type in ASCII, [_get_file_type] raises nothing and
    gives the label the table has for it, or, when the table does not
    have it, the part behind its last slash in upper case: an ASCII
    text without a slash that [upper] leaves as it is. *)
Theorem file_type_is_a_label_or_an_upper_case_subtype (mime_type : string)
  (Hascii : isascii mime_type = true) :
  exists file_type,
    _get_file_type (VStr mime_type) = Ok (VStr file_type) /\
    match assoc mime_type type_mapping with
    | Some label => file_type = label
    | None =>
        file_type = upper (last_segment "/" mime_type) /\
        isascii file_type = true /\
        contains_char "/" file_type = false /\
        upper file_type = file_type
    end.
Proof.
  eexists. split; [reflexivity|].
  destruct (assoc mime_type type_mapping); simpl; [done|].
  split; [done|]. split; [|split].
  - rewrite isascii_upper. by apply isascii_last_segment.
  - by rewrite contains_slash_upper, last_segment_no_sep.
  - apply upper_idem.
Qed.

Lemma file_type_is_a_label_or_an_upper_case_subtype_witness :
  _get_file_type (VStr "image/svg+xml") = Ok (VStr "SVG+XML") /\
  _get_file_type (VStr "image/png") = Ok (VStr "PNG Image").
Proof.
  split.
  - destruct (file_type_is_a_label_or_an_upper_case_subtype "image/svg+xml")
      as (file_type & Htype & Hshape); [reflexivity|].
    by rewrite Htype, (proj1 Hshape).
  - destruct (file_type_is_a_label_or_an_upper_case_subtype "image/png")
      as (file_type & Htype & Hshape); [reflexivity|].
    cbn in Hshape. by rewrite Htype, Hshape.
Defined.

End RecordFacts.

(** ** Sizes for display *)

Module SizesFacts.
Import Sizes.

Lemma round_half_even_close num den :
  0 < den -> 2 * Z.abs (num - round_half_even num den * den) <= den.
Proof.
  intros Hden. unfold round_half_even.
  pose proof (Z.div_mod num den ltac:(lia)) as Hdm.
  pose proof (Z.mod_pos_bound num den Hden) as Hr.
  destruct (Z.ltb_spec (2 * (num mod den)) den);
    [|destruct (Z.ltb_spec den (2 * (num mod den)));
      [|destruct (Z.even (num / den))]]; nia.
Qed.

Lemma round_half_even_mono num den lo hi :
  0 < den -> lo * den <= num <= hi * den ->
  lo <= round_half_even num den <= hi.
Proof.
  intros Hden [Hlo Hhi]. unfold round_half_even.
  pose proof (Z.div_mod num den ltac:(lia)) as Hdm.
  pose proof (Z.mod_pos_bound num den Hden) as Hr.
  assert (lo <= num / den) by (apply Z.div_le_lower_bound; lia).
  assert (num / den <= hi) by (apply Z.div_le_upper_bound; lia).
  destruct (Z.ltb_spec (2 * (num mod den)) den);
    [|destruct (Z.ltb_spec den (2 * (num mod den)));
      [|destruct (Z.even (num / den))]]; try lia.
  - assert (num / den < hi) by nia. lia.
  - assert (num / den < hi) by nia. lia.
Qed.

Lemma to_float_exact n : Z.abs n < 2 ^ 53 -> to_float n = Some n.
Proof.
  intros H. unfold to_float.
  assert (Z.log2 (Z.abs n) - 52 <= 0) as Hd.
  { destruct (Z.eq_dec (Z.abs n) 0) as [->|]; [done|].
    assert (Z.log2 (Z.abs n) < 53); [|lia].
    apply Z.log2_lt_pow2; lia. }
  apply Z.leb_le in Hd. by rewrite Hd.
Qed.

Lemma log2_bracket n k :
  0 <= k -> 2 ^ (10 * k) <= n < 2 ^ (10 * (k + 1)) -> Z.log2 n / 10 = k.
Proof.
  intros Hk [Hlo Hhi].
  assert (0 < n) by (pose proof (Z.pow_pos_nonneg 2 (10 * k)); lia).
  assert (10 * k <= Z.log2 n) by (apply Z.log2_le_pow2; lia).
  assert (Z.log2 n < 10 * (k + 1)) by (apply Z.log2_lt_pow2; lia).
  symmetry. apply Z.div_unique with (r := Z.log2 n - 10 * k); lia.
Qed.

(** X13. A size from 0 up to [2^53] bytes is shown in the unit whose index
    is [log2 size / 10] - the largest of B, KB, ..., PB that does not
    exceed it - as the quotient rounded to the nearest hundredth, ties
    to even; from 1 KB on the number shown lies between 1.00 and
    1024.00, and 1024.00 is reached. *)
Theorem size_is_shown_in_the_largest_unit_below_it
  (size : Z) (Hrange : 0 <= size < 2 ^ 53) :
  let k := Z.log2 size / 10 in
  scale size
  = Some (format_2f size (1024 ^ k) +:+ " "
          +:+ nth (Z.to_nat k) unit_names "PB") /\
  0 <= k <= 5 /\
  2 * Z.abs (100 * size - hundredths size (1024 ^ k) * 1024 ^ k) <= 1024 ^ k /\
  (1024 <= size -> 100 <= hundredths size (1024 ^ k) <= 102400) /\
  scale (1024 * 1024 - 1) = Some "1024.00 KB".
Proof.
  cbn zeta.
  assert (forall k, 0 <= k -> 2 ^ (10 * k) <= size < 2 ^ (10 * (k + 1)) ->
            Z.log2 size / 10 = k /\ 1024 ^ k = 2 ^ (10 * k) /\
            1024 ^ (k + 1) = 2 ^ (10 * (k + 1))) as Hk.
  { intros k Hk Hb. split; [by apply log2_bracket|].
    change 1024 with (2 ^ 10). by rewrite <- !Z.pow_mul_r by lia. }
  assert (exists k, 0 <= k <= 5 /\ Z.log2 size / 10 = k /\
                    1024 ^ k <= Z.max size 1 < 1024 ^ (k + 1)) as (k & Hk5 & Hlog & Hb).
  { destruct (Z.eq_dec size 0) as [->|Hne].
    { exists 0. by vm_compute. }
    assert (size < 2 ^ 10 \/ 2 ^ 10 <= size < 2 ^ 20 \/ 2 ^ 20 <= size < 2 ^ 30
            \/ 2 ^ 30 <= size < 2 ^ 40 \/ 2 ^ 40 <= size < 2 ^ 50
            \/ 2 ^ 50 <= size < 2 ^ 60) as Hcases by lia.
    destruct Hcases as [H|[H|[H|[H|[H|H]]]]];
      [exists 0|exists 1|exists 2|exists 3|exists 4|exists 5];
      (split; [lia|]);
      (match goal with |- _ = ?k /\ _ =>
         destruct (Hk k ltac:(lia) ltac:(simpl; lia)) as (-> & -> & ->) end);
      (split; [done|simpl; lia]). }
  rewrite Hlog.
  assert (0 < 1024 ^ k) as Hpos by (apply Z.pow_pos_nonneg; lia).
  split; [|split; [done|split; [|split; [|by vm_compute]]]].
  - unfold scale. rewrite to_float_exact by lia.
    assert (k = 0 \/ k = 1 \/ k = 2 \/ k = 3 \/ k = 4 \/ k = 5) as Hc by lia.
    destruct Hc as [->|[->|[->|[->|[->| ->]]]]]; cbn [scale_from];
      repeat match goal with
             | |- context [?a <? ?b] =>
                 destruct (Z.ltb_spec a b); [try (exfalso; simpl in *; lia)|try (exfalso; simpl in *; lia)]
             end; try reflexivity.
  - unfold hundredths. rewrite (Z.abs_eq size) by lia.
    by apply round_half_even_close.
  - intros Hbig. unfold hundredths. rewrite (Z.abs_eq size) by lia.
    apply round_half_even_mono; [done|].
    assert (1024 ^ (k + 1) = 1024 * 1024 ^ k) as E.
    { rewrite Z.pow_add_r by lia. lia. }
    lia.
Qed.

Lemma size_is_shown_in_the_largest_unit_below_it_witness :
  scale 1536 = Some "1.50 KB" /\ hundredths 1536 1024 = 150.
Proof.
  destruct (size_is_shown_in_the_largest_unit_below_it 1536)
    as (H & _); [by vm_compute|].
  split; [exact H|reflexivity].
Defined.

End SizesFacts.

(** ** Jobs that run to their end, and pauses *)

Module JobFacts.
Import WebApp Cases.

Section Controller.
Variable env : environment.

Ltac run_step :=
  rewrite ControllerFacts.run_alone_S; unfold advance at 1;
  cbn [thread_step check_stop fst snd stop_event with_state tick
         after_callbacks next_export exports];
  unfold check_stop;
  cbn [thread_step check_stop fst snd stop_event with_state tick
         after_callbacks next_export exports].

(** From the check behind the last callback on, a job whose stop flag
    is clear writes its exports and completes, whatever the pause flag
    says. *)
Lemma export_phase_run a w md v :
  stop_event w = false -> md <> [] ->
  create_forensic_hash_data md = Ok v ->
  (forall fmt, exporter_raises env fmt = None) ->
  exists w',
    run_alone env a 12 (w, PcCheck4 md) = (w', PcEnd) /\
    status (state w') = Completed /\
    metadata (state w') = Some md /\
    error (state w') = error (state w) /\
    exports w' = exports w ++ written a /\
    pause_event w' = pause_event w /\ stop_event w' = false.
Proof.
  intros Hs Hmd Hv Hw. destruct md as [|m md]; [done|].
  unfold written. rewrite !filter_cons, filter_nil.
  destruct (has_format csv (export_formats a)) eqn:Hc,
    (has_format json (export_formats a)) eqn:Hj,
    (has_format pdf (export_formats a)) eqn:Hp;
    do 12 (run_step; rewrite ?Hs, ?Hv, ?Hw, ?Hc, ?Hj, ?Hp;
           cbn [next_export]);
    (eexists; split; [reflexivity|]); simpl; rewrite <- ?app_assoc.
  all: rewrite ?app_nil_r; by repeat split.
Qed.


Lemma undisturbed_job_alone
  (a : job_args) (w : world) (svc : service) (evs : list event)
  (md : list dict) (v : value) :
  authenticate env = Ok svc ->
  test_connection env svc = true ->
  extract_folder (fromisoformat_strftime env) (int_of_str env)
    (scale_size env) (as_completed env) (fuel env) svc
    (init_max_workers (workers a)) (folder_id a) (include_trashed a)
  = (evs, Done md) ->
  md <> [] ->
  create_forensic_hash_data md = Ok v ->
  (forall fmt, exporter_raises env fmt = None) ->
  exists w',
    run_alone env a (21 + length evs) (w, PcClearEvents) = (w', PcEnd) /\
    status (state w') = Completed /\
    metadata (state w') = Some md /\
    error (state w') = None /\
    exports w' = exports w ++ written a.
Proof.
  intros Hauth Htest Hextract Hfound Hordered Hwrite.
  destruct (ControllerFacts.start_up env a w svc _ _ Hauth Htest Hextract)
    as (w9 & H9 & Hs9 & Hp9 & Hst9 & Hm9 & He9 & Hx9).
  destruct (ControllerFacts.callbacks_run env a evs (Done md) w9 Hs9 Hp9)
    as (wc & Hc & Hsc & Hpc & Hstc & Hmc & Hec & Hxc).
  destruct (export_phase_run a wc md v Hsc Hfound Hordered Hwrite)
    as (w' & Hrun & Hst & Hm & He & Hx & _).
  exists w'.
  replace (21 + length evs)%nat with (9 + (length evs + 12))%nat by lia.
  rewrite !ControllerFacts.run_alone_add, H9, Hc.
  cbn [after_callbacks]. rewrite Hrun.
  repeat split; congruence.
Qed.

(** X14. A job that is left alone completes: with a service that
    authenticates, an extraction that returns records whose ids can be
    ordered, and exporters that can write, the job ends in the state
    [Completed] with the records in [metadata] and one export per
    requested format, in the order CSV, JSON, PDF, whatever the flags
    were when it started. *)
Theorem undisturbed_job_completes
  (a : job_args) (w : world) (svc : service) (evs : list event)
  (md : list dict) (v : value)
  (Hjob : threads w = [{| args := a; at_pc := PcClearEvents |}])
  (Hauth : authenticate env = Ok svc)
  (Htest : test_connection env svc = true)
  (Hextract :
     extract_folder (fromisoformat_strftime env) (int_of_str env)
       (scale_size env) (as_completed env) (fuel env) svc
       (init_max_workers (workers a)) (folder_id a) (include_trashed a)
     = (evs, Done md))
  (Hfound : md <> [])
  (Hordered : create_forensic_hash_data md = Ok v)
  (Hwrite : forall fmt, exporter_raises env fmt = None) :
  let w' := run_trace env w (replicate (21 + length evs) (Run 0%nat)) in
  threads w' = [{| args := a; at_pc := PcEnd |}] /\
  status (state w') = Completed /\
  metadata (state w') = Some md /\
  error (state w') = None /\
  exports w' = exports w ++ written a.
Proof.
  destruct (undisturbed_job_alone a w svc evs md v Hauth Htest Hextract
              Hfound Hordered Hwrite) as (w' & Hrun & Hrest).
  cbn zeta.
  rewrite (ControllerFacts.run_trace_alone env _ a PcClearEvents w Hjob), Hrun.
  by simpl.
Qed.

(** X15. A pause that arrives after the last progress callback is accepted
    but holds nothing: the job writes its exports and completes, and
    the pause flag is still set when it ends. *)
Theorem late_pause_holds_nothing
  (a : job_args) (w : world) (md : list dict) (v : value)
  (Hjob : threads w = [{| args := a; at_pc := PcCheck4 md |}])
  (Hrunning : status (state w) = Running)
  (Hstop : stop_event w = false)
  (Hfound : md <> [])
  (Hordered : create_forensic_hash_data md = Ok v)
  (Hwrite : forall fmt, exporter_raises env fmt = None) :
  status (state (step env w ReqPause)) = Paused /\
  let w' := run_trace env w (ReqPause :: replicate 12 (Run 0%nat)) in
  threads w' = [{| args := a; at_pc := PcEnd |}] /\
  status (state w') = Completed /\
  metadata (state w') = Some md /\
  exports w' = exports w ++ written a /\
  pause_event w' = true.
Proof.
  unfold step at 1. unfold pause_extraction at 1. rewrite Hrunning.
  split; [done|]. cbn zeta. cbn [run_trace foldl].
  change (foldl (step env) ?x ?l) with (run_trace env x l).
  set (w1 := step env w ReqPause).
  assert (threads w1 = [{| args := a; at_pc := PcCheck4 md |}]) as Hjob1.
  { subst w1. unfold step, pause_extraction. by rewrite Hrunning. }
  assert (stop_event w1 = false) as Hstop1.
  { subst w1. unfold step, pause_extraction. by rewrite Hrunning. }
  assert (pause_event w1 = true) as Hpause1.
  { subst w1. unfold step, pause_extraction. by rewrite Hrunning. }
  assert (exports w1 = exports w) as Hexp1.
  { subst w1. unfold step, pause_extraction. by rewrite Hrunning. }
  destruct (export_phase_run a w1 md v Hstop1 Hfound Hordered Hwrite)
    as (w' & Hrun & Hst & Hm & He & Hx & Hp & _).
  rewrite (ControllerFacts.run_trace_alone env _ a _ w1 Hjob1), Hrun. simpl.
  repeat split; congruence.
Qed.


Lemma iter_tick_fields n w :
  state (Nat.iter n tick w) = state w /\
  stop_event (Nat.iter n tick w) = stop_event w /\
  pause_event (Nat.iter n tick w) = pause_event w /\
  threads (Nat.iter n tick w) = threads w /\
  exports (Nat.iter n tick w) = exports w.
Proof. induction n as [|n IH]; [done|]. simpl. exact IH. Qed.

(** A job waiting in the pause loop of its callback stays there. *)
Lemma waiting_job_stays n a pending res w :
  threads w = [{| args := a; at_pc := PcCallback CbWait pending res |}] ->
  pending <> [] -> pause_event w = true -> stop_event w = false ->
  run_trace env w (replicate n (Run 0%nat)) = Nat.iter n tick w.
Proof.
  intros Hjob Hne Hp Hs. revert w Hjob Hp Hs.
  induction n as [|n IH]; intros w Hjob Hp Hs; [done|].
  cbn [replicate run_trace foldl].
  change (foldl (step env) ?x ?l) with (run_trace env x l).
  assert (step env w (Run 0%nat) = tick w) as ->.
  { unfold step, run_thread. rewrite Hjob. simpl.
    destruct pending as [|ev rest]; [done|]. rewrite Hp, Hs. simpl.
    destruct w; simpl in *. by rewrite Hjob. }
  rewrite IH by done. by rewrite <- Nat.iter_succ_r.
Qed.

Lemma resume_delivers a w ev rest res :
  threads w = [{| args := a; at_pc := PcCallback CbWait (ev :: rest) res |}] ->
  status (state w) = Paused -> stop_event w = false ->
  let w2 := run_trace env w [ReqResume; Run 0%nat] in
  threads w2 = [{| args := a; at_pc := next_callback rest res |}] /\
  status (state w2) = Running /\
  progress (state w2) = ev_progress ev /\
  total (state w2) = ev_total ev /\
  current_phase (state w2) = ev_status ev /\
  message (state w2) = ev_message ev.
Proof.
  intros Hjob Hpaused Hstop. cbn zeta. cbn [run_trace foldl].
  unfold step, resume_extraction, run_thread. rewrite Hpaused.
  cbn [tick threads]. rewrite Hjob. simpl. rewrite Hstop. simpl.
  by repeat split.
Qed.

(** X16. Pausing loses no callback. A pause requested while a callback is
    pending holds the job inside that callback for as long as the pause
    lasts, with the progress fields as they were; after the resume the
    job delivers the callback that was pending and goes on to the next. *)
Theorem pause_holds_the_pending_callback
  (a : job_args) (w : world) (ev : event) (rest : list event)
  (res : outcome (list dict)) (n : nat)
  (Hjob : threads w
          = [{| args := a; at_pc := PcCallback CbEnter (ev :: rest) res |}])
  (Hrunning : status (state w) = Running)
  (Hstop : stop_event w = false) :
  let w1 := run_trace env w (ReqPause :: replicate (S n) (Run 0%nat)) in
  let w2 := run_trace env w1 [ReqResume; Run 0%nat] in
  (threads w1
   = [{| args := a; at_pc := PcCallback CbWait (ev :: rest) res |}] /\
   status (state w1) = Paused /\
   progress (state w1) = progress (state w) /\
   total (state w1) = total (state w) /\
   current_phase (state w1) = current_phase (state w) /\
   exports w1 = exports w) /\
  (threads w2 = [{| args := a; at_pc := next_callback rest res |}] /\
   status (state w2) = Running /\
   progress (state w2) = ev_progress ev /\
   total (state w2) = ev_total ev /\
   current_phase (state w2) = ev_status ev /\
   message (state w2) = ev_message ev).
Proof.
  cbn zeta.
  assert (run_trace env w [ReqPause; Run 0%nat]
          = tick (tick
              {| state := set_status (state w) Paused
                            "Extraction paused. Click Resume to continue.";
                 stop_event := false; pause_event := true;
                 threads := [{| args := a;
                                at_pc := PcCallback CbWait (ev :: rest) res |}];
                 exports := exports w; clock := clock w |})) as H2.
  { cbn [run_trace foldl]. unfold step at 2. unfold pause_extraction.
    rewrite Hrunning. unfold step, run_thread. cbn [tick threads].
    rewrite Hjob. simpl. rewrite Hstop. simpl. done. }
  assert (run_trace env w (ReqPause :: replicate (S n) (Run 0%nat))
          = run_trace env (run_trace env w [ReqPause; Run 0%nat])
              (replicate n (Run 0%nat))) as -> by done.
  rewrite H2.
  rewrite (waiting_job_stays n a (ev :: rest) res) by done.
  match goal with |- context [Nat.iter n tick ?x] =>
    destruct (iter_tick_fields n x) as (Hst & Hse & Hpe & Hth & Hex);
    set (w1 := Nat.iter n tick x) in *
  end.
  simpl in Hst, Hse, Hpe, Hth, Hex.
  split.
  - rewrite Hth, Hst, Hex. by repeat split.
  - apply resume_delivers; [done| |done]. by rewrite Hst.
Qed.

End Controller.


Import Samples Scenarios.

Lemma undisturbed_job_completes_witness :
  exists n,
    let w' := run_trace (sample_env small_drive) small_job_started
                (replicate n (Run 0%nat)) in
    status (state w') = Completed /\
    metadata (state w') = Some [record_of sample_item] /\
    exports w' = [ ("forensic_metadata", csv); ("forensic_metadata", json);
                   ("forensic_metadata", pdf) ].
Proof.
  eexists. cbn zeta.
  edestruct (undisturbed_job_completes (sample_env small_drive) sample_args
               small_job_started small_drive)
    as (_ & Hs & Hm & _ & Hx);
    [vm_compute; reflexivity..| |vm_compute; reflexivity
     |intros fmt; reflexivity|].
  - discriminate.
  - split; [exact Hs|]. split; [exact Hm|exact Hx].
Defined.

Lemma late_pause_holds_nothing_witness :
  status (state (step (sample_env small_drive) exports_pending ReqPause))
  = Paused /\
  let w' := run_trace (sample_env small_drive) exports_pending
              (ReqPause :: replicate 12 (Run 0%nat)) in
  status (state w') = Completed /\ pause_event w' = true.
Proof.
  edestruct (late_pause_holds_nothing (sample_env small_drive) sample_args
               exports_pending [record_of sample_item])
    as (Hp & _ & Hs & _ & _ & He);
    [vm_compute; reflexivity..| |vm_compute; reflexivity
     |intros fmt; reflexivity|].
  - discriminate.
  - split; [exact Hp|]. split; [exact Hs|exact He].
Defined.

Lemma pause_holds_the_pending_callback_witness :
  let w1 := run_trace (sample_env small_drive) callbacks_pending
              (ReqPause :: replicate 4 (Run 0%nat)) in
  status (state w1) = Paused /\
  progress (state (run_trace (sample_env small_drive) w1
                     [ReqResume; Run 0%nat])) = 0.
Proof.
  edestruct (fun rest res =>
               pause_holds_the_pending_callback (sample_env small_drive)
                 sample_args callbacks_pending first_event rest res 3)
    as ((_ & Hs & _) & (_ & _ & Hp & _));
    [vm_compute; reflexivity..|].
  split; [exact Hs|exact Hp].
Defined.

End JobFacts.

(** ** Jobs that fail *)

Module FailureFacts.
Import WebApp Cases.

Section Controller.
Variable env : environment.

Ltac run_step :=
  rewrite ControllerFacts.run_alone_S; unfold advance at 1;
  cbn [thread_step check_stop fst snd stop_event with_state tick
         after_callbacks next_export exports];
  unfold check_stop;
  cbn [thread_step check_stop fst snd stop_event with_state tick
         after_callbacks next_export exports].

Lemma except_run a w e :
  stop_event w = false ->
  exists w',
    run_alone env a 1 (w, PcExcept e) = (w', PcEnd) /\
    status (state w') = Error /\
    error (state w') = Some (exn_str e) /\
    message (state w') = "Error: " +:+ exn_str e /\
    metadata (state w') = metadata (state w) /\
    exports w' = exports w.
Proof.
  intros Hs. run_step. rewrite Hs. eexists. split; [reflexivity|].
  by repeat split.
Qed.

Lemma run_to_authenticate a w :
  exists w6,
    run_alone env a 6 (w, PcClearEvents)
    = (w6,
       match authenticate env with
       | Ok svc =>
           if test_connection env svc then PcProgressInit svc
           else PcExcept
                  (Exception
                     "Could not establish connection with Google Drive")
       | Raise e => PcExcept e
       end) /\
    stop_event w6 = false /\ metadata (state w6) = None /\
    exports w6 = exports w.
Proof.
  do 6 run_step.
  destruct (authenticate env) as [svc|e];
    [destruct (test_connection env svc)|];
    (eexists; split; [reflexivity|]); by repeat split.
Qed.

Lemma failed_job_alone a w evs e :
  job_extraction env a = (evs, Fail e) ->
  exists n w',
    run_alone env a n (w, PcClearEvents) = (w', PcEnd) /\
    status (state w') = Error /\
    error (state w') = Some (exn_str e) /\
    message (state w') = "Error: " +:+ exn_str e /\
    metadata (state w') = None /\
    exports w' = exports w.
Proof.
  unfold job_extraction. intros Hjob.
  destruct (run_to_authenticate a w) as (w6 & H6 & Hs6 & Hm6 & Hx6).
  destruct (authenticate env) as [svc|e0] eqn:Hauth;
    [destruct (test_connection env svc) eqn:Htest|].
  - destruct (ControllerFacts.start_up env a w svc _ _ Hauth Htest Hjob)
      as (w9 & H9 & Hs9 & Hp9 & Hst9 & Hm9 & He9 & Hx9).
    destruct (ControllerFacts.callbacks_run env a evs (Fail e) w9 Hs9 Hp9)
      as (wc & Hc & Hsc & Hpc & Hstc & Hmc & Hec & Hxc).
    destruct (except_run a wc e Hsc) as (w' & Hrun & Hst & He & Hmsg & Hm & Hx).
    exists (9 + (length evs + 1))%nat, w'.
    rewrite !ControllerFacts.run_alone_add, H9, Hc. cbn [after_callbacks].
    rewrite Hrun. repeat split; congruence.
  - injection Hjob as <- <-.
    destruct (except_run a w6
                (Exception "Could not establish connection with Google Drive")
                Hs6) as (w' & Hrun & Hst & He & Hmsg & Hm & Hx).
    exists (6 + 1)%nat, w'. rewrite ControllerFacts.run_alone_add, H6, Hrun.
    repeat split; congruence.
  - injection Hjob as <- <-.
    destruct (except_run a w6 e0 Hs6)
      as (w' & Hrun & Hst & He & Hmsg & Hm & Hx).
    exists (6 + 1)%nat, w'. rewrite ControllerFacts.run_alone_add, H6, Hrun.
    repeat split; congruence.
Qed.

(** X23. A job that is left alone and fails before its exports - in
    [authenticate], in the connection test, or in [extract_folder] -
    ends in the state [Error] with an error recorded, no metadata and
    no export written. When the exception carries a text, as the
    errors of the Drive client and the [Exception]s of the program do,
    that text is the error, and the message shows it behind
    [Error: ]. *)
Theorem failure_before_the_exports_ends_in_error
  (a : job_args) (w : world) (evs : list event) (e : exn)
  (Hjob : threads w = [{| args := a; at_pc := PcClearEvents |}])
  (Hfail : job_extraction env a = (evs, Fail e)) :
  exists n,
    let w' := run_trace env w (replicate n (Run 0%nat)) in
    threads w' = [{| args := a; at_pc := PcEnd |}] /\
    status (state w') = Error /\
    error (state w') <> None /\
    (forall msg,
       exn_text e = Some msg ->
       error (state w') = Some msg /\
       message (state w') = "Error: " +:+ msg) /\
    metadata (state w') = None /\
    exports w' = exports w.
Proof.
  destruct (failed_job_alone a w evs e Hfail)
    as (n & w' & Hrun & Hst & He & Hmsg & Hm & Hx).
  exists n. cbn zeta.
  rewrite (ControllerFacts.run_trace_alone env n a PcClearEvents w Hjob), Hrun.
  cbn [fst with_threads threads state exports].
  split; [done|]. split; [done|]. split; [by rewrite He|].
  split; [|done].
  intros msg Htext. rewrite He, Hmsg. unfold exn_str. by rewrite Htext.
Qed.



End Controller.
Import Samples Scenarios.

Lemma failure_before_the_exports_ends_in_error_witness :
  exists n,
    let w' := run_trace (sample_env failing_drive) failing_job_started
                (replicate n (Run 0%nat)) in
    status (state w') = Error /\
    error (state w') = Some "quota exceeded" /\
    exports w' = [].
Proof.
  edestruct (fun evs =>
               failure_before_the_exports_ends_in_error
                 (sample_env failing_drive) sample_args failing_job_started
                 evs (HttpError "quota exceeded"))
    as (n & _ & Hs & _ & He & _ & Hx); [vm_compute; reflexivity..|].
  exists n. split; [exact Hs|]. split; [by apply He|exact Hx].
Defined.


End FailureFacts.

(** ** The command line *)

Module MainFacts.
Import WebApp Main.

Section Cli.
Variable env : environment.

Lemma export_in_order_cases output f md :
  let r := export_in_order env output (output_formats f) md [csv; json; pdf] []
  in
  match r.2 with
  | None =>
      r.1 = (fun fmt => (output, fmt)) <$> output_formats f /\
      (exists v, create_forensic_hash_data md = Ok v) /\
      forall fmt, has_format fmt (output_formats f) = true ->
        exporter_raises env fmt = None
  | Some _ =>
      exists missing,
        missing <> [] /\
        (fun fmt => (output, fmt)) <$> output_formats f = r.1 ++ missing
  end.
Proof.
  destruct f; cbn;
    destruct (create_forensic_hash_data md) as [v|e]; cbn;
    try (by eexists [_]);
    try (by eexists [_; _; _]).
  - destruct (exporter_raises env csv) eqn:Hc; cbn;
      [by eexists [_; _; _]|].
    destruct (exporter_raises env json) eqn:Hj; cbn;
      [by eexists [_; _]|].
    destruct (exporter_raises env pdf) eqn:Hp; cbn;
      [by eexists [_]|].
    split; [done|]. split; [by eexists|]. by intros [].
  - destruct (exporter_raises env csv) eqn:Hc; cbn;
      [by eexists [_]|].
    split; [done|]. split; [by eexists|]. by intros [].
  - destruct (exporter_raises env json) eqn:Hj; cbn;
      [by eexists [_]|].
    split; [done|]. split; [by eexists|]. by intros [].
  - destruct (exporter_raises env pdf) eqn:Hp; cbn;
      [by eexists [_]|].
    split; [done|]. split; [by eexists|]. by intros [].
Qed.


End Cli.
End MainFacts.

(** ** The entry points: web request and command line *)

Module EntryFacts.
Import WebApp Main Cases.

Lemma rstrip_idem s : rstrip (rstrip s) = rstrip s.
Proof.
  induction s as [|c s IH]; [done|]. simpl.
  destruct (is_space (String c (rstrip s))) eqn:E; [done|].
  simpl. by rewrite IH, E.
Qed.

(** [lstrip] one step at a time. *)
Lemma lstrip_unfold a s1 :
  lstrip (String a s1)
  = if is_space (String a "") then lstrip s1
    else
      match s1 with
      | EmptyString => String a s1
      | String b s2 =>
          if is_space (String a (String b "")) then lstrip s2
          else
            match s2 with
            | EmptyString => String a s1
            | String c s3 =>
                if is_space (String a (String b (String c "")))
                then lstrip s3
                else String a s1
            end
      end.
Proof. by destruct s1 as [|b [|c s3]]. Qed.

Lemma lstrip_length s : (String.length (lstrip s) <= String.length s)%nat.
Proof.
  remember (String.length s) as n eqn:Hn. revert s Hn.
  induction n as [n IH] using lt_wf_ind. intros s ->.
  destruct s as [|a [|b [|c s]]]; simpl; repeat case_match; simpl; try lia.
  all: try (etrans; [eapply IH; [|reflexivity]; simpl; lia|simpl; lia]).
Qed.

Lemma lstrip_head s : lstrip (lstrip s) = lstrip s.
Proof.
  remember (String.length s) as n eqn:Hn. revert s Hn.
  induction n as [n IH] using lt_wf_ind. intros s ->.
  destruct s as [|a s1]; [done|].
  rewrite (lstrip_unfold a s1).
  destruct (is_space (String a "")) eqn:E1.
  { eapply IH; [|reflexivity]. simpl. lia. }
  destruct s1 as [|b s2]; [by rewrite lstrip_unfold, E1|].
  destruct (is_space (String a (String b ""))) eqn:E2.
  { eapply IH; [|reflexivity]. simpl. lia. }
  destruct s2 as [|c s3]; [by rewrite lstrip_unfold, E1, E2|].
  destruct (is_space (String a (String b (String c "")))) eqn:E3.
  { eapply IH; [|reflexivity]. simpl. lia. }
  by rewrite lstrip_unfold, E1, E2, E3.
Qed.

(** A text that does not begin with whitespace keeps that when
    whitespace is taken from its end. *)
Lemma lstrip_rstrip s :
  lstrip s = s -> lstrip (rstrip s) = rstrip s.
Proof.
  intros H.
  assert (forall t, (String.length t < String.length s)%nat -> lstrip t <> s)
    as Hlen.
  { intros t Ht E. pose proof (lstrip_length t). rewrite E in *. lia. }
  destruct s as [|a s1]; [done|].
  destruct (HelpersFacts.rstrip_head a s1) as [->| ->]; [done|].
  rewrite lstrip_unfold in H. rewrite lstrip_unfold.
  destruct (is_space (String a "")) eqn:E1.
  { exfalso. eapply (Hlen s1); [simpl; lia|done]. }
  destruct s1 as [|b s2]; [done|].
  destruct (HelpersFacts.rstrip_head b s2) as [->| ->]; [done|].
  destruct (is_space (String a (String b ""))) eqn:E2.
  { exfalso. eapply (Hlen s2); [simpl; lia|done]. }
  destruct s2 as [|c s3]; [done|].
  destruct (HelpersFacts.rstrip_head c s3) as [->| ->]; [done|].
  destruct (is_space (String a (String b (String c "")))) eqn:E3; [|done].
  exfalso. eapply (Hlen s3); [simpl; lia|done].
Qed.

Lemma strip_idem s : strip (strip s) = strip s.
Proof.
  unfold strip. rewrite (lstrip_rstrip (lstrip s)) by apply lstrip_head.
  apply rstrip_idem.
Qed.

Lemma parser_strips s :
  strip s <> "" ->
  Helpers.extract_folder_id_from_url (strip s)
  = Helpers.extract_folder_id_from_url s.
Proof.
  intros Hne. unfold Helpers.extract_folder_id_from_url.
  rewrite strip_idem.
  assert (String.eqb (strip s) "" = false) as E by by apply String.eqb_neq.
  rewrite E. cbn [orb].
  destruct (String.eqb s "") eqn:Es; [|done].
  apply String.eqb_eq in Es. by subst s.
Qed.

Section Entry.
Variable env : environment.
Hypothesis real_parser :
  extract_folder_id_from_url env = Helpers.extract_folder_id_from_url.

(** X4. What [start_extraction] makes of the folder field, while no job is
    running: a missing or blank field starts a job on the whole Drive;
    a field the link parser accepts starts a job on the id it gives; a
    field it rejects is refused and nothing changes. The command line
    resolves [--folder-id] the same way, except that it refuses a field
    that is blank but not empty. *)
Theorem start_extraction_resolves_the_folder
  (data : start_request) (w : world)
  (Hidle : status (state w) <> Running) :
  match req_folder_id data with
  | None => start_extraction env data w = job_accepted data None w
  | Some input =>
      if String.eqb (strip input) "" then
        start_extraction env data w = job_accepted data None w /\
        resolve_folder (Some input)
        = if String.eqb input "" then Some None else None
      else
        match Helpers.extract_folder_id_from_url input with
        | Some id =>
            start_extraction env data w = job_accepted data (Some id) w /\
            resolve_folder (Some input) = Some (Some id)
        | None =>
            start_extraction env data w = w /\
            resolve_folder (Some input) = None
        end
  end.
Proof.
  unfold start_extraction, job_accepted.
  destruct (req_folder_id data) as [input|].
  2:{ by destruct (status (state w)). }
  rewrite real_parser.
  destruct (String.eqb (strip input) "") eqn:Hs.
  - rewrite andb_false_r. split; [by destruct (status (state w))|].
    unfold resolve_folder. destruct (String.eqb input "") eqn:Hi; [done|].
    unfold Helpers.extract_folder_id_from_url. by rewrite Hi, Hs.
  - assert (String.eqb input "" = false) as Hi.
    { apply String.eqb_neq. intros ->. by vm_compute in Hs. }
    rewrite Hi. cbn [negb andb].
    rewrite parser_strips by by apply String.eqb_neq.
    unfold resolve_folder. rewrite Hi.
    pose proof (HelpersFacts.parsed_id_nonempty input) as Hshape.
    destruct (Helpers.extract_folder_id_from_url input) as [id|].
    + pose proof (Hshape id eq_refl) as Hne.
      apply String.eqb_neq in Hne. rewrite Hne.
      split; [by destruct (status (state w))|done].
    + split; [by destruct (status (state w))|done].
Qed.

End Entry.

Section Agreement.
Variable env : environment.

(** X18. Whatever the command line exports with [--format all], a web job
    with the same arguments, left alone, exports too: it completes with
    the same records and writes the same files in the same order. *)
Theorem web_job_exports_what_the_cli_exports
  (args : arguments) (a : job_args) (w : world) (md : list dict)
  (files : list (string * export_format))
  (Hcli : main env args = CliViewer md files)
  (Hall : arg_format args = FormatAll)
  (Hfolder : resolve_folder (arg_folder_id args) = Some (folder_id a))
  (Houtput : output_name a = arg_output args)
  (Hworkers : workers a = arg_workers args)
  (Htrashed : include_trashed a = arg_include_trashed args)
  (Hformats : export_formats a = [csv; json; pdf])
  (Hjob : threads w = [{| args := a; at_pc := PcClearEvents |}]) :
  exists n,
    let w' := run_trace env w (replicate n (Run 0%nat)) in
    threads w' = [{| args := a; at_pc := PcEnd |}] /\
    status (state w') = Completed /\
    metadata (state w') = Some md /\
    exports w' = exports w ++ files.
Proof.
  revert Hcli. unfold main. rewrite Hfolder, Hall, <- Hworkers, <- Htrashed.
  destruct (authenticate env) as [svc|e] eqn:Hauth; [|done].
  destruct (test_connection env svc) eqn:Htest; cbn [negb]; [|done].
  destruct (extract_folder _ _ _ _ _ _ _ _ _) as [evs res] eqn:Hextract.
  cbn [snd]. destruct res as [[|m md']|e|]; try done.
  pose proof (MainFacts.export_in_order_cases env (arg_output args) FormatAll
                (m :: md')) as H.
  cbn zeta in H.
  destruct (export_in_order _ _ _ _ _ _) as [files' [e|]]; [done|].
  cbn [fst snd] in H. destruct H as (Hfiles & [v Hv] & Hw).
  intros [= <- <-].
  assert (forall fmt, exporter_raises env fmt = None) as Hwrite.
  { intros fmt. apply Hw. by destruct fmt. }
  exists (21 + length evs)%nat.
  destruct (JobFacts.undisturbed_job_alone env a w svc evs (m :: md') v
              Hauth Htest Hextract ltac:(done) Hv Hwrite)
    as (w' & Hrun & Hs & Hm & _ & Hx).
  cbn zeta.
  rewrite (ControllerFacts.run_trace_alone env _ a PcClearEvents w Hjob), Hrun.
  cbn [fst snd with_threads threads state exports].
  split; [done|]. split; [done|]. split; [done|].
  rewrite Hx, Hfiles. unfold written. by rewrite Hformats, Houtput.
Qed.

End Agreement.
Import Samples Scenarios.

Lemma start_extraction_resolves_the_folder_witness :
  start_extraction (linked_env small_drive)
    {| req_folder_id := Some shared_link;
       req_output_name := "forensic_metadata"; req_workers := None;
       req_include_trashed := false |} initial_world
  = job_accepted
      {| req_folder_id := Some shared_link;
         req_output_name := "forensic_metadata"; req_workers := None;
         req_include_trashed := false |} (Some "1AbC_d-9") initial_world /\
  resolve_folder (Some shared_link) = Some (Some "1AbC_d-9").
Proof.
  exact (start_extraction_resolves_the_folder (linked_env small_drive) eq_refl
           {| req_folder_id := Some shared_link;
              req_output_name := "forensic_metadata"; req_workers := None;
              req_include_trashed := false |} initial_world
           ltac:(discriminate)).
Defined.

Lemma web_job_exports_what_the_cli_exports_witness :
  exists n,
    let w' := run_trace (sample_env small_drive) small_job_started
                (replicate n (Run 0%nat)) in
    status (state w') = Completed /\
    exports w' = [ ("forensic_metadata", csv); ("forensic_metadata", json);
                   ("forensic_metadata", pdf) ].
Proof.
  destruct (web_job_exports_what_the_cli_exports (sample_env small_drive)
              default_arguments sample_args small_job_started
              [record_of sample_item]
              [ ("forensic_metadata", csv); ("forensic_metadata", json);
                ("forensic_metadata", pdf) ])
    as (n & _ & Hs & _ & Hx); [vm_compute; reflexivity..|].
  exists n. split; [exact Hs|exact Hx].
Defined.

End EntryFacts.

(** ** The CSV file *)

Module CsvFacts.
Import SortingFacts ExportersFacts.

Local Abbreviation cmp := (fun x y : dict => key_leb (id_key x) (id_key y)).

Lemma row_ext r r' :
  (forall k, k ∈ Csv.columns -> get r k (VStr "") = get r' k (VStr "")) ->
  Csv.row r = Csv.row r'.
Proof.
  intros H. unfold Csv.row. apply list_fmap_ext. intros i k Hk.
  apply list_elem_of_lookup_2 in Hk. by rewrite (H k Hk).
Qed.

Lemma export_pointwise l l' :
  Forall2 (fun r r' => id_key r = id_key r' /\ Csv.row r = Csv.row r') l l' ->
  Csv.export l = Csv.export l'.
Proof.
  intros H. unfold Csv.export.
  destruct H as [|r r' l l' Hr Hl]; [done|].
  assert (Forall2 (fun r r' => id_key r = id_key r' /\ Csv.row r = Csv.row r')
            (r :: l) (r' :: l')) as H by by constructor.
  rewrite !sorted_by_id_spec.
  assert (record_key <$> r :: l = record_key <$> r' :: l') as ->.
  { clear -H. induction H as [|???? [E _]]; csimpl; [done|].
    unfold record_key at 1 3. by rewrite E; f_equal. }
  destruct (orderable_keys _); [|done]. cbn [bind].
  apply (stable_sort_Forall2 cmp cmp) in H.
  - assert (Csv.row <$> stable_sort cmp (r :: l)
            = Csv.row <$> stable_sort cmp (r' :: l')) as ->; [|done].
    induction H as [|???? [_ E]]; csimpl; [done|]. by f_equal.
  - intros a a' b b' [E _] [E' _]. by rewrite E, E'.
Qed.

(** X19. The CSV file has 25 columns; of the 27 fields of a record it
    leaves out [sharing_user_email] and [starred]. Whatever a record
    holds outside the columns, in these two fields or in any other,
    does not show in the file. *)
Theorem csv_leaves_out_two_fields :
  length Csv.columns = 25%nat /\
  filter (fun k => k ∉ Csv.columns) ((fun e => e.1.2) <$> sentinels)
  = ["sharing_user_email"; "starred"] /\
  forall (l : list dict) i r k v,
    l !! i = Some r -> k ∉ Csv.columns ->
    Csv.export (<[i := set k v r]> l) = Csv.export l.
Proof.
  split; [reflexivity|]. split; [by vm_compute|].
  intros l i r k v Hi Hk. apply export_pointwise.
  rewrite <-(list_insert_id l i r) at 2 by done.
  apply Forall2_insert.
  - apply Forall_Forall2_diag, Forall_forall. done.
  - split.
    + unfold id_key. apply get_set_ne. intros ->. apply Hk. by vm_compute; set_solver.
    + apply row_ext. intros k' Hk'. apply get_set_ne. by intros ->.
Qed.


Lemma sorted_records_sorted l :
  StronglySorted (fun a b => sort_key_leb (record_key a) (record_key b) = true)
    (stable_sort cmp l).
Proof.
  apply Sorted_StronglySorted.
  - intros a b c. apply sort_key_leb_trans.
  - apply (stable_sort_sorted cmp), cmp_total.
Qed.

Lemma sorted_records_unique l1 l2 :
  l1 ≡ₚ l2 -> NoDup (record_key <$> l1) ->
  stable_sort cmp l1 = stable_sort cmp l2.
Proof.
  intros Hperm Hnd.
  apply StronglySorted_unique_strong
    with (R := fun a b => sort_key_leb (record_key a) (record_key b) = true);
    [|apply sorted_records_sorted..|by rewrite !stable_sort_perm].
  intros x1 x2 Hx1 Hx2 H12 H21.
  rewrite stable_sort_perm in Hx1. rewrite stable_sort_perm, <-Hperm in Hx2.
  apply (NoDup_fmap_inj_on record_key l1); [done..|].
  by apply sort_key_leb_antisym.
Qed.

(** X20. The data rows of the CSV file come in the order of the ids, and
    for records with distinct ids the file does not depend on the order
    in which the records were extracted. *)
Theorem csv_rows_are_sorted_by_id (l1 l2 : list dict)
  (Hperm : l1 ≡ₚ l2) (Hdistinct : NoDup (record_key <$> l1)) :
  Csv.export l1 = Csv.export l2 /\
  forall lines,
    Csv.export l1 = Ok (Some lines) ->
    exists sorted,
      lines = Csv.columns :: (Csv.row <$> sorted) /\
      sorted ≡ₚ l1 /\
      StronglySorted
        (fun a b => sort_key_leb (record_key a) (record_key b) = true) sorted.
Proof.
  split.
  - unfold Csv.export. rewrite !sorted_by_id_spec.
    rewrite (orderable_keys_perm (record_key <$> l1) (record_key <$> l2))
      by by rewrite Hperm.
    rewrite (sorted_records_unique l1 l2) by done.
    destruct l1 as [|r1 l1], l2 as [|r2 l2]; try done.
    + by apply Permutation_nil_cons in Hperm.
    + symmetry in Hperm. by apply Permutation_nil_cons in Hperm.
  - intros lines. unfold Csv.export. rewrite sorted_by_id_spec.
    destruct l1 as [|r1 l1]; [done|].
    destruct (orderable_keys _); [|done]. intros [= <-].
    eexists. split; [done|].
    split; [apply (stable_sort_perm cmp (r1 :: l1))|].
    apply (sorted_records_sorted (r1 :: l1)).
Qed.

Lemma csv_leaves_out_two_fields_witness :
  Csv.export
    (<[0%nat := set "starred" (VBool true) Samples.report]>
       [Samples.report; Samples.notes])
  = Csv.export [Samples.report; Samples.notes].
Proof.
  destruct csv_leaves_out_two_fields as (_ & _ & H).
  apply H; [reflexivity|]. by vm_compute; set_solver.
Defined.

Lemma csv_rows_are_sorted_by_id_witness :
  Csv.export [Samples.notes; Samples.report]
  = Csv.export [Samples.report; Samples.notes].
Proof.
  apply (csv_rows_are_sorted_by_id [Samples.notes; Samples.report]
           [Samples.report; Samples.notes]).
  - apply Permutation_swap.
  - vm_compute. apply NoDup_cons_2; [|apply NoDup_singleton].
    intros H%list_elem_of_singleton. discriminate H.
Defined.

End CsvFacts.

(** ** The PDF report *)

Module PdfFacts.
Import Pdf.

Lemma build_first_pass hash n start m drawn :
  0 <= m < Z.of_nat start ->
  foldl (fun acc page =>
           let '(st', lines) := _add_footer hash (Z.of_nat page) acc.1 in
           (st', acc.2 ++ [lines]))
    ({| _max_page := m; total_pages := None |}, drawn) (seq start n)
  = ({| _max_page := if decide (n = 0%nat) then m
                     else Z.of_nat (start + n - 1);
        total_pages := None |},
     drawn
     ++ ((fun k => ("SHA-256: " +:+ hash,
                    pretty (Z.of_nat k) +:+ "/" +:+ pretty (Z.of_nat k)))
           <$> seq start n)).
Proof.
  revert start m drawn. induction n as [|n IH]; intros start m drawn Hm.
  - simpl. by rewrite app_nil_r.
  - cbn [seq foldl]. unfold _add_footer at 2. cbn [fst snd _max_page total_pages].
    rewrite Z.max_r by lia.
    assert ((0 <? Z.of_nat start) = true) as -> by (apply Z.ltb_lt; lia).
    rewrite (IH (S start)) by lia. f_equal.
    + f_equal. destruct (decide (n = 0%nat)) as [->|]; simpl.
      * f_equal. lia.
      * f_equal. lia.
    + by rewrite <- app_assoc.
Qed.

(** X22. When PyPDF2 is missing, fails, or counts as many pages as the
    build drew, the file keeps the footers of the first build, and
    there the total printed on a page is the number of that page: page
    [k] of [n] reads [k/k]. *)
Theorem footer_total_is_the_page_number (forensic_hash : string)
  (pages : nat) (reader : option Z) (rebuilt_pages : nat)
  (Hreader : reader = None \/ reader = Some (Z.of_nat pages)) :
  (export_footers forensic_hash pages reader rebuilt_pages).2
  = (fun k => ("SHA-256: " +:+ forensic_hash,
               pretty (Z.of_nat k) +:+ "/" +:+ pretty (Z.of_nat k)))
      <$> seq 1 pages.
Proof.
  unfold export_footers, build.
  rewrite (build_first_pass forensic_hash pages 1 0 []) by lia.
  destruct Hreader as [-> | ->]; [done|].
  cbn [_max_page].
  destruct (decide (pages = 0%nat)) as [->|Hne]; [done|].
  replace (Z.of_nat (1 + pages - 1)) with (Z.of_nat pages) by lia.
  by rewrite Z.eqb_refl.
Qed.


Lemma foldl_comm_perm {A B} (f : B -> A -> B) (l l' : list A) :
  (forall acc x y, f (f acc x) y = f (f acc y) x) ->
  l ≡ₚ l' -> forall acc, foldl f acc l = foldl f acc l'.
Proof.
  intros Hf. induction 1 as [|x l l' _ IH|x y l|l l' l'' _ IH1 _ IH2];
    intros acc; simpl.
  - done.
  - apply IH.
  - by rewrite Hf.
  - by rewrite IH1.
Qed.

Lemma count_type_comm acc x y :
  count_type (count_type acc x) y = count_type (count_type acc y) x.
Proof.
  unfold count_type. destruct acc as [t|]; [|done].
  destruct (hash_key (get x "file_type" (VStr "Unknown"))) as [kx|],
    (hash_key (get y "file_type" (VStr "Unknown"))) as [ky|]; try done.
  destruct (decide (kx = ky)) as [->|Hne]; [done|].
  rewrite !lookup_insert_ne by done. by rewrite insert_insert_ne.
Qed.

Lemma file_types_size md t0 types :
  foldl count_type (Some t0) md = Some types ->
  (size t0 <= size types <= size t0 + length md)%nat.
Proof.
  revert t0. induction md as [|m md IH]; intros t0; simpl.
  - intros [= ->]. lia.
  - destruct (hash_key _) as [k|].
    + intros H. apply IH in H. rewrite map_size_insert in H.
      destruct (t0 !! k); simpl in H; lia.
    + assert (foldl count_type None md = None) as ->; [|done].
      clear. by induction md.
Qed.

Lemma file_types_nonempty m md types :
  file_types (m :: md) = Some types -> (1 <= size types)%nat.
Proof.
  unfold file_types. simpl. destruct (hash_key _) as [k|].
  - intros H. apply file_types_size in H.
    rewrite map_size_insert, lookup_empty, map_size_empty in H. simpl in H. lia.
  - assert (foldl count_type None md = None) as ->; [|done].
    clear. by induction md.
Qed.

Section Statistics.
Variable int_of_str : string -> option Z.

Lemma total_size_perm l l' :
  l ≡ₚ l' -> total_size int_of_str l = total_size int_of_str l'.
Proof.
  intros H. unfold total_size. apply foldl_comm_perm; [|done].
  intros [a|] x y;
    [|by destruct (size_of int_of_str y), (size_of int_of_str x)].
  destruct (size_of int_of_str x), (size_of int_of_str y); try done.
  f_equal. lia.
Qed.

(** X21. The summary table of the PDF report is consistent and does not
    depend on the order of the records: shared files and distinct file
    types never outnumber the files, a report with a file has a file
    type, and a rearranged list gives the same four values - or fails
    in the same way. *)
Theorem pdf_statistics_are_consistent (metadata metadata' : list dict)
  (Hperm : metadata ≡ₚ metadata') :
  (shared_files metadata <= length metadata)%nat /\
  (forall types,
     file_types metadata = Some types ->
     (size types <= length metadata)%nat /\
     (metadata <> [] -> (1 <= size types)%nat)) /\
  stats_data int_of_str metadata = stats_data int_of_str metadata'.
Proof.
  split; [|split].
  - unfold shared_files. apply length_filter.
  - intros types H. split.
    + apply file_types_size in H. rewrite map_size_empty in H. lia.
    + destruct metadata as [|m md]; [done|]. intros _.
      by eapply file_types_nonempty.
  - unfold stats_data, shared_files.
    rewrite (total_size_perm _ _ Hperm).
    assert (file_types metadata = file_types metadata') as ->.
    { unfold file_types. apply foldl_comm_perm; [|done].
      apply count_type_comm. }
    rewrite (Permutation_length Hperm).
    assert (filter (fun m => truthy (get m "shared" (VBool false)) = true) metadata
            ≡ₚ filter (fun m => truthy (get m "shared" (VBool false)) = true) metadata')
      as Hf by by rewrite Hperm.
    by rewrite (Permutation_length Hf).
Qed.

End Statistics.

Lemma footer_total_is_the_page_number_witness :
  (export_footers "0f3a" 3 (Some 3) 0).2
  = [ ("SHA-256: 0f3a", "1/1"); ("SHA-256: 0f3a", "2/2");
      ("SHA-256: 0f3a", "3/3") ].
Proof.
  exact (footer_total_is_the_page_number "0f3a" 3 (Some 3) 0
           (or_intror eq_refl)).
Defined.

Lemma pdf_statistics_are_consistent_witness :
  stats_data (fun _ => Some 0) [Samples.notes; Samples.report]
  = stats_data (fun _ => Some 0) [Samples.report; Samples.notes].
Proof.
  apply (pdf_statistics_are_consistent (fun _ => Some 0)
           [Samples.notes; Samples.report] [Samples.report; Samples.notes]).
  apply Permutation_swap.
Defined.

End PdfFacts.
